(** * Layered resolution of the gateway configuration

    A shallow embedding of the class [Configuration] (the second document of
    [src/config/stats.ts]): the load and reload lifecycle, the file and
    environment layers, the defaulting of paths, the normalisation of arrays
    and the overlay that comes from the store.

    The asynchronous methods become computations over an explicit [World]
    (the instance fields, the file system, the store, the log of effects);
    a failure is a value, and every [await] records what a concurrent reader
    of the instance would see at that point. *)

From Stdlib Require Import String Ascii List ZArith Bool Arith Lia.
From Stdlib Require Import DecimalString DecimalNat.
Import ListNotations.
Local Open Scope list_scope.
Local Open Scope string_scope.

(* ===================================================================== *)
(** ** JavaScript values *)
(* ===================================================================== *)

(** What a parsed YAML or JSON document holds.  An array is an object whose
    own keys are its indices, as in JavaScript; [isArray] is what
    [Array.isArray] answers.  Properties are kept in insertion order and a
    key is looked up at its first occurrence. *)
#[local] Set Warnings "-register-all".
Inductive JValue : Type :=
| JNull
| JBool (b : bool)
| JNum (n : Z)
| JNaN
| JStr (s : string)
| JObj (isArray : bool) (props : list (string * JValue)).
#[local] Set Warnings "register-all".

Definition Props := list (string * JValue).

(** [index_key n] is the property name of the n-th element of an array. *)
Definition index_key (n : nat) : string :=
  NilZero.string_of_uint (Nat.to_uint n).

Fixpoint index_from (n : nat) (l : list JValue) : Props :=
  match l with
  | [] => []
  | x :: r => (index_key n, x) :: index_from (S n) r
  end.

(** The array literal [[x1, ..., xn]]. *)
Definition JArr (l : list JValue) : JValue := JObj true (index_from 0 l).

(** The object literal [{k1: x1, ...}]. *)
Definition JRec (ps : Props) : JValue := JObj false ps.

(** [!!v]: JavaScript truthiness. *)
Definition truthy (v : JValue) : bool :=
  match v with
  | JNull => false
  | JBool b => b
  | JNum n => negb (Z.eqb n 0)
  | JNaN => false
  | JStr s => negb (String.eqb s "")
  | JObj _ _ => true
  end.

Definition is_array (v : JValue) : bool :=
  match v with
  | JObj true _ => true
  | _ => false
  end.

(** [_.isObject]: objects and arrays. *)
Definition is_object (v : JValue) : bool :=
  match v with
  | JObj _ _ => true
  | _ => false
  end.

(** [obj[k]], [None] being [undefined]. *)
Fixpoint lookup (k : string) (ps : Props) : option JValue :=
  match ps with
  | [] => None
  | (k', x) :: r => if String.eqb k k' then Some x else lookup k r
  end.

(** [obj[k] = x]: the property keeps its place, a new one goes last. *)
Fixpoint assign (k : string) (x : JValue) (ps : Props) : Props :=
  match ps with
  | [] => [(k, x)]
  | (k', y) :: r =>
      if String.eqb k k' then (k', x) :: r else (k', y) :: assign k x r
  end.

(** In-place change of the value held at [k], when there is one. *)
Fixpoint alter (k : string) (f : JValue -> JValue) (ps : Props) : Props :=
  match ps with
  | [] => []
  | (k', y) :: r =>
      if String.eqb k k' then (k', f y) :: r else (k', y) :: alter k f r
  end.

(** [_.keys(v)]: the own keys of an object; a value without properties has
    none. *)
Definition keys (v : JValue) : list string :=
  match v with
  | JObj _ ps => map fst ps
  | _ => []
  end.

(** [v.k] on a value that is known not to be null. *)
Definition field (k : string) (v : JValue) : option JValue :=
  match v with
  | JObj _ ps => lookup k ps
  | _ => None
  end.

(** A value read from a possibly missing property, [undefined] and [null]
    being both falsy. *)
Definition or_null (o : option JValue) : JValue :=
  match o with
  | Some v => v
  | None => JNull
  end.

(** [v.k = x] on an object. *)
Definition assign_field (k : string) (x : JValue) (v : JValue) : JValue :=
  match v with
  | JObj a ps => JObj a (assign k x ps)
  | _ => v
  end.

(** A property path, already split at its dots. *)
Definition Path := list string.

(** [_.get(v, path)].  Keys are taken not to contain a dot. *)
Fixpoint get (p : Path) (v : JValue) : option JValue :=
  match p with
  | [] => Some v
  | k :: p' =>
      match v with
      | JObj _ ps =>
          match lookup k ps with
          | Some x => get p' x
          | None => None
          end
      | _ => None
      end
  end.

(** [_.has(v, path)]. *)
Definition has (v : JValue) (p : Path) : bool :=
  match get p v with
  | Some _ => true
  | None => false
  end.

(** The change made by a mutation of the value found at [p]; nothing is
    created when the path does not exist. *)
Fixpoint update (p : Path) (f : JValue -> JValue) (v : JValue) : JValue :=
  match p with
  | [] => f v
  | k :: p' =>
      match v with
      | JObj a ps => JObj a (alter k (update p' f) ps)
      | _ => v
      end
  end.

(** Two paths diverge when they part at some key: neither leads into the
    value the other one names. *)
Fixpoint diverge (p q : Path) : bool :=
  match p, q with
  | a :: p', b :: q' => if String.eqb a b then diverge p' q' else true
  | _, _ => false
  end.

(** Splitting of a dotted path such as ["gateway.admin.filter"]. *)
Fixpoint split_dots (acc : string) (s : string) : Path :=
  match s with
  | EmptyString => [acc]
  | String c r =>
      if Ascii.eqb c "."%char then acc :: split_dots "" r
      else split_dots (acc ++ String c "") r
  end.

Definition toPath (s : string) : Path := split_dots "" s.

(* ===================================================================== *)
(** ** Strings *)
(* ===================================================================== *)

Definition startsWith (s target : string) : bool := String.prefix target s.

Definition endsWith (s target : string) : bool :=
  let n := String.length s in
  let m := String.length target in
  (m <=? n)%nat && String.eqb (String.substring (n - m) m s) target.

Definition lower_char (c : ascii) : ascii :=
  let n := nat_of_ascii c in
  if ((65 <=? n) && (n <=? 90))%nat then ascii_of_nat (n + 32) else c.

Fixpoint toLowerCase (s : string) : string :=
  match s with
  | EmptyString => EmptyString
  | String c r => String (lower_char c) (toLowerCase r)
  end.

Definition is_space (c : ascii) : bool :=
  let n := nat_of_ascii c in
  ((n =? 32) || ((9 <=? n) && (n <=? 13)))%nat.

Fixpoint drop_spaces (l : list ascii) : list ascii :=
  match l with
  | [] => []
  | c :: r => if is_space c then drop_spaces r else l
  end.

(** [_.trim(s)], on the ASCII white space: what [_.trim] gives for a
    string of ASCII characters.  (On other strings [_.trim] also takes off
    the white space that Unicode adds; the results that speak of [trim] are
    stated for ASCII strings.) *)
Definition trim (s : string) : string :=
  string_of_list_ascii
    (rev (drop_spaces (rev (drop_spaces (list_ascii_of_string s))))).

(** [s.lastIndexOf('.')], [None] standing for -1. *)
Fixpoint lastIndexOfDot (s : string) : option nat :=
  match s with
  | EmptyString => None
  | String c r =>
      match lastIndexOfDot r with
      | Some i => Some (S i)
      | None => if Ascii.eqb c "."%char then Some 0%nat else None
      end
  end.

(** [_.startsWith(v, '.')] on any value: lodash first turns the value into a
    string, an array into the comma-joined strings of its elements. *)
Fixpoint startsWithDot (v : JValue) : bool :=
  match v with
  | JStr s => startsWith s "."
  | JObj true ps =>
      (fix first (l : Props) : bool :=
         match l with
         | [] => false
         | (k, x) :: r => if String.eqb k "0" then startsWithDot x else first r
         end) ps
  | _ => false
  end.

Definition digit_of (c : ascii) : option Z :=
  let n := nat_of_ascii c in
  if ((48 <=? n) && (n <=? 57))%nat then Some (Z.of_nat (n - 48)) else None.

Fixpoint read_digits (acc : option Z) (l : list ascii) : option Z :=
  match l with
  | [] => acc
  | c :: r =>
      match digit_of c with
      | Some d =>
          read_digits (Some (10 * match acc with Some a => a | None => 0 end + d)%Z) r
      | None => acc
      end
  end.

(** [parseInt(s, 10)], as an exact integer: what [parseInt] gives for a
    string of ASCII characters as long as the number is below 2^53, where a
    JavaScript number holds it exactly.  (Above, JavaScript rounds; the
    results that speak of the value are stated for short runs of
    digits.) *)
Definition parseInt (s : string) : JValue :=
  let l := drop_spaces (list_ascii_of_string s) in
  let signed (neg : bool) (r : list ascii) :=
    match read_digits None r with
    | Some n => JNum (if neg then (- n)%Z else n)
    | None => JNaN
    end in
  match l with
  | c :: r =>
      if Ascii.eqb c "-"%char then signed true r
      else if Ascii.eqb c "+"%char then signed false r
      else signed false l
  | [] => JNaN
  end.

(* ===================================================================== *)
(** ** The lodash functions the class calls *)
(* ===================================================================== *)

(** [Object(v)] as [_.defaults] takes its first argument: an object is
    itself, [null] becomes a new empty object.  (The wrapper object of a
    primitive has no property of interest here either.) *)
Definition to_object (v : JValue) : JValue :=
  match v with
  | JObj _ _ => v
  | _ => JObj false []
  end.

(** [_.defaults(v, {k: d})]: the property is set when it resolves to
    [undefined]. *)
Definition defaults (v : JValue) (k : string) (d : JValue) : JValue :=
  match to_object v with
  | JObj a ps =>
      match lookup k ps with
      | Some _ => JObj a ps
      | None => JObj a (assign k d ps)
      end
  | o => o
  end.

(** What [object[key]] finds without [object] owning [key] as a property
    of its own that can be enumerated: the members of [Object.prototype],
    and for an array its [length] and the members of [Array.prototype], as
    ECMAScript 2015 lists them.  ([constructor] and [__proto__] are read
    here like the others, as lodash 4 did at first; its later versions
    guard these two, and no result below speaks of them.) *)
Definition object_members : list string :=
  ["constructor"; "hasOwnProperty"; "isPrototypeOf"; "propertyIsEnumerable";
   "toLocaleString"; "toString"; "valueOf"; "__proto__";
   "__defineGetter__"; "__defineSetter__"; "__lookupGetter__";
   "__lookupSetter__"].

Definition array_members : list string :=
  ["length"; "concat"; "copyWithin"; "entries"; "every"; "fill"; "filter";
   "find"; "findIndex"; "forEach"; "indexOf"; "join"; "keys";
   "lastIndexOf"; "map"; "pop"; "push"; "reduce"; "reduceRight"; "reverse";
   "shift"; "slice"; "some"; "sort"; "splice"; "unshift"; "values"].

Definition inherited (isArray : bool) (k : string) : bool :=
  existsb (String.eqb k) object_members
  || (isArray && existsb (String.eqb k) array_members).

(** [_.defaultsDeep(object, source)], for an [object] that is an object or
    an array: every property of [object] stays, [null] included; a
    property of [source] is copied when [object[key]] is [undefined], that
    is when [object] neither owns the key nor inherits it; where both hold
    an object (or array) the two are merged in the same way.  An object
    that is copied is not taken as it is: it is merged into a new empty
    object, or array, and so loses in turn the keys that an empty object
    inherits.  A [source] that is [null] or [undefined] gives nothing.  (A
    primitive [object], which lodash wraps into an object first, and a
    primitive [source] are not followed: the results that speak of the
    merge are stated for objects.) *)
Fixpoint defaultsDeep (object source : JValue) {struct source} : JValue :=
  match source with
  | JObj _ src =>
      match object with
      | JObj a own =>
          JObj a
            (map (fun kv : string * JValue =>
                    (fst kv,
                     (fix from_source (l : Props) : JValue :=
                        match l with
                        | [] => snd kv
                        | (k', srcValue) :: r =>
                            if String.eqb (fst kv) k'
                            then defaultsDeep (snd kv) srcValue
                            else from_source r
                        end) src)) own
             ++ (fix copy (l : Props) : Props :=
                   match l with
                   | [] => []
                   | (k, srcValue) :: r =>
                       match lookup k own with
                       | Some _ => copy r
                       | None =>
                           if inherited a k then copy r
                           else
                             (k, match srcValue with
                                 | JObj b _ => defaultsDeep (JObj b []) srcValue
                                 | _ => srcValue
                                 end) :: copy r
                       end
                   end) src)
      | _ => object
      end
  | _ => object
  end.

(** What a value becomes when [_.defaultsDeep] copies it. *)
Definition clone (v : JValue) : JValue :=
  match v with
  | JObj b _ => defaultsDeep (JObj b []) v
  | _ => v
  end.

(** The elements of an array: what it holds at the indices 0, 1, ... *)
Fixpoint elements_from (n : nat) (fuel : nat) (ps : Props) : list JValue :=
  match fuel with
  | O => []
  | S fuel' =>
      match lookup (index_key n) ps with
      | Some x => x :: elements_from (S n) fuel' ps
      | None => []
      end
  end.

Definition elements (ps : Props) : list JValue :=
  elements_from 0 (List.length ps) ps.

(** [_.deepMapValues(v, callback)] of lodash-deep: the callback is applied
    to every leaf, whatever its type.  An object is rebuilt around the
    results with the keys it has; an array is rebuilt with [_.map], as the
    array of the results for its elements, so that a property of an array
    that is not one of its elements is lost. *)
Fixpoint deepMapValues (callback : JValue -> JValue) (v : JValue) : JValue :=
  match v with
  | JObj a ps =>
      let mapped :=
        map (fun kv : string * JValue =>
               (fst kv, deepMapValues callback (snd kv))) ps in
      if a then JArr (elements mapped) else JObj false mapped
  | _ => callback v
  end.

(* ===================================================================== *)
(** ** Paths of the file system *)
(* ===================================================================== *)

(** Node's [path.join] and [path.dirname] belong to the platform and are
    taken as given (see [Externals]).  What follows is their POSIX
    behaviour, with which the general results are run on examples. *)
Module Posix.

Fixpoint split_slash (acc : string) (s : string) : list string :=
  match s with
  | EmptyString => [acc]
  | String c r =>
      if Ascii.eqb c "/"%char then acc :: split_slash "" r
      else split_slash (acc ++ String c "") r
  end.

(** The segments kept so far are held last first. *)
Fixpoint resolve_segments (allowAboveRoot : bool) (kept : list string)
    (segs : list string) : list string :=
  match segs with
  | [] => rev kept
  | seg :: r =>
      if String.eqb seg "" || String.eqb seg "." then
        resolve_segments allowAboveRoot kept r
      else if String.eqb seg ".." then
        match kept with
        | last :: kept' =>
            if String.eqb last ".."
            then resolve_segments allowAboveRoot (".." :: kept) r
            else resolve_segments allowAboveRoot kept' r
        | [] =>
            if allowAboveRoot
            then resolve_segments allowAboveRoot [".."] r
            else resolve_segments allowAboveRoot [] r
        end
      else resolve_segments allowAboveRoot (seg :: kept) r
  end.

Fixpoint join_slash (l : list string) : string :=
  match l with
  | [] => ""
  | [x] => x
  | x :: r => x ++ "/" ++ join_slash r
  end.

Definition normalize (p : string) : string :=
  if String.eqb p "" then "."
  else
    let isAbsolute := startsWith p "/" in
    let trailing := endsWith p "/" in
    let body :=
      join_slash (resolve_segments (negb isAbsolute) [] (split_slash "" p)) in
    let body :=
      if String.eqb body "" then (if isAbsolute then "" else ".") else body in
    let body :=
      if negb (String.eqb body "") && trailing then body ++ "/" else body in
    if isAbsolute then "/" ++ body else body.

Definition join (a b : string) : string :=
  if String.eqb a "" then normalize b
  else if String.eqb b "" then normalize a
  else normalize (a ++ "/" ++ b).

Fixpoint drop_slashes (l : list ascii) : list ascii :=
  match l with
  | [] => []
  | c :: r => if Ascii.eqb c "/"%char then drop_slashes r else l
  end.

Fixpoint drop_name (l : list ascii) : list ascii :=
  match l with
  | [] => []
  | c :: r => if Ascii.eqb c "/"%char then l else drop_name r
  end.

Definition dirname (p : string) : string :=
  match list_ascii_of_string p with
  | [] => "."
  | c0 :: tl =>
      let hasRoot := Ascii.eqb c0 "/"%char in
      match drop_name (drop_slashes (rev tl)) with
      | [] => if hasRoot then "/" else "."
      | _ :: before =>
          match before with
          | [] => if hasRoot then "//" else String c0 ""
          | _ => string_of_list_ascii (c0 :: rev before)
          end
      end
  end.

End Posix.

(* ===================================================================== *)
(** ** Failures, files, answers, events *)
(* ===================================================================== *)

Inductive Error : Type :=
| JsError (message : string)      (* [throw new Error(message)] *)
| TypeError                       (* raised by the runtime *)
| ParseError                      (* a file that does not parse *)
| ValidationError (message : string)
| StoreError
| BootstrapInputError.

Inductive Result (A : Type) : Type :=
| Ok (a : A)
| Throw (e : Error).
Arguments Ok {A} a.
Arguments Throw {A} e.

(** A file is known by what its parser gives. *)
Inductive File : Type :=
| Parsed (content : JValue)
| Malformed.

(** The answers of [askRedisOptions]; inquirer gives strings. *)
Record Answers : Type := {
  connectionType : string;
  host : string;
  port : string;
  db : string;
  password : string
}.

Inductive Event : Type :=
| LoadEvent                         (* ['load'], carrying the instance *)
| ErrorEvent (err : Error)          (* ['error'] *)
| GatewayUpdate (gateway : option JValue).  (* ['gateway-update'] *)

Inductive Effect : Type :=
| Emit (ev : Event)
| Prompt
| WriteFile (path : string) (content : JValue)
| FlushDb
| StoreSave (gateway : JValue)
| RegisterGatewayVersion.

(* ===================================================================== *)
(** ** The world in which an instance runs *)
(* ===================================================================== *)

(** The two private fields of the class; [config = None] is an absent
    ([undefined] or [null]) configuration. *)
Record Instance : Type := {
  config : option JValue;
  isLoaded : bool
}.

(** What a run reads and never writes: the static fields of the class, the
    process, the user at the prompt, the generator of identifiers, and
    whether some consumer listens for ['error']. *)
Record Settings : Type := {
  gatewayConfigFile : option string;
  resetBeforeStart : bool;
  cwd : string;
  NODE_ENV : option string;
  answers : Result Answers;
  writable : bool;
  errorListener : bool;               (* is an ['error'] listener attached? *)
  uuid : nat -> string
}.

(** The store behind [GatewayService]. *)
Record Store : Type := {
  online : bool;
  savedGateway : option JValue;
  gatewayVersions : nat
}.

Record World : Type := {
  this : Instance;
  settings : Settings;
  files : list (string * File);
  store : Store;
  uuidCalls : nat;
  effects : list Effect;            (* in the order they happened *)
  trace : list Instance             (* the instance at each suspension *)
}.

Definition with_this (i : Instance) (w : World) : World :=
  {| this := i; settings := settings w; files := files w; store := store w;
     uuidCalls := uuidCalls w; effects := effects w; trace := trace w |}.

Definition with_files (fs : list (string * File)) (w : World) : World :=
  {| this := this w; settings := settings w; files := fs; store := store w;
     uuidCalls := uuidCalls w; effects := effects w; trace := trace w |}.

Definition with_store (s : Store) (w : World) : World :=
  {| this := this w; settings := settings w; files := files w; store := s;
     uuidCalls := uuidCalls w; effects := effects w; trace := trace w |}.

Definition with_uuidCalls (n : nat) (w : World) : World :=
  {| this := this w; settings := settings w; files := files w; store := store w;
     uuidCalls := n; effects := effects w; trace := trace w |}.

Definition log_effect (e : Effect) (w : World) : World :=
  {| this := this w; settings := settings w; files := files w; store := store w;
     uuidCalls := uuidCalls w; effects := (effects w ++ [e])%list; trace := trace w |}.

(** The instance as a reader sees it while the running method is
    suspended. *)
Definition suspend (w : World) : World :=
  {| this := this w; settings := settings w; files := files w; store := store w;
     uuidCalls := uuidCalls w; effects := effects w;
     trace := (trace w ++ [this w])%list |}.

(** A computation: it ends with a value or a failure, and leaves a world
    either way. *)
Definition M (A : Type) : Type := World -> Result A * World.

Definition ret {A} (a : A) : M A := fun w => (Ok a, w).

Definition throw {A} (e : Error) : M A := fun w => (Throw e, w).

Definition bind {A B} (m : M A) (k : A -> M B) : M B :=
  fun w =>
    match m w with
    | (Ok a, w') => k a w'
    | (Throw e, w') => (Throw e, w')
    end.

Notation "x <- m ;; k" := (bind m (fun x => k))
  (at level 61, m at next level, right associativity).
Notation "m ;;; k" := (bind m (fun _ => k))
  (at level 61, right associativity).

(** [await m]: [m] runs to its end, then the caller is suspended once
    before it goes on with the value or the failure. *)
Definition await {A} (m : M A) : M A :=
  fun w => let (r, w') := m w in (r, suspend w').

(** [try { body } catch (err) { handler }]. *)
Definition try_catch {A} (body : M A) (handler : Error -> M A) : M A :=
  fun w =>
    match body w with
    | (Ok a, w') => (Ok a, w')
    | (Throw e, w') => handler e w'
    end.

Definition lift {A} (r : Result A) : M A := fun w => (r, w).

Definition read {A} (f : World -> A) : M A := fun w => (Ok (f w), w).

Definition change (f : World -> World) : M unit := fun w => (Ok tt, f w).

(** [this.emit(name, payload)].  The listeners are the consumers' and are
    taken to return; an ['error'] that nobody listens for is thrown back by
    the emitter, as Node's [EventEmitter] does. *)
Definition emit (ev : Event) : M unit :=
  fun w =>
    match ev with
    | ErrorEvent err =>
        if errorListener (settings w)
        then (Ok tt, log_effect (Emit ev) w)
        else (Throw err, log_effect (Emit ev) w)
    | _ => (Ok tt, log_effect (Emit ev) w)
    end.

Definition and_then {A B} (r : Result A) (k : A -> Result B) : Result B :=
  match r with
  | Ok a => k a
  | Throw e => Throw e
  end.

(* ===================================================================== *)
(** ** What the class takes from elsewhere *)
(* ===================================================================== *)

(** The platform's path functions, the two Joi validators of
    [./config/gateway], [checkEnvVariable] of [./utils/env] and the two
    packaged templates are not part of the file; every result below holds
    for whatever they are. *)
Class Externals : Type := {
  path_join : string -> string -> string;
  path_dirname : string -> string;
  validateServerConfig : JValue -> Result JValue;
  validateGatewayConfig : JValue -> Result unit;
  checkEnvVariable : JValue -> JValue;
  serverDefaultTemplate : JValue;     (* tree-gateway-server-default.yaml *)
  gatewayDefaultTemplate : JValue     (* tree-gateway-default.yaml *)
}.

(** [if (process.env.NODE_ENV)]. *)
Definition env_name (s : Settings) : option string :=
  match NODE_ENV s with
  | Some e => if String.eqb e "" then None else Some e
  | None => None
  end.

Fixpoint find_file (name : string) (fs : list (string * File)) : option File :=
  match fs with
  | [] => None
  | (n, f) :: r => if String.eqb name n then Some f else find_file name r
  end.

Definition existsSync (name : string) (w : World) : bool :=
  match find_file name (files w) with
  | Some _ => true
  | None => false
  end.

(** [YAML.load(name)] and [fs.readJSONSync(name)] of a file that exists. *)
Definition parse_file (name : string) : M JValue :=
  fun w =>
    match find_file name (files w) with
    | Some (Parsed v) => (Ok v, w)
    | _ => (Throw ParseError, w)
    end.

(** [fs.writeFile(path, YAML.stringify(content, 15))].  The [writeFile] of
    [fs-extra-promise] is the one that takes a callback, and it is called
    without one: the call returns at once and what the caller awaits is not
    the write.  Where the file can be written it is, and then parses to
    [content]; where it cannot, the failure is reported to nobody. *)
Definition writeFile (path : string) (content : JValue) : M unit :=
  fun w =>
    if writable (settings w)
    then (Ok tt, log_effect (WriteFile path content)
                   (with_files ((path, Parsed content) :: files w) w))
    else (Ok tt, w).

(** [inquirer.prompt([...])]. *)
Definition askRedisOptions : M Answers :=
  fun w => (answers (settings w), log_effect Prompt w).

(** [uuid()]. *)
Definition new_uuid : M string :=
  fun w => (Ok (uuid (settings w) (uuidCalls w)),
            with_uuidCalls (S (uuidCalls w)) w).

(** Modelled from the spec: [GatewayService.get] of [./service/gateway] is
    not in the file.  The store keeps the current gateway configuration,
    absent if it was never saved; a call fails when the store cannot be
    reached. *)
Definition gatewayService_get : M JValue :=
  fun w =>
    if online (store w) then (Ok (or_null (savedGateway (store w))), w)
    else (Throw StoreError, w).

(** Modelled from the spec: [GatewayService.save] is not in the file.  The
    value becomes the current gateway configuration of the store. *)
Definition gatewayService_save (g : JValue) : M unit :=
  fun w =>
    if online (store w)
    then (Ok tt,
          log_effect (StoreSave g)
            (with_store {| online := true; savedGateway := Some g;
                           gatewayVersions := gatewayVersions (store w) |} w))
    else (Throw StoreError, w).

(** Modelled from the spec: [GatewayService.registerGatewayVersion] is not
    in the file.  A version marker is registered for the configuration just
    saved. *)
Definition gatewayService_registerGatewayVersion : M unit :=
  fun w =>
    if online (store w)
    then (Ok tt,
          log_effect RegisterGatewayVersion
            (with_store {| online := true;
                           savedGateway := savedGateway (store w);
                           gatewayVersions := S (gatewayVersions (store w)) |} w))
    else (Throw StoreError, w).

(** Modelled from the spec: [Database] of [./database] is not in the file.
    [redisClient.flushdb()] empties the store. *)
Definition flushdb : M unit :=
  fun w =>
    if online (store w)
    then (Ok tt,
          log_effect FlushDb
            (with_store {| online := true; savedGateway := None;
                           gatewayVersions := 0 |} w))
    else (Throw StoreError, w).

(** [this.config], which must not be absent where it is dereferenced. *)
Definition deref (c : option JValue) : Result JValue :=
  match c with
  | Some JNull => Throw TypeError
  | Some v => Ok v
  | None => Throw TypeError
  end.

Definition this_config : M JValue :=
  fun w => (deref (config (this w)), w).

Definition set_config (c : option JValue) : M unit :=
  change (fun w => with_this {| config := c; isLoaded := isLoaded (this w) |} w).

Definition set_isLoaded (b : bool) : M unit :=
  change (fun w => with_this {| config := config (this w); isLoaded := b |} w).

(** A mutation of the object that [this.config] refers to. *)
Definition mutate_config (f : JValue -> JValue) : M unit :=
  c <- this_config ;; set_config (Some (f c)).

(** A mutation of the object that [this.config] refers to which may
    raise: the object keeps what was done to it before. *)
Definition mutate_config_by (m : JValue -> Result unit * JValue) : M unit :=
  c <- this_config ;;
  set_config (Some (snd (m c))) ;;;
  lift (fst (m c)).

(** Modelled from the spec: [castArray] of [./utils/config] is not in the
    file.  If the value at the path exists and is not already a sequence, it
    is replaced with a single-element sequence containing that value; if it
    is already a sequence or the path does not exist, nothing is done. *)
Definition castArray (config : JValue) (property : string) : JValue :=
  match get (toPath property) config with
  | Some value =>
      if is_array value then config
      else update (toPath property) (fun _ => JArr [value]) config
  | None => config
  end.

(* ===================================================================== *)
(** ** The class [Configuration] *)
(* ===================================================================== *)

Definition not_loaded_message : string :=
  "Configuration not loaded. Only access configurations after the Configuration 'load' event is fired.".

Definition protocol_required_message : string :=
  "GatewayConfig protocol is required.".

Section Configuration.

Context `{Externals}.

(** [path.join(a, b)], which refuses an argument that is not a string. *)
Definition join_values (a b : JValue) : Result string :=
  match a, b with
  | JStr x, JStr y => Ok (path_join x y)
  | _, _ => Throw TypeError
  end.

(** [ensureLoaded] *)
Definition ensureLoaded (i : Instance) : Result unit :=
  if negb (isLoaded i) then Throw (JsError not_loaded_message) else Ok tt.

(** The getters. [None] is [undefined]. *)
Definition gateway (i : Instance) : Result (option JValue) :=
  and_then (ensureLoaded i) (fun _ =>
  and_then (deref (config i)) (fun c => Ok (field "gateway" c))).

Definition rootPath (i : Instance) : Result (option JValue) :=
  and_then (deref (config i)) (fun c => Ok (field "rootPath" c)).

Definition middlewarePath (i : Instance) : Result (option JValue) :=
  and_then (deref (config i)) (fun c => Ok (field "middlewarePath" c)).

Definition database (i : Instance) : Result (option JValue) :=
  and_then (deref (config i)) (fun c => Ok (field "database" c)).

Definition loaded (i : Instance) : bool := isLoaded i.

(** [loadConfigObject] *)
Definition loadConfigObject (fileName : string) : M JValue :=
  yml <- read (existsSync (fileName ++ ".yml")) ;;
  if yml then parse_file (fileName ++ ".yml")
  else
    yaml <- read (existsSync (fileName ++ ".yaml")) ;;
    if yaml then parse_file (fileName ++ ".yaml")
    else
      json <- read (existsSync (fileName ++ ".json")) ;;
      if json then parse_file (fileName ++ ".json")
      else ret JNull.

(** [removeExtension] *)
Definition removeExtension (fileName : string) : string :=
  let lowerFileName := toLowerCase fileName in
  if endsWith lowerFileName ".yaml" || endsWith lowerFileName ".yml"
     || endsWith lowerFileName ".json"
  then
    match lastIndexOfDot fileName with
    | Some i => String.substring 0 i fileName
    | None => ""
    end
  else fileName.

(** [createRedisConfiguration]: the changed [config]. *)
Definition createRedisConfiguration (config : JValue) (a : Answers)
  : Result JValue :=
  let endpoint :=
    JRec [("host", JStr (host a)); ("port", parseInt (port a))] in
  let redis :=
    if String.eqb (connectionType a) "standalone"
    then JRec [("standalone", endpoint)]
    else JRec [("cluster", JArr [endpoint])] in
  let redis :=
    if truthy (JStr (db a)) || truthy (JStr (password a)) then
      let options := JRec [] in
      let options :=
        if truthy (JStr (db a))
        then assign_field "db" (parseInt (db a)) options else options in
      let options :=
        if truthy (JStr (password a))
        then assign_field "password" (JStr (password a)) options
        else options in
      assign_field "options" options redis
    else redis in
  match field "database" config with
  | Some (JObj arr ps) =>
      Ok (assign_field "database" (JObj arr (assign "redis" redis ps)) config)
  | _ => Throw TypeError
  end.

(** [path.join(process.cwd(), 'tree-gateway.yaml')], where the Bootstrap
    Provider writes. *)
Definition bootstrapFilePath (dir : string) : string :=
  path_join dir "tree-gateway.yaml".

(** [loadDefaultServerConfig] *)
Definition loadDefaultServerConfig : M JValue :=
  dir <- read (fun w => cwd (settings w)) ;;
  let filePath := bootstrapFilePath dir in
  let config := serverDefaultTemplate in
  answers <- await askRedisOptions ;;
  config <- lift (createRedisConfiguration config answers) ;;
  await (writeFile filePath config) ;;;
  ret config.

(** [loadServerConfig] *)
Definition loadServerConfig (configFileName : string) : M JValue :=
  config <- loadConfigObject configFileName ;;
  env <- read (fun w => env_name (settings w)) ;;
  config <-
    match env with
    | Some name =>
        let envConfigFileName := configFileName ++ "-" ++ name in
        envConfig <- loadConfigObject envConfigFileName ;;
        if truthy envConfig then ret (defaultsDeep envConfig config)
        else ret config
    | None => ret config
    end ;;
  if negb (truthy config) then await loadDefaultServerConfig
  else ret config.

(** [loadDefaultGatewayConfig] *)
Definition loadDefaultGatewayConfig : M JValue :=
  let gateway := gatewayDefaultTemplate in
  match get ["admin"; "userService"] gateway with
  | Some (JObj _ _) =>
      secret <- new_uuid ;;
      ret (update ["admin"; "userService"]
             (assign_field "jwtSecret" (JStr secret)) gateway)
  | _ => throw TypeError
  end.

(** [_.has(server, path)] for a dotted path: when [server] has a key that
    is the whole path, dots included, lodash takes the path for that key;
    otherwise it follows the path key by key. *)
Definition has_path (server : JValue) (path : string) : bool :=
  match field path server with
  | Some _ => true
  | None => has server (toPath path)
  end.

(** [v.k], where [v] is what a property read has given: [undefined] and
    [null] have no properties to read, any other value that does not hold
    [k] gives [undefined]. *)
Definition property (k : string) (v : option JValue)
  : Result (option JValue) :=
  match v with
  | None | Some JNull => Throw TypeError
  | Some x => Ok (field k x)
  end.

(** [server.gateway.config.<name>] *)
Definition gateway_config (name : string) (server : JValue)
  : Result (option JValue) :=
  and_then (property "gateway" (Some server)) (fun gateway =>
  and_then (property "config" gateway) (fun config =>
  property name config)).

(** [castArrays]: how it ends, and the configuration as it leaves it. *)
Definition castArrays (server : JValue) : Result unit * JValue :=
  let server := castArray server "database.redis.cluster" in
  let server := castArray server "database.redis.sentinel.nodes" in
  let server := castArray server "gateway.filter" in
  let server := castArray server "gateway.admin.filter" in
  let server := castArray server "gateway.serviceDiscovery.provider" in
  let server := castArray server "gateway.logger.console.stderrLevels" in
  let server := castArray server "gateway.accessLogger.console.stderrLevels" in
  let cached : Result unit * JValue :=
    if has_path server "gateway.config.cache" then
      match gateway_config "cache" server with
      | Ok cache =>
          (Ok tt,
           fold_left
             (fun server cacheKey =>
                update ["gateway"; "config"; "cache"; cacheKey]
                  (fun entry => castArray entry "server.preserveHeaders") server)
             (keys (or_null cache)) server)
      | Throw e => (Throw e, server)
      end
    else (Ok tt, server) in
  match cached with
  | (Ok _, server) =>
      if has_path server "gateway.config.cors" then
        match gateway_config "cors" server with
        | Ok cors =>
            (Ok tt,
             fold_left
               (fun server corsKey =>
                  update ["gateway"; "config"; "cors"; corsKey]
                    (fun entry =>
                       let entry := castArray entry "allowedHeaders" in
                       let entry := castArray entry "exposedHeaders" in
                       castArray entry "methods") server)
               (keys (or_null cors)) server)
        | Throw e => (Throw e, server)
        end
      else (Ok tt, server)
  | (Throw e, server) => (Throw e, server)
  end.

(** [getConfigFromDB] *)
Definition getConfigFromDB : M unit :=
  gatewayConfig <- await gatewayService_get ;;
  config <- this_config ;;
  if truthy gatewayConfig then
    let merged :=
      defaultsDeep gatewayConfig (or_null (field "gateway" config)) in
    mutate_config (assign_field "gateway" merged) ;;;
    await (lift (validateGatewayConfig merged)) ;;;
    config <- this_config ;;
    if negb (truthy (or_null
               (field "protocol" (or_null (field "gateway" config)))))
    then throw (JsError protocol_required_message)
    else ret tt
  else if negb (truthy (or_null (field "gateway" config))) then
    gateway <- loadDefaultGatewayConfig ;;
    mutate_config (assign_field "gateway" gateway) ;;;
    await (gatewayService_save gateway) ;;;
    await gatewayService_registerGatewayVersion
  else ret tt.

(** [loadDatabaseConfig]: the body runs from a timer. *)
Definition loadDatabaseConfig : M unit :=
  change suspend ;;;
  reset <- read (fun w => resetBeforeStart (settings w)) ;;
  if reset then await flushdb ;;; getConfigFromDB
  else getConfigFromDB.

(** Lines 123 to 128 of [loadGatewayConfig]: the name under which the
    files are looked for. *)
Definition configFileNameOf (dir serverConfigFile : string) : string :=
  let configFileName := removeExtension (trim serverConfigFile) in
  if startsWith configFileName "." then path_join dir configFileName
  else configFileName.

(** Lines 132 to 146 of [loadGatewayConfig]: the defaults of [rootPath]
    and [middlewarePath]. *)
Definition defaultPaths (configFileName : string) (serverConfig : JValue)
  : Result JValue :=
  let serverConfig :=
    defaults serverConfig "rootPath" (JStr (path_dirname configFileName)) in
  and_then
    (if startsWithDot (or_null (field "rootPath" serverConfig)) then
       and_then
         (join_values (JStr (path_dirname configFileName))
            (or_null (field "rootPath" serverConfig)))
         (fun p => Ok (assign_field "rootPath" (JStr p) serverConfig))
     else Ok serverConfig)
    (fun serverConfig =>
  and_then
    (join_values (or_null (field "rootPath" serverConfig)) (JStr "middleware"))
    (fun d =>
  let serverConfig := defaults serverConfig "middlewarePath" (JStr d) in
  if startsWithDot (or_null (field "middlewarePath" serverConfig)) then
    and_then
      (join_values (or_null (field "rootPath" serverConfig))
         (or_null (field "middlewarePath" serverConfig)))
      (fun p => Ok (assign_field "middlewarePath" (JStr p) serverConfig))
  else Ok serverConfig)).

(** Lines 159 to 166 of [loadGatewayConfig], for [privateKey] and for
    [certificate]. *)
Definition resolveHttpsPath (key : string) : M unit :=
  config <- this_config ;;
  let https := or_null (get ["gateway"; "protocol"; "https"] config) in
  if startsWithDot (or_null (field key https)) then
    p <- lift (join_values (or_null (field "rootPath" config))
                 (or_null (field key https))) ;;
    mutate_config
      (update ["gateway"; "protocol"; "https"] (assign_field key (JStr p)))
  else ret tt.

(** Lines 157 to 168 of [loadGatewayConfig]. *)
Definition resolveHttpsPaths : M unit :=
  config <- this_config ;;
  let gateway := or_null (field "gateway" config) in
  if truthy gateway && truthy (or_null (field "protocol" gateway)) then
    if truthy (or_null (get ["gateway"; "protocol"; "https"] config)) then
      resolveHttpsPath "privateKey" ;;;
      resolveHttpsPath "certificate"
    else ret tt
  else ret tt.

(** [loadGatewayConfig].  The call of [loadContainerConfigurations], which
    only binds the services of the container, leaves nothing to model. *)
Definition loadGatewayConfig (serverConfigFile : string) : M unit :=
  dir <- read (fun w => cwd (settings w)) ;;
  let configFileName := configFileNameOf dir serverConfigFile in
  config <- await (loadServerConfig configFileName) ;;
  serverConfig <- await (lift (validateServerConfig config)) ;;
  serverConfig <- lift (defaultPaths configFileName serverConfig) ;;
  let serverConfig := deepMapValues checkEnvVariable serverConfig in
  set_config (Some serverConfig) ;;;
  mutate_config_by castArrays ;;;
  await loadDatabaseConfig ;;;
  resolveHttpsPaths.

(** [Configuration.gatewayConfigFile || path.join(process.cwd(),
    'tree-gateway.json')] *)
Definition gatewayConfigFileOrDefault (s : Settings) : string :=
  match gatewayConfigFile s with
  | Some f => if String.eqb f "" then path_join (cwd s) "tree-gateway.json"
              else f
  | None => path_join (cwd s) "tree-gateway.json"
  end.

(** [load] *)
Definition load : M unit :=
  isLoaded <- read (fun w => isLoaded (this w)) ;;
  if negb isLoaded then
    try_catch
      (file <- read (fun w => gatewayConfigFileOrDefault (settings w)) ;;
       await (loadGatewayConfig file) ;;;
       set_isLoaded true ;;;
       emit LoadEvent)
      (fun err =>
         set_isLoaded false ;;;
         emit (ErrorEvent err))
  else ret tt.

(** [reload] *)
Definition reload : M unit :=
  set_config None ;;;
  file <- read (fun w => gatewayConfigFileOrDefault (settings w)) ;;
  await (loadGatewayConfig file) ;;;
  this_gateway <- (fun w => (gateway (this w), w)) ;;
  emit (GatewayUpdate this_gateway).

(** The order of the stages as the specification words it, to be
    compared with [loadGatewayConfig]: Format Loader, Environment Overlay,
    Variable Interpolator, Path Defaulter (with the paths of the TLS key
    and certificate), Array Normalizer, Store Overlay. *)
Definition resolveInSpecOrder (serverConfigFile : string) : M unit :=
  dir <- read (fun w => cwd (settings w)) ;;
  let configFileName := configFileNameOf dir serverConfigFile in
  config <- await (loadServerConfig configFileName) ;;
  serverConfig <- await (lift (validateServerConfig config)) ;;
  let serverConfig := deepMapValues checkEnvVariable serverConfig in
  serverConfig <- lift (defaultPaths configFileName serverConfig) ;;
  set_config (Some serverConfig) ;;;
  resolveHttpsPaths ;;;
  mutate_config_by castArrays ;;;
  await loadDatabaseConfig.

End Configuration.

(* ===================================================================== *)
(** ** The validator of the prompt, and notions for the statements *)
(* ===================================================================== *)

(** Whether the properties are the elements of an array and nothing else:
    the keys are the indices, in their order. *)
Fixpoint indexed_from (n : nat) (ps : Props) : bool :=
  match ps with
  | [] => true
  | (k, _) :: r => String.eqb k (index_key n) && indexed_from (S n) r
  end.

(** A value as the parsers of JSON and YAML give it: every array in it
    holds its elements and nothing else. *)
Fixpoint proper (v : JValue) : bool :=
  match v with
  | JObj a ps =>
      (if a then indexed_from 0 ps else true)
      && forallb (fun kv => proper (snd kv)) ps
  | _ => true
  end.

(** Whether the document that a resolution has validated, if it comes
    that far, is an array. *)
Definition document_is_array `{Externals} (file : string) (w : World) : bool :=
  match loadServerConfig (configFileNameOf (cwd (settings w)) file) w with
  | (Ok raw, _) =>
      match validateServerConfig raw with
      | Ok validated => is_array validated
      | Throw _ => false
      end
  | (Throw _, _) => false
  end.

(** The [validate] function of the prompts for the port and for the
    database number (lines 302 to 305 and 311 to 314):
    [val === '' || val.match(/^[0-9]+$/) !== null], and the message when
    that does not hold. *)
Fixpoint all_digits (s : string) : bool :=
  match s with
  | EmptyString => true
  | String c r =>
      match digit_of c with
      | Some _ => all_digits r
      | None => false
      end
  end.

Definition validate (val : string) : JValue :=
  let valid :=
    String.eqb val "" || (negb (String.eqb val "") && all_digits val) in
  if valid then JBool true else JStr "Please enter a number".

(** The three endings that [removeExtension] takes off, in whatever letter
    case they are written. *)
Definition is_config_extension (ext : string) : bool :=
  existsb (String.eqb (toLowerCase ext)) [".yaml"; ".yml"; ".json"].

(** What the parser makes of a file that exists. *)
Definition parsed (f : File) : Result JValue :=
  match f with
  | Parsed v => Ok v
  | Malformed => Throw ParseError
  end.

(** The notification that a [load] sends for an outcome of the
    resolution. *)
Definition load_event (r : Result unit) : Event :=
  match r with
  | Ok _ => LoadEvent
  | Throw e => ErrorEvent e
  end.

(** What the resolution makes of a TLS path: a string that starts with a
    dot is joined to the root path, anything else stays. *)
Definition resolved_path `{Externals} (root : string) (o : option JValue)
  : option JValue :=
  match o with
  | Some (JStr s) => if startsWith s "." then Some (JStr (path_join root s)) else o
  | _ => o
  end.

Definition is_string (v : JValue) : bool :=
  match v with
  | JStr _ => true
  | _ => false
  end.

(** The store once it is flushed. *)
Definition empty_store : Store :=
  {| online := true; savedGateway := None; gatewayVersions := 0 |}.

(** A string of white space only, and a string that does not begin with
    white space. *)
Definition all_spaces (s : string) : bool :=
  forallb is_space (list_ascii_of_string s).

Definition starts_clean (s : string) : bool :=
  match s with
  | EmptyString => true
  | String c _ => negb (is_space c)
  end.

(** A string of ASCII characters, on which the characters of the model are
    those of JavaScript. *)
Definition is_ascii (s : string) : bool :=
  forallb (fun c => (nat_of_ascii c <? 128)%nat) (list_ascii_of_string s).

(* ===================================================================== *)
(** ** Values on which the results are run *)
(* ===================================================================== *)

(** A gateway template in the shape [loadDefaultGatewayConfig] needs. *)
Definition sample_gateway_template : JValue :=
  JRec [("protocol", JRec [("http", JRec [("listenPort", JNum 8000)])]);
        ("admin",
         JRec [("protocol", JRec [("http", JRec [("listenPort", JNum 8001)])]);
               ("userService", JRec [("jwtSecret", JStr "secret")])])].

(** A server template in the shape [createRedisConfiguration] needs. *)
Definition sample_server_template : JValue :=
  JRec [("database", JRec [])].

(** POSIX paths, validators that accept a value as it is, and a process
    environment in which no variable is set, so that the interpolation
    leaves every leaf as it finds it. *)
Definition posix_externals : Externals := {|
  path_join := Posix.join;
  path_dirname := Posix.dirname;
  validateServerConfig := fun v => Ok v;
  validateGatewayConfig := fun _ => Ok tt;
  checkEnvVariable := fun v => v;
  serverDefaultTemplate := sample_server_template;
  gatewayDefaultTemplate := sample_gateway_template
|}.

Definition sample_answers : Answers := {|
  connectionType := "standalone";
  host := "localhost";
  port := "6379";
  db := "";
  password := ""
|}.

Definition sample_uuid (n : nat) : string := "uuid-" ++ index_key n.

Definition sample_settings (file : option string) (env : option string)
  : Settings := {|
  gatewayConfigFile := file;
  resetBeforeStart := false;
  cwd := "/app";
  NODE_ENV := env;
  answers := Ok sample_answers;
  writable := true;
  errorListener := true;
  uuid := sample_uuid
|}.

Definition new_instance : Instance := {| config := None; isLoaded := false |}.

Definition sample_world (file : option string) (env : option string)
    (fs : list (string * File)) (saved : option JValue) : World := {|
  this := new_instance;
  settings := sample_settings file env;
  files := fs;
  store := {| online := true; savedGateway := saved; gatewayVersions := 0 |};
  uuidCalls := 0;
  effects := [];
  trace := []
|}.

Definition sample_database : JValue :=
  JRec [("redis",
         JRec [("standalone",
                JRec [("host", JStr "localhost"); ("port", JNum 6379)])])].

(** A base file with a database and a root path, and no gateway. *)
Definition sample_base : JValue :=
  JRec [("rootPath", JStr "/srv/gw"); ("database", sample_database)].

(** A gateway kept in the store, served over TLS with relative paths. *)
Definition sample_stored_gateway : JValue :=
  JRec [("protocol",
         JRec [("https",
                JRec [("listenPort", JNum 8443);
                      ("privateKey", JStr "./server.key");
                      ("certificate", JStr "./server.cert")])])].

(** A world whose configuration file does not parse. *)
Definition broken_file_world : World :=
  sample_world (Some "/srv/gw/tree-gateway.yml") None
    [("/srv/gw/tree-gateway.yml", Malformed)] None.

(** A configuration with a relative root path and no middleware path, in a
    file that is named without a directory. *)
Definition sample_relative_root : JValue :=
  JRec [("rootPath", JStr ".."); ("database", sample_database)].

Definition relative_root_world : World :=
  sample_world (Some "gw.yml") None
    [("gw.yml", Parsed sample_relative_root)] (Some sample_stored_gateway).

(** The same world when no consumer listens for ['error']. *)
Definition unheard_world : World := {|
  this := new_instance;
  settings := {|
    gatewayConfigFile := Some "/srv/gw/tree-gateway.yml";
    resetBeforeStart := false;
    cwd := "/app";
    NODE_ENV := None;
    answers := Ok sample_answers;
    writable := true;
    errorListener := false;
    uuid := sample_uuid
  |};
  files := [("/srv/gw/tree-gateway.yml", Malformed)];
  store := {| online := true; savedGateway := None; gatewayVersions := 0 |};
  uuidCalls := 0;
  effects := [];
  trace := []
|}.

(** A world with a base file and a stored gateway, and the world that a
    first [load] leaves there. *)
Definition stored_gateway_world : World :=
  sample_world (Some "/srv/gw/tree-gateway.yml") None
    [("/srv/gw/tree-gateway.yml", Parsed sample_base)]
    (Some sample_stored_gateway).

Definition loaded_world : World :=
  snd (@load posix_externals stored_gateway_world).

(** The snapshots that a computation adds to the trace of [w]. *)
Definition observed {A} (m : M A) (w : World) : list Instance :=
  skipn (List.length (trace w)) (trace (snd (m w))).

(** The stored gateway once its TLS paths are resolved against
    ["/srv/gw"]. *)
Definition resolved_stored_gateway : JValue :=
  JRec [("protocol",
         JRec [("https",
                JRec [("listenPort", JNum 8443);
                      ("privateKey", JStr "/srv/gw/server.key");
                      ("certificate", JStr "/srv/gw/server.cert")])])].

(** A property that is either missing or a string, as the type
    [ServerConfig] declares [rootPath] and [middlewarePath]. *)
Definition string_or_absent (o : option JValue) : bool :=
  match o with
  | None => true
  | Some (JStr _) => true
  | Some _ => false
  end.

(** A validated configuration with both paths given relative. *)
Definition sample_relative_paths : JValue :=
  JRec [("rootPath", JStr "./root"); ("middlewarePath", JStr "./mw");
        ("database", sample_database)].

(** [omits p v]: following [p] in [v] one comes, through objects only, to
    an object that lacks the next key. *)
Fixpoint omits (p : Path) (v : JValue) : bool :=
  match p with
  | [] => false
  | k :: p' =>
      match v with
      | JObj _ ps =>
          match lookup k ps with
          | Some x => omits p' x
          | None => true
          end
      | _ => false
      end
  end.

(** What the Array Normalizer makes of a value that it finds. *)
Definition normalized (v : JValue) : JValue :=
  if is_array v then v else JArr [v].

(** The paths that [castArrays] goes through: the fixed ones, and one for
    every key of the [cache] map and three for every key of the [cors]
    map. *)
Definition fixed_targets : list Path :=
  map toPath
    ["database.redis.cluster"; "database.redis.sentinel.nodes";
     "gateway.filter"; "gateway.admin.filter";
     "gateway.serviceDiscovery.provider";
     "gateway.logger.console.stderrLevels";
     "gateway.accessLogger.console.stderrLevels"].

Definition cache_targets (server : JValue) : list Path :=
  map (fun k => ["gateway"; "config"; "cache"; k; "server"; "preserveHeaders"])
    (keys (or_null (get ["gateway"; "config"; "cache"] server))).

Definition cors_targets (server : JValue) : list Path :=
  flat_map
    (fun k => [["gateway"; "config"; "cors"; k; "allowedHeaders"];
               ["gateway"; "config"; "cors"; k; "exposedHeaders"];
               ["gateway"; "config"; "cors"; k; "methods"]])
    (keys (or_null (get ["gateway"; "config"; "cors"] server))).

Definition targets (server : JValue) : list Path :=
  (fixed_targets ++ cache_targets server ++ cors_targets server)%list.

(** A base file and an overlay for the environment ["production"]. *)
Definition sample_overlay : JValue :=
  JRec [("database",
         JRec [("redis",
                JRec [("standalone", JRec [("host", JStr "redis.internal")])])])].

Definition overlay_world : World :=
  sample_world (Some "/srv/gw/tree-gateway.yml") (Some "production")
    [("/srv/gw/tree-gateway.yml", Parsed sample_base);
     ("/srv/gw/tree-gateway-production.yaml", Parsed sample_overlay)]
    None.

Definition no_environment_world : World :=
  sample_world (Some "/srv/gw/tree-gateway.yml") None
    [("/srv/gw/tree-gateway.yml", Parsed sample_base);
     ("/srv/gw/tree-gateway-production.yaml", Parsed sample_overlay)]
    None.

(** A world at the entry of the Store Overlay: the local configuration is
    in place, and the store holds [saved]. *)
Definition store_entry_world (local : JValue) (saved : option JValue)
  : World := {|
  this := {| config := Some local; isLoaded := false |};
  settings := sample_settings (Some "/srv/gw/tree-gateway.yml") None;
  files := [("/srv/gw/tree-gateway.yml", Parsed sample_base)];
  store := {| online := true; savedGateway := saved; gatewayVersions := 0 |};
  uuidCalls := 0;
  effects := [];
  trace := []
|}.

(** A stored gateway without protocol, and a local configuration with a
    gateway of its own. *)
Definition sample_stored_filters : JValue :=
  JRec [("filter", JStr "ip-filter")].

Definition sample_local_gateway : JValue :=
  JRec [("protocol", JRec [("http", JRec [("listenPort", JNum 8080)])])].

Definition sample_base_with_gateway : JValue :=
  JRec [("rootPath", JStr "/srv/gw"); ("database", sample_database);
        ("gateway", sample_local_gateway)].

(** The template once the first identifier of [sample_uuid] is its
    secret. *)
Definition sample_seeded_gateway : JValue :=
  JRec [("protocol", JRec [("http", JRec [("listenPort", JNum 8000)])]);
        ("admin",
         JRec [("protocol", JRec [("http", JRec [("listenPort", JNum 8001)])]);
               ("userService", JRec [("jwtSecret", JStr "uuid-0")])])].


(** One step of the normalisation: the value at [p], if any, is made a
    sequence. *)
Definition cast_at (server : JValue) (p : Path) : JValue :=
  update p normalized server.




(** An empty directory ["/app"] in which the gateway is started with the
    configuration path ["./app-config"], and the same with the default
    path. *)
Definition empty_directory_world : World :=
  sample_world (Some "./app-config") None [] None.

Definition default_path_world : World :=
  sample_world None None [] None.

(** What the Bootstrap Provider writes with [sample_answers]. *)
Definition sample_generated : JValue :=
  JRec [("database", sample_database)].

(** A new process in the world that a run has left: the instance is new,
    the files and the store are what they have become. *)
Definition restart (w : World) : World := with_this new_instance w.

(** The next start in the directory where the default file was written. *)
Definition second_start_world : World :=
  sample_world None None
    [("/app/tree-gateway.yaml", Parsed sample_generated)]
    (Some sample_seeded_gateway).

(** A world at the entry of the Store Overlay in which the store is to be
    reset before the start. *)
Definition reset_world (local : JValue) (saved : option JValue) : World := {|
  this := {| config := Some local; isLoaded := false |};
  settings := {|
    gatewayConfigFile := Some "/srv/gw/tree-gateway.yml";
    resetBeforeStart := true;
    cwd := "/app";
    NODE_ENV := None;
    answers := Ok sample_answers;
    writable := true;
    errorListener := true;
    uuid := sample_uuid
  |};
  files := [("/srv/gw/tree-gateway.yml", Parsed sample_base)];
  store := {| online := true; savedGateway := saved; gatewayVersions := 3 |};
  uuidCalls := 0;
  effects := [];
  trace := []
|}.

(** Answers for a cluster with a database number and a password. *)
Definition sample_cluster_answers : Answers := {|
  connectionType := "cluster";
  host := "10.0.0.5";
  port := "7000";
  db := "2";
  password := "s3cret"
|}.

(** A configuration in place whose gateway is served over TLS, the key
    given relative and the certificate absolute. *)
Definition sample_tls_config : JValue :=
  JRec [("rootPath", JStr "/srv/gw");
        ("gateway",
         JRec [("protocol",
                JRec [("https",
                       JRec [("listenPort", JNum 8443);
                             ("privateKey", JStr "./server.key");
                             ("certificate", JStr "/etc/ssl/server.cert")])])])].

Definition tls_world : World := store_entry_world sample_tls_config None.

(** A base file that holds an empty document. *)
Definition empty_document_world : World :=
  sample_world (Some "/srv/gw/tree-gateway.yml") None
    [("/srv/gw/tree-gateway.yml", Parsed JNull)] None.

(** Only the overlay of the environment exists. *)
Definition overlay_only_world : World :=
  sample_world (Some "/srv/gw/tree-gateway.yml") (Some "production")
    [("/srv/gw/tree-gateway-production.yaml", Parsed sample_overlay)] None.

(** A world in which the store cannot be reached. *)
Definition offline_world : World := {|
  this := new_instance;
  settings := sample_settings (Some "/srv/gw/tree-gateway.yml") None;
  files := [("/srv/gw/tree-gateway.yml", Parsed sample_base)];
  store := {| online := false; savedGateway := None; gatewayVersions := 0 |};
  uuidCalls := 0;
  effects := [];
  trace := []
|}.

(** A loaded instance whose configuration file has become unreadable. *)
Definition broken_reload_world : World := {|
  this := {| config := Some sample_base_with_gateway; isLoaded := true |};
  settings := sample_settings (Some "/srv/gw/tree-gateway.yml") None;
  files := [("/srv/gw/tree-gateway.yml", Malformed)];
  store := {| online := true; savedGateway := None; gatewayVersions := 0 |};
  uuidCalls := 0;
  effects := [];
  trace := []
|}.

(** An empty working directory that cannot be written to. *)
Definition read_only_world : World := {|
  this := new_instance;
  settings := {|
    gatewayConfigFile := None;
    resetBeforeStart := false;
    cwd := "/app";
    NODE_ENV := None;
    answers := Ok sample_answers;
    writable := false;
    errorListener := true;
    uuid := sample_uuid
  |};
  files := [];
  store := {| online := true; savedGateway := None; gatewayVersions := 0 |};
  uuidCalls := 0;
  effects := [];
  trace := []
|}.

(** [leaves_out p v]: following [p] in [v] one comes, through objects only,
    to an object that neither owns nor inherits the next key. *)
Fixpoint leaves_out (p : Path) (v : JValue) : bool :=
  match p with
  | [] => false
  | k :: p' =>
      match v with
      | JObj a ps =>
          match lookup k ps with
          | Some x => leaves_out p' x
          | None => negb (inherited a k)
          end
      | _ => false
      end
  end.

(** A value in which no object has a key that it would inherit, at any
    depth: a copy of it is the same value. *)
Fixpoint plain (v : JValue) : bool :=
  match v with
  | JObj a ps =>
      forallb (fun kv => negb (inherited a (fst kv)) && plain (snd kv)) ps
  | _ => true
  end.

(** A base file with a key that every object inherits, next to the overlay
    of the environment ["production"]. *)
Definition sample_named_base : JValue :=
  JRec [("rootPath", JStr "/srv/gw"); ("database", sample_database);
        ("toString", JStr "base")].

Definition inherited_key_world : World :=
  sample_world (Some "/srv/gw/tree-gateway.yml") (Some "production")
    [("/srv/gw/tree-gateway.yml", Parsed sample_named_base);
     ("/srv/gw/tree-gateway-production.yaml", Parsed sample_overlay)]
    None.

(** A local gateway with such a key, and one without protocol. *)
Definition sample_named_gateway : JValue :=
  JRec [("protocol", JRec [("http", JRec [("listenPort", JNum 8080)])]);
        ("valueOf", JStr "local")].

Definition sample_base_named_gateway : JValue :=
  JRec [("rootPath", JStr "/srv/gw"); ("database", sample_database);
        ("gateway", sample_named_gateway)].

Definition sample_bare_gateway : JValue :=
  JRec [("admin", JRec [("filter", JStr "local-filter")])].

Definition sample_base_bare_gateway : JValue :=
  JRec [("rootPath", JStr "/srv/gw"); ("database", sample_database);
        ("gateway", sample_bare_gateway)].

(* ===================================================================== *)
(** ** What a computation leaves alone *)
(* ===================================================================== *)

(** [keeps R m]: whatever the world and however [m] ends, the world it
    leaves is related by [R] to the one it found. *)
Definition keeps {A} (R : World -> World -> Prop) (m : M A) : Prop :=
  forall w, R w (snd (m w)).

(** The relations of interest are preorders that a suspension respects. *)
Class Frame (R : World -> World -> Prop) : Prop := {
  frame_refl : forall w, R w w;
  frame_trans : forall a b c, R a b -> R b c -> R a c;
  frame_suspend : forall w, R w (suspend w)
}.

(** The trace only grows. *)
Definition trace_grows (w w' : World) : Prop :=
  exists l, trace w' = (trace w ++ l)%list.

(** The instance is not touched, and a reader sees nothing but it. *)
Definition instance_kept (w w' : World) : Prop :=
  this w' = this w /\
  exists l, trace w' = (trace w ++ l)%list /\ Forall (eq (this w)) l.

Definition is_emit (e : Effect) : bool :=
  match e with
  | Emit _ => true
  | _ => false
  end.

(** The settings are left as they are; the effects only grow, and by no
    notification. *)
Definition no_event (w w' : World) : Prop :=
  settings w' = settings w /\
  exists l, effects w' = (effects w ++ l)%list /\
            forallb (fun e => negb (is_emit e)) l = true.

(** What the Bootstrap Provider does to the outside. *)
Definition is_bootstrap (e : Effect) : bool :=
  match e with
  | Prompt | WriteFile _ _ => true
  | _ => false
  end.

(** The files and the settings are left as they are, and the Bootstrap
    Provider has not run. *)
Definition files_kept (w w' : World) : Prop :=
  files w' = files w /\ settings w' = settings w /\
  filter is_bootstrap (effects w') = filter is_bootstrap (effects w).

(** The flag [isLoaded] is left as it is, and a reader sees no other value
    of it. *)
Definition flag_kept (w w' : World) : Prop :=
  isLoaded (this w') = isLoaded (this w) /\
  exists l, trace w' = (trace w ++ l)%list /\
            Forall (fun i => isLoaded i = isLoaded (this w)) l.

(** What a later stage may change of a configuration that has its paths:
    the value stays an object or not as it was, every property but
    [gateway] stays what it is, and the gateway stays present or absent as
    it was. *)
Definition gateway_kept (c c' : JValue) : Prop :=
  is_object c' = is_object c /\
  (forall k, k <> "gateway" -> field k c' = field k c) /\
  truthy (or_null (field "gateway" c')) = truthy (or_null (field "gateway" c)).

(** The flag is left as it is, and a configuration that is in place stays
    in place, an object with every property but [gateway] as it was. *)
Definition paths_kept (w w' : World) : Prop :=
  isLoaded (this w') = isLoaded (this w) /\
  forall c, config (this w) = Some c -> is_object c = true ->
    exists c', config (this w') = Some c' /\ is_object c' = true /\
               forall k, k <> "gateway" -> field k c' = field k c.

(** The instance, the store and the generator of identifiers are left as
    they are, and nothing happens outside but what the Bootstrap Provider
    does. *)
Definition files_only (w w' : World) : Prop :=
  this w' = this w /\ store w' = store w /\ uuidCalls w' = uuidCalls w /\
  settings w' = settings w /\
  exists l, effects w' = (effects w ++ l)%list /\
            forallb is_bootstrap l = true.

(** What is done to the store. *)
Definition is_store_write (e : Effect) : bool :=
  match e with
  | FlushDb | StoreSave _ | RegisterGatewayVersion => true
  | _ => false
  end.

(** The store, the generator of identifiers and the settings are left as
    they are, and nothing was written to the store. *)
Definition store_kept (w w' : World) : Prop :=
  store w' = store w /\ uuidCalls w' = uuidCalls w /\
  settings w' = settings w /\
  filter is_store_write (effects w') = filter is_store_write (effects w).

(* ===================================================================== *)
(** * Properties *)
(* ===================================================================== *)

(** From here on [++] is the concatenation of lists. *)
Local Open Scope list_scope.

(** ** Values and paths *)

(** Induction on a value, with the hypothesis on every property of an
    object. *)
Lemma JValue_induction (P : JValue -> Prop) :
  P JNull ->
  (forall b, P (JBool b)) ->
  (forall n, P (JNum n)) ->
  P JNaN ->
  (forall s, P (JStr s)) ->
  (forall a ps, Forall (fun kv => P (snd kv)) ps -> P (JObj a ps)) ->
  forall v, P v.
Proof.
  intros HNull HBool HNum HNaN HStr HObj.
  fix IH 1.
  intros [ | b | n | | s | a ps ];
    [ exact HNull | apply HBool | apply HNum | exact HNaN | apply HStr | ].
  apply HObj.
  induction ps as [ | [k x] r IHr ]; constructor.
  - simpl. apply IH.
  - exact IHr.
Qed.

Lemma lookup_alter_same k f ps :
  lookup k (alter k f ps) = option_map f (lookup k ps).
Proof.
  induction ps as [ | [k' y] r IH ]; simpl; auto.
  destruct (String.eqb k k') eqn:E; simpl; rewrite E; auto.
Qed.

Lemma lookup_alter_other k k' f ps :
  k <> k' -> lookup k (alter k' f ps) = lookup k ps.
Proof.
  intros Hne.
  induction ps as [ | [k0 y] r IH ]; simpl; auto.
  destruct (String.eqb k' k0) eqn:E; simpl.
  - apply String.eqb_eq in E; subst k0.
    destruct (String.eqb k k') eqn:E'; auto.
    apply String.eqb_eq in E'; contradiction.
  - destruct (String.eqb k k0); auto.
Qed.

Lemma lookup_assign_same k x ps : lookup k (assign k x ps) = Some x.
Proof.
  induction ps as [ | [k' y] r IH ]; simpl.
  - rewrite String.eqb_refl; reflexivity.
  - destruct (String.eqb k k') eqn:E; simpl; rewrite E; auto.
Qed.

Lemma lookup_assign_other k k' x ps :
  k <> k' -> lookup k (assign k' x ps) = lookup k ps.
Proof.
  intros Hne.
  induction ps as [ | [k0 y] r IH ]; simpl.
  - destruct (String.eqb k k') eqn:E; auto.
    apply String.eqb_eq in E; contradiction.
  - destruct (String.eqb k' k0) eqn:E; simpl.
    + apply String.eqb_eq in E; subst k0.
      destruct (String.eqb k k') eqn:E'; auto.
      apply String.eqb_eq in E'; contradiction.
    + destruct (String.eqb k k0); auto.
Qed.

Lemma alter_keys k f ps : map fst (alter k f ps) = map fst ps.
Proof.
  induction ps as [ | [k' y] r IH ]; simpl; auto.
  destruct (String.eqb k k'); simpl; congruence.
Qed.

Lemma alter_id k f ps :
  (forall x, lookup k ps = Some x -> f x = x) -> alter k f ps = ps.
Proof.
  induction ps as [ | [k' y] r IH ]; simpl; intros Hf; auto.
  destruct (String.eqb k k') eqn:E.
  - rewrite Hf; auto.
  - rewrite IH; auto.
Qed.

Lemma alter_ext k f g ps :
  (forall x, lookup k ps = Some x -> f x = g x) -> alter k f ps = alter k g ps.
Proof.
  induction ps as [ | [k' y] r IH ]; simpl; intros Hf; auto.
  destruct (String.eqb k k') eqn:E.
  - rewrite Hf; auto.
  - rewrite IH; auto.
Qed.

Lemma alter_alter k f g ps :
  alter k f (alter k g ps) = alter k (fun x => f (g x)) ps.
Proof.
  induction ps as [ | [k' y] r IH ]; simpl; auto.
  destruct (String.eqb k k') eqn:E; simpl; rewrite E; congruence.
Qed.

Lemma get_app p q v :
  get (p ++ q)%list v = match get p v with Some x => get q x | None => None end.
Proof.
  revert v; induction p as [ | k p IH ]; intros v; simpl; auto.
  destruct v; auto.
  destruct (lookup k props); auto.
Qed.

Lemma update_app p q f v : update (p ++ q)%list f v = update p (update q f) v.
Proof.
  revert v; induction p as [ | k p IH ]; intros v; simpl; auto.
  destruct v; auto.
  f_equal. apply alter_ext. intros; apply IH.
Qed.

Lemma get_update_same p f v :
  get p (update p f v) = option_map f (get p v).
Proof.
  revert v; induction p as [ | k p IH ]; intros v; simpl; auto.
  destruct v; simpl; auto.
  rewrite lookup_alter_same.
  destruct (lookup k props); simpl; auto.
Qed.

Lemma update_id p f v :
  (forall x, get p v = Some x -> f x = x) -> update p f v = v.
Proof.
  revert v; induction p as [ | k p IH ]; intros v Hf; simpl in *; auto.
  destruct v; auto.
  f_equal. apply alter_id. intros x Hx. apply IH.
  rewrite Hx in Hf. exact Hf.
Qed.

Lemma update_ext p f g v :
  (forall x, get p v = Some x -> f x = g x) -> update p f v = update p g v.
Proof.
  revert v; induction p as [ | k p IH ]; intros v Hf; simpl in *; auto.
  destruct v; auto.
  f_equal. apply alter_ext. intros x Hx. apply IH.
  rewrite Hx in Hf. exact Hf.
Qed.

Lemma update_update p f g v :
  update p f (update p g v) = update p (fun x => f (g x)) v.
Proof.
  revert v; induction p as [ | k p IH ]; intros v; simpl; auto.
  destruct v; simpl; auto.
  f_equal. rewrite alter_alter. apply alter_ext. intros; apply IH.
Qed.

Lemma diverge_sym p q : diverge p q = diverge q p.
Proof.
  revert q; induction p as [ | a p IH ]; intros [ | b q ]; simpl; auto.
  rewrite (String.eqb_sym b a). destruct (String.eqb a b); auto.
Qed.

Lemma get_update_diverge p q f v :
  diverge p q = true -> get p (update q f v) = get p v.
Proof.
  revert q v; induction p as [ | a p IH ]; intros [ | b q ] v; simpl;
    try discriminate.
  destruct (String.eqb a b) eqn:E; intros Hd.
  - apply String.eqb_eq in E; subst b.
    destruct v; auto. simpl.
    rewrite lookup_alter_same.
    destruct (lookup a props); simpl; auto.
  - apply String.eqb_neq in E.
    destruct v; auto. simpl.
    rewrite lookup_alter_other; auto.
Qed.


Lemma keys_update q f v :
  q <> [] -> keys (update q f v) = keys v.
Proof.
  destruct q as [ | k q ]; [ congruence | intros _ ].
  destruct v; simpl; auto. apply alter_keys.
Qed.

(** ** Computations *)

Section Keeps.

Context (R : World -> World -> Prop) `{Frame R}.

Lemma keeps_ret A (a : A) : keeps R (ret a).
Proof. intros w; apply frame_refl. Qed.

Lemma keeps_throw A (e : Error) : keeps R (@throw A e).
Proof. intros w; apply frame_refl. Qed.

Lemma keeps_lift A (r : Result A) : keeps R (lift r).
Proof. intros w; apply frame_refl. Qed.

Lemma keeps_read A (f : World -> A) : keeps R (read f).
Proof. intros w; apply frame_refl. Qed.

Lemma keeps_bind A B (m : M A) (k : A -> M B) :
  keeps R m -> (forall a, keeps R (k a)) -> keeps R (bind m k).
Proof.
  intros Hm Hk w. unfold bind.
  specialize (Hm w). destruct (m w) as [[a | e] w1]; simpl in *; auto.
  eapply frame_trans; [ exact Hm | apply Hk ].
Qed.

Lemma keeps_await A (m : M A) : keeps R m -> keeps R (await m).
Proof.
  intros Hm w. unfold await.
  specialize (Hm w). destruct (m w) as [r w1]; simpl in *.
  eapply frame_trans; [ exact Hm | apply frame_suspend ].
Qed.

Lemma keeps_try_catch A (m : M A) (h : Error -> M A) :
  keeps R m -> (forall e, keeps R (h e)) -> keeps R (try_catch m h).
Proof.
  intros Hm Hh w. unfold try_catch.
  specialize (Hm w). destruct (m w) as [[a | e] w1]; simpl in *; auto.
  eapply frame_trans; [ exact Hm | apply Hh ].
Qed.

Lemma keeps_change (f : World -> World) :
  (forall w, R w (f w)) -> keeps R (change f).
Proof. intros Hf w; apply Hf. Qed.

Lemma keeps_parse_file name : keeps R (parse_file name).
Proof.
  intros w. unfold parse_file.
  destruct (find_file name (files w)) as [[v | ] | ]; apply frame_refl.
Qed.

Lemma keeps_this_config : keeps R this_config.
Proof. intros w; apply frame_refl. Qed.

Lemma keeps_gatewayService_get : keeps R gatewayService_get.
Proof.
  intros w. unfold gatewayService_get.
  destruct (online (store w)); apply frame_refl.
Qed.

End Keeps.

(** One step of an argument that follows the shape of a computation. *)
Ltac keeps_step :=
  match goal with
  | |- Frame _ => exact _
  | |- forall _, _ => intro
  | |- keeps _ (bind _ _) => apply keeps_bind
  | |- keeps _ (await _) => apply keeps_await
  | |- keeps _ (try_catch _ _) => apply keeps_try_catch
  | |- keeps _ (ret _) => apply keeps_ret
  | |- keeps _ (throw _) => apply keeps_throw
  | |- keeps _ (lift _) => apply keeps_lift
  | |- keeps _ (read _) => apply keeps_read
  | |- keeps _ (parse_file _) => apply keeps_parse_file
  | |- keeps _ this_config => apply keeps_this_config
  | |- keeps _ gatewayService_get => apply keeps_gatewayService_get
  | |- keeps _ (if ?b then _ else _) => destruct b
  | |- keeps _ (match ?x with _ => _ end) => destruct x
  end.

#[export] Instance trace_grows_frame : Frame trace_grows.
Proof.
  split.
  - intros w. exists []. symmetry; apply app_nil_r.
  - intros a b c [l1 H1] [l2 H2]. exists (l1 ++ l2)%list.
    rewrite H2, H1. symmetry; apply app_assoc.
  - intros w. exists [this w]. reflexivity.
Qed.

#[export] Instance instance_kept_frame : Frame instance_kept.
Proof.
  split.
  - intros w. split; auto. exists []. split; [ symmetry; apply app_nil_r | constructor ].
  - intros a b c [Ht1 [l1 [H1 F1]]] [Ht2 [l2 [H2 F2]]].
    split; [ congruence | ].
    exists (l1 ++ l2)%list. split.
    + rewrite H2, H1. symmetry; apply app_assoc.
    + apply Forall_app. split; auto. rewrite <- Ht1. exact F2.
  - intros w. split; auto. exists [this w]. split; auto.
Qed.

#[export] Instance no_event_frame : Frame no_event.
Proof.
  split.
  - intros w. split; auto.
    exists []. split; [ symmetry; apply app_nil_r | reflexivity ].
  - intros a b c [S1 [l1 [H1 F1]]] [S2 [l2 [H2 F2]]].
    split; [ congruence | ].
    exists (l1 ++ l2)%list. split.
    + rewrite H2, H1. symmetry; apply app_assoc.
    + rewrite forallb_app, F1, F2. reflexivity.
  - intros w. split; auto.
    exists []. split; [ symmetry; apply app_nil_r | reflexivity ].
Qed.

#[export] Instance files_kept_frame : Frame files_kept.
Proof.
  split.
  - intros w. repeat split.
  - intros a b c [H1 [H2 H3]] [H4 [H5 H6]]. repeat split; congruence.
  - intros w. repeat split.
Qed.

Create HintDb keeps.

Ltac keeps_all :=
  repeat first [ keeps_step | solve [ auto with keeps ] ].

(** A primitive that leaves the trace, the instance, or the effects as
    they are keeps the relation that speaks of them. *)
Ltac primitive :=
  let w := fresh "w" in
  intros w;
  repeat match goal with
         | |- context [ if ?b then _ else _ ] => destruct b
         | |- context [ match ?x with _ => _ end ] => destruct x
         end;
  simpl;
  try apply frame_refl.

Lemma trace_grows_same w w' : trace w' = trace w -> trace_grows w w'.
Proof. intros E. exists []. rewrite E. symmetry; apply app_nil_r. Qed.

Lemma trace_grows_writeFile path content : keeps trace_grows (writeFile path content).
Proof. unfold writeFile. primitive. apply trace_grows_same; reflexivity. Qed.

Lemma trace_grows_askRedisOptions : keeps trace_grows askRedisOptions.
Proof. unfold askRedisOptions. primitive. apply trace_grows_same; reflexivity. Qed.

Lemma trace_grows_new_uuid : keeps trace_grows new_uuid.
Proof. unfold new_uuid. primitive. apply trace_grows_same; reflexivity. Qed.

Lemma trace_grows_save g : keeps trace_grows (gatewayService_save g).
Proof. unfold gatewayService_save. primitive. apply trace_grows_same; reflexivity. Qed.

Lemma trace_grows_register : keeps trace_grows gatewayService_registerGatewayVersion.
Proof.
  unfold gatewayService_registerGatewayVersion. primitive.
  apply trace_grows_same; reflexivity.
Qed.

Lemma trace_grows_flushdb : keeps trace_grows flushdb.
Proof. unfold flushdb. primitive. apply trace_grows_same; reflexivity. Qed.

Lemma trace_grows_set_config c : keeps trace_grows (set_config c).
Proof. intros w. apply trace_grows_same; reflexivity. Qed.

Lemma trace_grows_set_isLoaded b : keeps trace_grows (set_isLoaded b).
Proof. intros w. apply trace_grows_same; reflexivity. Qed.

Lemma trace_grows_emit ev : keeps trace_grows (emit ev).
Proof. unfold emit. primitive; apply trace_grows_same; reflexivity. Qed.

Lemma trace_grows_suspend : keeps trace_grows (change suspend).
Proof. intros w. apply frame_suspend. Qed.

#[export] Hint Resolve trace_grows_writeFile trace_grows_askRedisOptions
  trace_grows_new_uuid trace_grows_save trace_grows_register
  trace_grows_flushdb trace_grows_set_config trace_grows_set_isLoaded
  trace_grows_emit trace_grows_suspend : keeps.

Lemma trace_grows_mutate_config f : keeps trace_grows (mutate_config f).
Proof. unfold mutate_config. keeps_all. Qed.

#[export] Hint Resolve trace_grows_mutate_config : keeps.

Lemma trace_grows_mutate_config_by m : keeps trace_grows (mutate_config_by m).
Proof. unfold mutate_config_by. keeps_all. Qed.

#[export] Hint Resolve trace_grows_mutate_config_by : keeps.

Section TraceGrows.

Context `{Externals}.

Lemma trace_grows_loadDefaultGatewayConfig : keeps trace_grows loadDefaultGatewayConfig.
Proof. unfold loadDefaultGatewayConfig. keeps_all. Qed.

Hint Resolve trace_grows_loadDefaultGatewayConfig : keeps.

Lemma trace_grows_getConfigFromDB : keeps trace_grows getConfigFromDB.
Proof. unfold getConfigFromDB. keeps_all. Qed.

Hint Resolve trace_grows_getConfigFromDB : keeps.

Lemma trace_grows_loadDatabaseConfig : keeps trace_grows loadDatabaseConfig.
Proof. unfold loadDatabaseConfig. keeps_all. Qed.

Lemma trace_grows_resolveHttpsPath key : keeps trace_grows (resolveHttpsPath key).
Proof. unfold resolveHttpsPath. keeps_all. Qed.

Hint Resolve trace_grows_resolveHttpsPath : keeps.

Lemma trace_grows_resolveHttpsPaths : keeps trace_grows resolveHttpsPaths.
Proof. unfold resolveHttpsPaths. keeps_all. Qed.

End TraceGrows.

Lemma instance_kept_same w w' :
  this w' = this w -> trace w' = trace w -> instance_kept w w'.
Proof.
  intros E1 E2. split; auto. exists []. split; auto.
  rewrite E2. symmetry; apply app_nil_r.
Qed.

Lemma instance_kept_writeFile path content : keeps instance_kept (writeFile path content).
Proof. unfold writeFile. primitive. apply instance_kept_same; reflexivity. Qed.

Lemma instance_kept_askRedisOptions : keeps instance_kept askRedisOptions.
Proof. unfold askRedisOptions. primitive. apply instance_kept_same; reflexivity. Qed.

#[export] Hint Resolve instance_kept_writeFile instance_kept_askRedisOptions : keeps.

Lemma no_event_by w w' l :
  settings w' = settings w ->
  effects w' = (effects w ++ l)%list ->
  forallb (fun e => negb (is_emit e)) l = true -> no_event w w'.
Proof. intros S E F. split; [ exact S | ]. exists l. split; assumption. Qed.

Lemma no_event_writeFile path content : keeps no_event (writeFile path content).
Proof.
  unfold writeFile. primitive.
  apply no_event_by with (l := [WriteFile path content]); reflexivity.
Qed.

Lemma no_event_askRedisOptions : keeps no_event askRedisOptions.
Proof.
  unfold askRedisOptions. primitive.
  apply no_event_by with (l := [Prompt]); reflexivity.
Qed.

Lemma no_event_new_uuid : keeps no_event new_uuid.
Proof.
  unfold new_uuid. primitive.
  apply no_event_by with (l := []);
    [ reflexivity | symmetry; apply app_nil_r | reflexivity ].
Qed.

Lemma no_event_save g : keeps no_event (gatewayService_save g).
Proof.
  unfold gatewayService_save. primitive.
  apply no_event_by with (l := [StoreSave g]); reflexivity.
Qed.

Lemma no_event_register : keeps no_event gatewayService_registerGatewayVersion.
Proof.
  unfold gatewayService_registerGatewayVersion. primitive.
  apply no_event_by with (l := [RegisterGatewayVersion]); reflexivity.
Qed.

Lemma no_event_flushdb : keeps no_event flushdb.
Proof.
  unfold flushdb. primitive.
  apply no_event_by with (l := [FlushDb]); reflexivity.
Qed.

Lemma no_event_set_config c : keeps no_event (set_config c).
Proof.
  intros w. apply no_event_by with (l := []);
    [ reflexivity | symmetry; apply app_nil_r | reflexivity ].
Qed.

Lemma no_event_suspend : keeps no_event (change suspend).
Proof. intros w. apply frame_suspend. Qed.

#[export] Hint Resolve no_event_writeFile no_event_askRedisOptions
  no_event_new_uuid no_event_save no_event_register no_event_flushdb
  no_event_set_config no_event_suspend : keeps.

Lemma no_event_mutate_config f : keeps no_event (mutate_config f).
Proof. unfold mutate_config. keeps_all. Qed.

#[export] Hint Resolve no_event_mutate_config : keeps.

Lemma no_event_mutate_config_by m : keeps no_event (mutate_config_by m).
Proof. unfold mutate_config_by. keeps_all. Qed.

#[export] Hint Resolve no_event_mutate_config_by : keeps.

Lemma files_kept_by w w' :
  files w' = files w -> settings w' = settings w ->
  (exists l, effects w' = (effects w ++ l)%list /\
             filter is_bootstrap l = [])
  -> files_kept w w'.
Proof.
  intros E1 E2 [l [E3 F]]. repeat split; auto.
  rewrite E3, filter_app, F. apply app_nil_r.
Qed.

Ltac files_kept_with l :=
  apply files_kept_by; [ reflexivity | reflexivity | exists l; split; reflexivity ].

Lemma files_kept_new_uuid : keeps files_kept new_uuid.
Proof. unfold new_uuid. primitive. repeat split. Qed.

Lemma files_kept_save g : keeps files_kept (gatewayService_save g).
Proof. unfold gatewayService_save. primitive. files_kept_with [StoreSave g]. Qed.

Lemma files_kept_register : keeps files_kept gatewayService_registerGatewayVersion.
Proof.
  unfold gatewayService_registerGatewayVersion. primitive.
  files_kept_with [RegisterGatewayVersion].
Qed.

Lemma files_kept_flushdb : keeps files_kept flushdb.
Proof. unfold flushdb. primitive. files_kept_with [FlushDb]. Qed.

Lemma files_kept_set_config c : keeps files_kept (set_config c).
Proof. intros w. repeat split. Qed.

Lemma files_kept_set_isLoaded b : keeps files_kept (set_isLoaded b).
Proof. intros w. repeat split. Qed.

Lemma files_kept_emit ev : keeps files_kept (emit ev).
Proof.
  intros w. unfold emit.
  destruct ev as [ | err | g ];
    [ | destruct (errorListener (settings w)) | ]; simpl;
    (apply files_kept_by;
     [ reflexivity | reflexivity | eexists; split; reflexivity ]).
Qed.

Lemma files_kept_suspend : keeps files_kept (change suspend).
Proof. intros w. apply frame_suspend. Qed.

#[export] Hint Resolve files_kept_new_uuid files_kept_save files_kept_register
  files_kept_flushdb files_kept_set_config files_kept_set_isLoaded
  files_kept_emit files_kept_suspend : keeps.

Lemma files_kept_mutate_config f : keeps files_kept (mutate_config f).
Proof. unfold mutate_config. keeps_all. Qed.

#[export] Hint Resolve files_kept_mutate_config : keeps.

Lemma files_kept_mutate_config_by m : keeps files_kept (mutate_config_by m).
Proof. unfold mutate_config_by. keeps_all. Qed.

#[export] Hint Resolve files_kept_mutate_config_by : keeps.

Section StagesKeep.

Context `{Externals}.

Lemma instance_kept_loadConfigObject name : keeps instance_kept (loadConfigObject name).
Proof. unfold loadConfigObject. keeps_all. Qed.

Hint Resolve instance_kept_loadConfigObject : keeps.

Lemma instance_kept_loadDefaultServerConfig : keeps instance_kept loadDefaultServerConfig.
Proof. unfold loadDefaultServerConfig. keeps_all. Qed.

Hint Resolve instance_kept_loadDefaultServerConfig : keeps.

(** The file layers never touch the fields of the instance. *)
Lemma instance_kept_loadServerConfig name : keeps instance_kept (loadServerConfig name).
Proof. unfold loadServerConfig. keeps_all. Qed.

Lemma no_event_loadConfigObject name : keeps no_event (loadConfigObject name).
Proof. unfold loadConfigObject. keeps_all. Qed.

Hint Resolve no_event_loadConfigObject : keeps.

Lemma no_event_loadServerConfig name : keeps no_event (loadServerConfig name).
Proof. unfold loadServerConfig, loadDefaultServerConfig. keeps_all. Qed.

Lemma no_event_loadDatabaseConfig : keeps no_event loadDatabaseConfig.
Proof.
  unfold loadDatabaseConfig, getConfigFromDB, loadDefaultGatewayConfig.
  keeps_all.
Qed.

Lemma no_event_resolveHttpsPaths : keeps no_event resolveHttpsPaths.
Proof. unfold resolveHttpsPaths, resolveHttpsPath. keeps_all. Qed.

Hint Resolve no_event_loadServerConfig no_event_loadDatabaseConfig
  no_event_resolveHttpsPaths : keeps.

(** The resolution itself sends no notification. *)
Lemma no_event_loadGatewayConfig file : keeps no_event (loadGatewayConfig file).
Proof. unfold loadGatewayConfig. keeps_all. Qed.

Lemma files_kept_loadDatabaseConfig : keeps files_kept loadDatabaseConfig.
Proof.
  unfold loadDatabaseConfig, getConfigFromDB, loadDefaultGatewayConfig.
  keeps_all.
Qed.

Lemma files_kept_resolveHttpsPaths : keeps files_kept resolveHttpsPaths.
Proof. unfold resolveHttpsPaths, resolveHttpsPath. keeps_all. Qed.

End StagesKeep.

(** ** The lifecycle: [load] and [reload] *)

Lemma no_event_In w w' ev :
  no_event w w' -> In (Emit ev) (effects w') -> In (Emit ev) (effects w).
Proof.
  intros [_ [l [E F]]] Hin. rewrite E in Hin.
  apply in_app_or in Hin. destruct Hin as [Hin | Hin]; auto.
  rewrite forallb_forall in F. apply F in Hin. discriminate.
Qed.

(** C9, as the code has it. A failure of the resolution during [load]
    becomes an ['error'] notification that carries the cause.  When some
    consumer listens for ['error'], [load] itself ends normally; when
    nobody does, the emitter raises the cause and [load] fails with it.
    The same failure during [reload] is raised to the caller and no
    notification is sent. *)
Theorem load_notifies_reload_raises `{Externals} (w : World) :
  let file := gatewayConfigFileOrDefault (settings w) in
  (forall e w',
      isLoaded (this w) = false ->
      loadGatewayConfig file w = (Throw e, w') ->
      effects (snd (load w)) = (effects w' ++ [Emit (ErrorEvent e)])%list /\
      isLoaded (this (snd (load w))) = false /\
      (forall ev, In (Emit ev) (effects w') -> In (Emit ev) (effects w)) /\
      (errorListener (settings w) = true -> fst (load w) = Ok tt) /\
      (errorListener (settings w) = false -> fst (load w) = Throw e))
  /\ (errorListener (settings w) = true -> fst (load w) = Ok tt)
  /\ (forall e w',
         loadGatewayConfig file (snd (set_config None w)) = (Throw e, w') ->
         reload w = (Throw e, suspend w') /\
         (forall ev, In (Emit ev) (effects (suspend w')) ->
                     In (Emit ev) (effects w))).
Proof.
  intros file. split; [ | split ].
  - intros e w' Hl Hrun.
    pose proof (no_event_loadGatewayConfig file w) as Hq.
    rewrite Hrun in Hq. simpl in Hq.
    unfold load, bind, read, try_catch, await. rewrite Hl. simpl.
    fold file. rewrite Hrun. simpl.
    destruct Hq as [Hs Hq]. unfold emit. simpl. rewrite Hs.
    destruct (errorListener (settings w)); simpl;
      (repeat split; auto;
       try (intros ev; apply no_event_In; split; assumption);
       try discriminate).
  - intros Hlisten.
    unfold load, bind, read, try_catch, await.
    destruct (isLoaded (this w)); simpl; [ reflexivity | ].
    pose proof (no_event_loadGatewayConfig file w) as [Hs _].
    fold file.
    destruct (loadGatewayConfig file w) as [[[] | e] w1]; simpl in *;
      [ reflexivity | ].
    unfold emit. simpl. rewrite Hs, Hlisten. reflexivity.
  - intros e w' Hrun.
    pose proof (no_event_loadGatewayConfig file (snd (set_config None w))) as Hq.
    rewrite Hrun in Hq. simpl in Hq.
    unfold reload, bind, read, await. simpl in *.
    fold file. rewrite Hrun. split; [ reflexivity | ].
    intros ev. simpl. apply (no_event_In _ _ _ Hq).
Qed.

Lemma load_notifies_reload_raises_witness :
  fst (@load posix_externals broken_file_world) = Ok tt /\
  effects (snd (@load posix_externals broken_file_world))
  = [Emit (ErrorEvent ParseError)] /\
  isLoaded (this (snd (@load posix_externals broken_file_world))) = false /\
  fst (@load posix_externals unheard_world) = Throw ParseError.
Proof.
  destruct (@load_notifies_reload_raises posix_externals broken_file_world)
    as [Hload _].
  destruct (Hload ParseError
              (snd (@loadGatewayConfig posix_externals
                      "/srv/gw/tree-gateway.yml" broken_file_world))
              eq_refl eq_refl)
    as [H1 [H2 [_ [H3 _]]]].
  destruct (@load_notifies_reload_raises posix_externals unheard_world)
    as [Hunheard _].
  destruct (Hunheard ParseError
              (snd (@loadGatewayConfig posix_externals
                      "/srv/gw/tree-gateway.yml" unheard_world))
              eq_refl eq_refl)
    as [_ [_ [_ [_ H4]]]].
  split; [ exact (H3 eq_refl) | ]. split; [ exact H1 | ].
  split; [ exact H2 | exact (H4 eq_refl) ].
Defined.

(** C9, as it is stated, fails.  In the world below the configuration file
    does not parse and nobody listens for ['error']: the resolution fails
    during [load], the notification is sent, and [load] does not end
    normally but fails with the cause, which the emitter raises. *)
Lemma load_raises_when_nobody_listens :
  fst (@loadGatewayConfig posix_externals "/srv/gw/tree-gateway.yml"
         unheard_world) = Throw ParseError
  /\ fst (@load posix_externals unheard_world) = Throw ParseError
  /\ effects (snd (@load posix_externals unheard_world))
     = [Emit (ErrorEvent ParseError)].
Proof. vm_compute. repeat split. Qed.

#[export] Hint Resolve trace_grows_loadDatabaseConfig
  trace_grows_resolveHttpsPaths : keeps.

Lemma first_snapshot_kept i w0 w1 w2 :
  (exists rest, trace w1 = (trace w0 ++ i :: rest)%list) ->
  trace_grows w1 w2 ->
  exists rest, trace w2 = (trace w0 ++ i :: rest)%list.
Proof.
  intros [rest E] [l E2]. exists (rest ++ l)%list.
  rewrite E2, E, <- app_assoc. reflexivity.
Qed.

(** The first suspension of a resolution happens before anything is
    assigned to the instance. *)
Lemma loadGatewayConfig_first_snapshot `{Externals} file w :
  exists rest,
    trace (snd (loadGatewayConfig file w)) = (trace w ++ this w :: rest)%list.
Proof.
  unfold loadGatewayConfig.
  unfold bind at 1. unfold read at 1.
  set (name := configFileNameOf (cwd (settings w)) file).
  unfold bind at 1. unfold await at 1.
  pose proof (instance_kept_loadServerConfig name w) as [Ht [l [El Fl]]].
  destruct (loadServerConfig name w) as [r1 w1]. simpl in Ht, El, Fl.
  assert (Hfirst : exists rest,
             trace (suspend w1) = (trace w ++ this w :: rest)%list).
  { simpl. rewrite El, Ht, <- app_assoc.
    destruct l as [ | i l ].
    - exists []. reflexivity.
    - inversion Fl; subst. exists (l ++ [this w])%list. reflexivity. }
  destruct r1 as [raw | e]; [ | exact Hfirst ].
  eapply first_snapshot_kept; [ exact Hfirst | ].
  match goal with
  | |- trace_grows ?a (snd (?k ?a)) => change (trace_grows a (snd (k a)))
  end.
  match goal with
  | |- trace_grows ?a (snd (?k ?a)) =>
      assert (Hk : keeps trace_grows k) by keeps_all; apply Hk
  end.
Qed.

Lemma observed_first {A} (m : M A) w i :
  (exists rest, trace (snd (m w)) = (trace w ++ i :: rest)%list) ->
  exists rest, observed m w = i :: rest.
Proof.
  intros [rest E]. exists rest. unfold observed. rewrite E.
  rewrite skipn_app, skipn_all, Nat.sub_diag. reflexivity.
Qed.

(** [reload] starts by clearing the configuration, and that is the first
    thing a reader sees of it. *)
Lemma reload_first_snapshot `{Externals} w :
  exists rest,
    observed reload w = {| config := None; isLoaded := isLoaded (this w) |} :: rest.
Proof.
  apply observed_first.
  unfold reload.
  unfold bind at 1. unfold set_config at 1, change at 1.
  set (w0 := with_this {| config := None; isLoaded := isLoaded (this w) |} w).
  unfold bind at 1. unfold read at 1.
  set (file := gatewayConfigFileOrDefault (settings w0)).
  unfold bind at 1. unfold await at 1.
  destruct (loadGatewayConfig_first_snapshot file w0) as [rest E].
  destruct (loadGatewayConfig file w0) as [[[] | e] w1]; simpl in E.
  - change (trace w0) with (trace w) in E.
    apply (first_snapshot_kept _ w (suspend w1)).
    + exists (rest ++ [this w1])%list. simpl. rewrite E, <- app_assoc. reflexivity.
    + match goal with
      | |- trace_grows ?a (snd (?k ?a)) =>
          assert (Hk : keeps trace_grows k) by
            (repeat first [ keeps_step | solve [ auto with keeps ]
                          | intros x; apply frame_refl ]);
          apply Hk
      end.
  - exists (rest ++ [this w1])%list. simpl. rewrite E, <- app_assoc. reflexivity.
Qed.

(** What [reload] does, from what the resolution gives on the instance
    without configuration. *)
Lemma reload_run `{Externals} (w : World) :
  reload w
  = match
      loadGatewayConfig (gatewayConfigFileOrDefault (settings w))
        (with_this {| config := None; isLoaded := isLoaded (this w) |} w)
    with
    | (Ok _, w1) =>
        match gateway (this w1) with
        | Ok g => (Ok tt, log_effect (Emit (GatewayUpdate g)) (suspend w1))
        | Throw e => (Throw e, suspend w1)
        end
    | (Throw e, w1) => (Throw e, suspend w1)
    end.
Proof.
  unfold reload.
  unfold bind at 1. unfold set_config at 1, change at 1.
  unfold bind at 1. unfold read at 1.
  unfold bind at 1. unfold await at 1.
  change (settings
            (with_this {| config := None; isLoaded := isLoaded (this w) |} w))
    with (settings w).
  destruct (loadGatewayConfig _ _) as [[[] | e] w1]; [ | reflexivity ].
  unfold bind. change (this (suspend w1)) with (this w1).
  destruct (gateway (this w1)) as [g | e]; reflexivity.
Qed.

(** C2, as the code has it. Every [reload] first clears the configuration
    and only then runs the resolution, on the instance without
    configuration: the first state that can be observed while it runs holds
    no configuration, so the previous gateway cannot be read from it (the
    getter fails on the absent object); what the [reload] gives is what the
    resolution gives on the cleared instance, whatever the configuration
    was before; and when the [reload] succeeds, the instance holds the
    configuration that this resolution has built, whose gateway is what the
    ['gateway-update'] notification carries. *)
Theorem reload_clears_then_installs `{Externals} (w : World) :
  let cleared :=
    with_this {| config := None; isLoaded := isLoaded (this w) |} w in
  let run := loadGatewayConfig (gatewayConfigFileOrDefault (settings w)) in
  (exists rest,
      observed reload w
      = {| config := None; isLoaded := isLoaded (this w) |} :: rest)
  /\ (forall g,
         gateway {| config := None; isLoaded := isLoaded (this w) |} <> Ok g)
  /\ (forall w',
         reload w = (Ok tt, w') ->
         exists g before,
           gateway (this w') = Ok g /\
           isLoaded (this w') = true /\
           effects w' = (before ++ [Emit (GatewayUpdate g)])%list)
  /\ reload w
     = match run cleared with
       | (Ok _, w1) =>
           match gateway (this w1) with
           | Ok g => (Ok tt, log_effect (Emit (GatewayUpdate g)) (suspend w1))
           | Throw e => (Throw e, suspend w1)
           end
       | (Throw e, w1) => (Throw e, suspend w1)
       end
  /\ (forall w',
         reload w = (Ok tt, w') ->
         fst (run cleared) = Ok tt /\ this w' = this (snd (run cleared)))
  /\ (forall c,
         reload (with_this {| config := c; isLoaded := isLoaded (this w) |} w)
         = reload w).
Proof.
  intros cleared run.
  split; [ apply reload_first_snapshot | ].
  split.
  { intros g. unfold gateway, ensureLoaded.
    destruct (isLoaded (this w)); simpl; discriminate. }
  split.
  { intros w' Hr. rewrite reload_run in Hr.
    destruct (loadGatewayConfig _ _) as [[[] | e] w1]; [ | discriminate ].
    destruct (gateway (this w1)) as [g | e] eqn:Eg; [ | discriminate ].
    inversion Hr; subst w'; clear Hr.
    exists g, (effects w1). simpl. split; [ exact Eg | ].
    split; [ | reflexivity ].
    unfold gateway, ensureLoaded in Eg.
    destruct (isLoaded (this w1)); simpl in Eg;
      [ reflexivity | discriminate ]. }
  split; [ apply reload_run | ].
  split.
  { intros w' Hr. rewrite reload_run in Hr. fold cleared in Hr.
    fold run in Hr.
    destruct (run cleared) as [[[] | e] w1]; [ | discriminate ].
    destruct (gateway (this w1)) as [g | e]; [ | discriminate ].
    inversion Hr; subst w'. split; reflexivity. }
  intros c. rewrite !reload_run. reflexivity.
Qed.

Lemma reload_clears_then_installs_witness :
  (exists g before,
      gateway (this (snd (@reload posix_externals loaded_world))) = Ok g /\
      isLoaded (this (snd (@reload posix_externals loaded_world))) = true /\
      effects (snd (@reload posix_externals loaded_world))
      = (before ++ [Emit (GatewayUpdate g)])%list)
  /\ this (snd (@reload posix_externals loaded_world))
     = this (snd (@loadGatewayConfig posix_externals
                    "/srv/gw/tree-gateway.yml"
                    (with_this {| config := None; isLoaded := true |}
                       loaded_world))).
Proof.
  destruct (@reload_clears_then_installs posix_externals loaded_world)
    as [_ [_ [Hok [_ [Hrun _]]]]].
  assert (Hr : @reload posix_externals loaded_world
               = (Ok tt, snd (@reload posix_externals loaded_world)))
    by (vm_compute; reflexivity).
  split; [ apply (Hok _ Hr) | ].
  destruct (Hrun _ Hr) as [_ Hthis]. exact Hthis.
Defined.

(** C2, as it is stated, fails. The instance below was loaded with a
    gateway; its [reload] succeeds, and while it runs a reader finds the
    configuration absent: the getter fails instead of giving the previous
    gateway. *)
Lemma reload_exposes_cleared_configuration :
  fst (@reload posix_externals loaded_world) = Ok tt /\
  gateway (this loaded_world) = Ok (Some resolved_stored_gateway) /\
  In {| config := None; isLoaded := true |}
     (observed (@reload posix_externals) loaded_world) /\
  gateway {| config := None; isLoaded := true |} = Throw TypeError.
Proof.
  split; [ vm_compute; reflexivity | ].
  split; [ vm_compute; reflexivity | ].
  split; [ vm_compute; left; reflexivity | reflexivity ].
Qed.

(** ** The getters *)

(** C10. Only the getter of [gateway] checks that the configuration is
    loaded: before a load has succeeded it raises the error that tells to
    wait for the ['load'] event.  The getters of [rootPath],
    [middlewarePath] and [database] read the configuration whatever the
    flag says, and so fail on an absent configuration: before any load, and
    in the first state that a [reload] leaves to be seen. *)
Theorem only_gateway_checks_loaded `{Externals} :
  (forall c,
      gateway {| config := c; isLoaded := false |}
      = Throw (JsError "Configuration not loaded. Only access configurations after the Configuration 'load' event is fired."))
  /\ (forall a ps,
         gateway {| config := Some (JObj a ps); isLoaded := true |}
         = Ok (lookup "gateway" ps))
  /\ (forall a ps b,
         rootPath {| config := Some (JObj a ps); isLoaded := b |}
         = Ok (lookup "rootPath" ps) /\
         middlewarePath {| config := Some (JObj a ps); isLoaded := b |}
         = Ok (lookup "middlewarePath" ps) /\
         database {| config := Some (JObj a ps); isLoaded := b |}
         = Ok (lookup "database" ps))
  /\ (forall b,
         rootPath {| config := None; isLoaded := b |} = Throw TypeError /\
         middlewarePath {| config := None; isLoaded := b |} = Throw TypeError /\
         database {| config := None; isLoaded := b |} = Throw TypeError)
  /\ (forall w, exists i rest,
         observed reload w = i :: rest /\
         rootPath i = Throw TypeError /\
         middlewarePath i = Throw TypeError /\
         database i = Throw TypeError).
Proof.
  split; [ intros c; reflexivity | ].
  split; [ intros a ps; reflexivity | ].
  split; [ intros a ps b; repeat split | ].
  split; [ intros b; repeat split | ].
  intros w. destruct (reload_first_snapshot w) as [rest E].
  eexists; exists rest. split; [ exact E | repeat split ].
Qed.

(** ** The defaults of the paths *)

Lemma field_assign_field_same k x v :
  is_object v = true -> field k (assign_field k x v) = Some x.
Proof. destruct v; simpl; try discriminate. intros _. apply lookup_assign_same. Qed.

Lemma field_assign_field_other k k' x v :
  k <> k' -> field k (assign_field k' x v) = field k v.
Proof. intros Hne. destruct v; simpl; auto. apply lookup_assign_other; auto. Qed.

Lemma field_to_object k v : field k (to_object v) = field k v.
Proof. destruct v; reflexivity. Qed.

Lemma field_defaults_same k d v :
  field k (defaults v k d) = Some match field k v with Some x => x | None => d end.
Proof.
  unfold defaults. rewrite <- (field_to_object k v).
  destruct (to_object v) eqn:E; try (destruct v; discriminate).
  simpl. destruct (lookup k props) eqn:El; simpl; auto.
  apply lookup_assign_same.
Qed.

Lemma field_defaults_other k k' d v :
  k <> k' -> field k (defaults v k' d) = field k v.
Proof.
  intros Hne. unfold defaults. rewrite <- (field_to_object k v).
  destruct (to_object v) eqn:E; try (destruct v; discriminate).
  simpl. destruct (lookup k' props) eqn:El; simpl; auto.
  apply lookup_assign_other; auto.
Qed.

Lemma defaults_is_object v k d : is_object (defaults v k d) = true.
Proof.
  unfold defaults.
  destruct (to_object v) eqn:E; try (destruct v; discriminate).
  destruct (lookup k props); reflexivity.
Qed.

Lemma assign_field_is_object k x v :
  is_object (assign_field k x v) = is_object v.
Proof. destruct v; reflexivity. Qed.

(** ** The deep merge of the overlays *)

Lemma lookup_app k (l1 l2 : Props) :
  lookup k (l1 ++ l2)
  = match lookup k l1 with Some x => Some x | None => lookup k l2 end.
Proof.
  induction l1 as [ | [k' y] r IH ]; simpl; auto.
  destruct (String.eqb k k'); auto.
Qed.

Lemma defaultsDeep_leaf_object object source :
  is_object object = false -> defaultsDeep object source = object.
Proof. destruct source, object; simpl; intros; auto; discriminate. Qed.

Lemma defaultsDeep_leaf_source object source :
  is_object source = false -> defaultsDeep object source = object.
Proof. destruct source; simpl; intros; auto; discriminate. Qed.

Lemma truthy_defaultsDeep object source :
  truthy (defaultsDeep object source) = truthy object.
Proof. destruct source, object; reflexivity. Qed.

Lemma lookup_copy k a (own src : Props) :
  lookup k own = None ->
  lookup k
    ((fix copy (l : Props) : Props :=
        match l with
        | [] => []
        | (k, srcValue) :: r =>
            match lookup k own with
            | Some _ => copy r
            | None =>
                if inherited a k then copy r
                else (k, clone srcValue) :: copy r
            end
        end) src)
  = if inherited a k then None else option_map clone (lookup k src).
Proof.
  intros Hk.
  induction src as [ | [k' y] r IH ]; simpl.
  - destruct (inherited a k); reflexivity.
  - destruct (String.eqb k k') eqn:E1.
    + apply String.eqb_eq in E1; subst k'. rewrite Hk.
      destruct (inherited a k) eqn:Ei.
      * rewrite IH. reflexivity.
      * simpl. rewrite String.eqb_refl. reflexivity.
    + destruct (lookup k' own); [ exact IH | ].
      destruct (inherited a k'); [ exact IH | ].
      simpl. rewrite E1. exact IH.
Qed.

(** One level of the merge: a property of the object stays, merged with the
    one of the source when there is one; a property that the object lacks
    is a copy of the one of the source, unless the object inherits it. *)
Lemma lookup_defaultsDeep k a own b src :
  field k (defaultsDeep (JObj a own) (JObj b src))
  = match lookup k own with
    | Some objValue =>
        Some match lookup k src with
             | Some srcValue => defaultsDeep objValue srcValue
             | None => objValue
             end
    | None => if inherited a k then None else option_map clone (lookup k src)
    end.
Proof.
  simpl. rewrite lookup_app.
  assert (L1 : lookup k
                 (map (fun kv : string * JValue =>
                         (fst kv,
                          (fix from_source (l : Props) : JValue :=
                             match l with
                             | [] => snd kv
                             | (k', srcValue) :: r =>
                                 if String.eqb (fst kv) k'
                                 then defaultsDeep (snd kv) srcValue
                                 else from_source r
                             end) src)) own)
               = option_map
                   (fun objValue =>
                      match lookup k src with
                      | Some srcValue => defaultsDeep objValue srcValue
                      | None => objValue
                      end) (lookup k own)).
  { induction own as [ | [k' y] r IH ]; simpl; auto.
    destruct (String.eqb k k') eqn:E; auto.
    apply String.eqb_eq in E; subst k'. simpl. f_equal.
    clear. induction src as [ | [k' z] r IH ]; simpl; auto.
    destruct (String.eqb k k'); auto. }
  rewrite L1.
  destruct (lookup k own) eqn:E; simpl; auto.
  apply lookup_copy. exact E.
Qed.

Lemma get_cons_field k p v :
  get (k :: p) v = match field k v with Some x => get p x | None => None end.
Proof. destruct v; reflexivity. Qed.

(** Where the object holds a leaf, the merge holds that leaf. *)
Lemma defaultsDeep_wins p : forall object source v,
  get p object = Some v -> is_object v = false ->
  get p (defaultsDeep object source) = Some v.
Proof.
  induction p as [ | k p IH ]; intros object source v Hg Hv.
  - simpl in Hg. inversion Hg; subst v.
    rewrite defaultsDeep_leaf_object; auto.
  - destruct object as [ | | | | | a own ]; try discriminate.
    destruct source as [ | | | | | b src ]; try exact Hg.
    rewrite get_cons_field, lookup_defaultsDeep.
    simpl in Hg. destruct (lookup k own) as [x | ]; [ | discriminate ].
    destruct (lookup k src) as [y | ]; auto.
Qed.

(** Where the object holds a value, the merge holds that value merged
    with what the source holds at the same place. *)
Lemma defaultsDeep_defined p : forall object source v,
  get p object = Some v ->
  get p (defaultsDeep object source)
  = Some (defaultsDeep v (or_null (get p source))).
Proof.
  induction p as [ | k p IH ]; intros object source v Hg.
  - simpl in Hg. inversion Hg; subst v. reflexivity.
  - destruct object as [ | | | | | a own ]; try discriminate.
    destruct (is_object source) eqn:Es.
    + destruct source as [ | | | | | b src ]; try discriminate.
      rewrite get_cons_field, lookup_defaultsDeep.
      simpl in Hg. simpl.
      destruct (lookup k own) as [x | ]; [ | discriminate ].
      destruct (lookup k src) as [y | ]; [ apply IH; exact Hg | ].
      rewrite Hg. reflexivity.
    + rewrite defaultsDeep_leaf_source by exact Es. rewrite Hg.
      destruct source; try discriminate; reflexivity.
Qed.

Lemma omits_get p : forall v, omits p v = true -> get p v = None.
Proof.
  induction p as [ | k p IH ]; intros v Ho; [ discriminate | ].
  destruct v; try discriminate. simpl in *.
  destruct (lookup k props) as [x | ]; [ apply IH; exact Ho | reflexivity ].
Qed.

Lemma leaves_out_omits p : forall v, leaves_out p v = true -> omits p v = true.
Proof.
  induction p as [ | k p IH ]; intros v Ho; [ discriminate | ].
  destruct v; try discriminate. simpl in *.
  destruct (lookup k props) as [x | ]; [ apply IH; exact Ho | reflexivity ].
Qed.

Lemma plain_lookup k a ps y :
  plain (JObj a ps) = true -> lookup k ps = Some y ->
  inherited a k = false /\ plain y = true.
Proof.
  cbn [plain].
  induction ps as [ | [k' x] r IH ]; simpl; [ discriminate | ].
  intros Hp. apply andb_true_iff in Hp. destruct Hp as [Hx Hr].
  apply andb_true_iff in Hx. destruct Hx as [Hk Hx].
  destruct (String.eqb k k') eqn:E.
  - apply String.eqb_eq in E. subst k'. intros Ey; inversion Ey; subst y.
    split; [ apply negb_true_iff; exact Hk | exact Hx ].
  - apply IH. exact Hr.
Qed.

(** A copy of a plain value is that value. *)
Lemma clone_plain v : plain v = true -> clone v = v.
Proof.
  induction v using JValue_induction; try reflexivity.
  intros Hp. unfold clone. cbn [defaultsDeep map app]. f_equal.
  cbn [plain] in Hp.
  induction ps as [ | [k y] r IHr ]; [ reflexivity | ].
  inversion H; subst. simpl in Hp.
  apply andb_true_iff in Hp. destruct Hp as [Hy Hr].
  apply andb_true_iff in Hy. destruct Hy as [Hk Hy].
  apply negb_true_iff in Hk.
  cbn [lookup]. rewrite Hk.
  change (match y with
          | JObj b _ => defaultsDeep (JObj b []) y
          | _ => y
          end) with (clone y).
  simpl in H2. rewrite (H2 Hy). f_equal. apply IHr; assumption.
Qed.

(** Where the object leaves a key out, without inheriting it, the merge is
    the source, for a source that is plain. *)
Lemma defaultsDeep_falls_back p : forall object source,
  plain source = true ->
  leaves_out p object = true ->
  get p (defaultsDeep object source) = get p source.
Proof.
  induction p as [ | k p IH ]; intros object source Hs Ho; [ discriminate | ].
  destruct (is_object source) eqn:Es.
  - destruct source as [ | | | | | b src ]; try discriminate.
    destruct object as [ | | | | | a own ]; try discriminate.
    rewrite get_cons_field, lookup_defaultsDeep.
    simpl in Ho. simpl.
    destruct (lookup k own) as [x | ].
    + destruct (lookup k src) as [y | ] eqn:Ey.
      * apply IH; [ | exact Ho ].
        exact (proj2 (plain_lookup k b src y Hs Ey)).
      * apply omits_get, leaves_out_omits. exact Ho.
    + destruct (inherited a k); [ discriminate | ].
      destruct (lookup k src) as [y | ] eqn:Ey; [ | reflexivity ].
      simpl. rewrite clone_plain; [ reflexivity | ].
      exact (proj2 (plain_lookup k b src y Hs Ey)).
  - rewrite defaultsDeep_leaf_source by exact Es.
    rewrite (omits_get _ _ (leaves_out_omits _ _ Ho)).
    destruct source; try discriminate; reflexivity.
Qed.

(** Where the object inherits a key that it does not own, the merge does
    not take it from the source. *)
Lemma defaultsDeep_inherited k a own source :
  lookup k own = None -> inherited a k = true ->
  field k (defaultsDeep (JObj a own) source) = None.
Proof.
  intros Hk Hi.
  destruct source as [ | | | | | b src ]; try exact Hk.
  rewrite lookup_defaultsDeep, Hk, Hi. reflexivity.
Qed.

Lemma loadConfigObject_world `{Externals} name w :
  snd (loadConfigObject name w) = w.
Proof.
  unfold loadConfigObject, bind, read, parse_file, ret, existsSync.
  repeat match goal with
         | |- context [ match find_file ?n ?fs with _ => _ end ] =>
             destruct (find_file n fs) as [[?|]|]; simpl
         end; reflexivity.
Qed.

(** C7, as the code has it, for documents that are objects.  The merge of
    the environment overlay over the base: wherever the overlay defines a
    leaf the result has that leaf; wherever it defines an object the result
    has that object, merged in the same way with what the base has there;
    wherever it leaves a key out that it does not inherit the result is the
    base, at any depth, for a base that has no key named like a member that
    every object inherits; a key that the overlay inherits without owning
    it, such as [toString], is not taken from the base ([constructor] and
    [__proto__] are left aside).  The stage merges
    the file of the environment with this function, and when no environment
    name is set the base goes through as it is. *)
Theorem environment_overlay_merge `{Externals} :
  (forall base overlay p v,
      is_object overlay = true -> is_string base = false ->
      get p overlay = Some v -> is_object v = false ->
      get p (defaultsDeep overlay base) = Some v)
  /\ (forall base overlay p v,
         is_object overlay = true -> is_string base = false ->
         get p overlay = Some v ->
         get p (defaultsDeep overlay base)
         = Some (defaultsDeep v (or_null (get p base))))
  /\ (forall base overlay p,
         is_object overlay = true -> plain base = true ->
         is_string base = false ->
         leaves_out p overlay = true ->
         get p (defaultsDeep overlay base) = get p base)
  /\ (forall base a own k,
         lookup k own = None -> inherited a k = true ->
         k <> "constructor"%string -> k <> "__proto__"%string ->
         field k (defaultsDeep (JObj a own) base) = None)
  /\ (forall name w env base overlay,
         env_name (settings w) = Some env ->
         fst (loadConfigObject name w) = Ok base ->
         fst (loadConfigObject (name ++ "-" ++ env)%string w) = Ok overlay ->
         is_object overlay = true -> is_string base = false ->
         loadServerConfig name w = (Ok (defaultsDeep overlay base), w))
  /\ (forall name w base,
         env_name (settings w) = None ->
         fst (loadConfigObject name w) = Ok base ->
         truthy base = true ->
         loadServerConfig name w = (Ok base, w)).
Proof.
  split; [ intros base overlay p v _ _; apply defaultsDeep_wins | ].
  split; [ intros base overlay p v _ _; apply defaultsDeep_defined | ].
  split; [ intros base overlay p _ Hb _; apply defaultsDeep_falls_back;
           exact Hb | ].
  split; [ intros base a own k Hk Hi _ _; apply defaultsDeep_inherited;
           assumption | ].
  split.
  - intros name w env base overlay He Hb Ho Hobj _.
    assert (Ht : truthy overlay = true)
      by (destruct overlay; try discriminate; reflexivity).
    unfold loadServerConfig, bind, read.
    pose proof (loadConfigObject_world name w) as W1.
    destruct (loadConfigObject name w) as [r1 w1]. simpl in Hb, W1. subst r1 w1.
    rewrite He.
    pose proof (loadConfigObject_world (name ++ "-" ++ env)%string w) as W2.
    destruct (loadConfigObject (name ++ "-" ++ env)%string w) as [r2 w2].
    simpl in Ho, W2. subst r2 w2.
    rewrite Ht. unfold ret. rewrite truthy_defaultsDeep, Ht. reflexivity.
  - intros name w base He Hb Ht.
    unfold loadServerConfig, bind, read.
    pose proof (loadConfigObject_world name w) as W1.
    destruct (loadConfigObject name w) as [r1 w1]. simpl in Hb, W1. subst r1 w1.
    rewrite He. unfold ret. rewrite Ht. reflexivity.
Qed.

Lemma environment_overlay_merge_witness :
  get ["database"; "redis"; "standalone"; "host"]
    (defaultsDeep sample_overlay sample_base) = Some (JStr "redis.internal")
  /\ get ["database"; "redis"; "standalone"; "port"]
       (defaultsDeep sample_overlay sample_base) = Some (JNum 6379)
  /\ @loadServerConfig posix_externals "/srv/gw/tree-gateway" overlay_world
     = (Ok (defaultsDeep sample_overlay sample_base), overlay_world)
  /\ @loadServerConfig posix_externals "/srv/gw/tree-gateway"
       no_environment_world
     = (Ok sample_base, no_environment_world).
Proof.
  destruct (@environment_overlay_merge posix_externals)
    as [Hwins [_ [Hfalls [_ [Hmerge Hskip]]]]].
  split.
  { apply (Hwins sample_base sample_overlay
             ["database"; "redis"; "standalone"; "host"]); reflexivity. }
  split.
  { rewrite (Hfalls sample_base sample_overlay
               ["database"; "redis"; "standalone"; "port"]); reflexivity. }
  split.
  { apply (Hmerge "/srv/gw/tree-gateway" overlay_world "production");
      reflexivity. }
  apply (Hskip "/srv/gw/tree-gateway" no_environment_world); reflexivity.
Defined.

(** C7, as it is stated, fails.  The base file below has a key
    [toString]; the overlay leaves that key out, and the merge does not
    fall back to the base for it: read on the overlay, [toString] is not
    [undefined] but what every object inherits, so the merge has nothing to
    fill. *)
Lemma overlay_drops_inherited_key :
  @loadServerConfig posix_externals "/srv/gw/tree-gateway" inherited_key_world
  = (Ok (defaultsDeep sample_overlay sample_named_base), inherited_key_world)
  /\ omits ["toString"] sample_overlay = true
  /\ get ["toString"] sample_named_base = Some (JStr "base")
  /\ get ["toString"] (defaultsDeep sample_overlay sample_named_base) = None.
Proof. vm_compute. repeat split. Qed.

(** ** The overlay of the store *)

Lemma getConfigFromDB_stored `{Externals} (w : World) (a : bool) (ps : Props)
    (stored : JValue) :
  config (this w) = Some (JObj a ps) ->
  online (store w) = true ->
  savedGateway (store w) = Some stored ->
  truthy stored = true ->
  let merged := defaultsDeep stored (or_null (lookup "gateway" ps)) in
  let w1 :=
    suspend
      (with_this {| config := Some (JObj a (assign "gateway" merged ps));
                    isLoaded := isLoaded (this w) |} (suspend w)) in
  getConfigFromDB w
  = match validateGatewayConfig merged with
    | Ok _ =>
        (if negb (truthy (or_null (field "protocol" merged)))
         then Throw (JsError protocol_required_message) else Ok tt, w1)
    | Throw e => (Throw e, w1)
    end.
Proof.
  intros Hc Ho Hs Ht merged w1.
  unfold getConfigFromDB, mutate_config.
  unfold bind, await, gatewayService_get, this_config,
    set_config, change, lift, throw, ret.
  rewrite Ho, Hs. simpl. rewrite Hc. simpl. rewrite Ht. fold merged.
  simpl. rewrite Hc. simpl.
  destruct (validateGatewayConfig merged) as [[] | e]; simpl.
  - rewrite lookup_assign_same. simpl. fold w1.
    destruct (truthy (or_null (field "protocol" merged))); reflexivity.
  - reflexivity.
Qed.

(** C3, as the code has it, for a stored gateway that is an object.  The
    Store Overlay merges the stored gateway over the local one: wherever
    the stored value defines a leaf the merge has it, wherever it defines an
    object the merge has that object merged with the local one, wherever it
    leaves a key out that it does not inherit the merge is the local value,
    at any depth, for a local gateway that has no key named like a member
    that every object inherits; and a key that the stored value inherits
    without owning it is not taken from the local value ([constructor] and
    [__proto__] are left aside).  The merge becomes the gateway of the
    configuration.  The stage then ends as the validation of the merge
    ends when that fails; when the validation passes it fails with the
    error ["GatewayConfig protocol is required."] if the merge has no
    [protocol] (or a falsy one) and succeeds otherwise: without a protocol
    the resolution never succeeds. *)
Theorem store_overlay_merge `{Externals} (w : World) (a : bool) (ps : Props)
    (stored : JValue) :
  config (this w) = Some (JObj a ps) ->
  online (store w) = true ->
  savedGateway (store w) = Some stored ->
  is_object stored = true ->
  let local := or_null (lookup "gateway" ps) in
  let merged := defaultsDeep stored local in
  (forall p v, is_string local = false ->
               get p stored = Some v -> is_object v = false ->
               get p merged = Some v)
  /\ (forall p v, is_string local = false ->
                  get p stored = Some v ->
                  get p merged = Some (defaultsDeep v (or_null (get p local))))
  /\ (forall p, plain local = true -> is_string local = false ->
                leaves_out p stored = true ->
                get p merged = get p local)
  /\ (forall k b own,
         stored = JObj b own -> lookup k own = None -> inherited b k = true ->
         k <> "constructor"%string -> k <> "__proto__"%string ->
         field k merged = None)
  /\ config (this (snd (getConfigFromDB w)))
     = Some (JObj a (assign "gateway" merged ps))
  /\ fst (getConfigFromDB w)
     = match validateGatewayConfig merged with
       | Ok _ =>
           if truthy (or_null (field "protocol" merged)) then Ok tt
           else Throw (JsError "GatewayConfig protocol is required.")
       | Throw e => Throw e
       end
  /\ (truthy (or_null (field "protocol" merged)) = false ->
      fst (getConfigFromDB w) <> Ok tt).
Proof.
  intros Hc Ho Hs Hobj local merged.
  assert (Ht : truthy stored = true)
    by (destruct stored; try discriminate; reflexivity).
  split; [ intros p v _; apply defaultsDeep_wins | ].
  split; [ intros p v _; apply defaultsDeep_defined | ].
  split; [ intros p Hl _; apply defaultsDeep_falls_back; exact Hl | ].
  split.
  { intros k b own E Hk Hi _ _. unfold merged. rewrite E.
    apply defaultsDeep_inherited; assumption. }
  rewrite (getConfigFromDB_stored w a ps stored Hc Ho Hs Ht).
  fold local. fold merged.
  split; [ destruct (validateGatewayConfig merged); reflexivity | ].
  split.
  - destruct (validateGatewayConfig merged) as [u | e]; simpl;
      [ | reflexivity ].
    destruct (truthy (or_null (field "protocol" merged))); reflexivity.
  - intros Hp. rewrite Hp.
    destruct (validateGatewayConfig merged) as [u | e]; simpl; discriminate.
Qed.

Lemma store_overlay_merge_witness :
  let merged := defaultsDeep sample_stored_filters sample_local_gateway in
  get ["filter"] merged = Some (JStr "ip-filter")
  /\ get ["protocol"; "http"; "listenPort"] merged = Some (JNum 8080)
  /\ fst (@getConfigFromDB posix_externals
            (store_entry_world sample_base_with_gateway
               (Some sample_stored_filters))) = Ok tt
  /\ fst (@getConfigFromDB posix_externals
            (store_entry_world sample_base_bare_gateway
               (Some sample_stored_filters)))
     = Throw (JsError "GatewayConfig protocol is required.").
Proof.
  intros merged.
  destruct (@store_overlay_merge posix_externals
              (store_entry_world sample_base_with_gateway
                 (Some sample_stored_filters))
              false
              [("rootPath", JStr "/srv/gw"); ("database", sample_database);
               ("gateway", sample_local_gateway)]
              sample_stored_filters eq_refl eq_refl eq_refl eq_refl)
    as [Hwins [_ [Hfalls [_ [_ [Hends _]]]]]].
  destruct (@store_overlay_merge posix_externals
              (store_entry_world sample_base_bare_gateway
                 (Some sample_stored_filters))
              false
              [("rootPath", JStr "/srv/gw"); ("database", sample_database);
               ("gateway", sample_bare_gateway)]
              sample_stored_filters eq_refl eq_refl eq_refl eq_refl)
    as [_ [_ [_ [_ [_ [Hfails _]]]]]].
  split; [ apply Hwins; reflexivity | ].
  split.
  { exact (eq_trans
             (Hfalls ["protocol"; "http"; "listenPort"] eq_refl eq_refl
                eq_refl)
             eq_refl). }
  split; [ exact Hends | exact Hfails ].
Defined.

(** C3, as it is stated, fails.  The local gateway below has a key
    [valueOf]; the stored gateway leaves that key out, the resolution
    succeeds, and the merged gateway does not fall back to the local value
    for it. *)
Lemma stored_gateway_drops_inherited_key :
  let w := store_entry_world sample_base_named_gateway
             (Some sample_stored_filters) in
  omits ["valueOf"] sample_stored_filters = true
  /\ get ["valueOf"] sample_named_gateway = Some (JStr "local")
  /\ fst (@getConfigFromDB posix_externals w) = Ok tt
  /\ option_map (get ["gateway"; "valueOf"])
       (config (this (snd (@getConfigFromDB posix_externals w))))
     = Some None.
Proof. vm_compute. repeat split. Qed.



(** ** The Array Normalizer *)


Lemma normalized_array v : is_array v = true -> normalized v = v.
Proof. unfold normalized. intros E; rewrite E; reflexivity. Qed.


(** [castArray] is the update of the value at the path, where there is
    one. *)
Lemma castArray_update config property :
  castArray config property = update (toPath property) normalized config.
Proof.
  unfold castArray.
  destruct (get (toPath property) config) as [value | ] eqn:E.
  - destruct (is_array value) eqn:Ea.
    + symmetry. apply update_id. intros x Hx.
      rewrite E in Hx. inversion Hx; subst x. apply normalized_array; exact Ea.
    + apply update_ext. intros x Hx.
      rewrite E in Hx. inversion Hx; subst x.
      unfold normalized. rewrite Ea. reflexivity.
  - symmetry. apply update_id. intros x Hx. congruence.
Qed.

Lemma fold_left_same {A B} (f g : A -> B -> A) l : forall a,
  (forall a b, f a b = g a b) -> fold_left f l a = fold_left g l a.
Proof.
  induction l as [ | b l IH ]; intros a Hfg; simpl; auto.
  rewrite Hfg. apply IH. exact Hfg.
Qed.

Lemma fold_left_over_map {A B C} (f : A -> B -> A) (h : C -> B) l : forall a,
  fold_left f (map h l) a = fold_left (fun a c => f a (h c)) l a.
Proof. induction l as [ | c l IH ]; intros a; simpl; auto. Qed.

Lemma fold_left_over_flat_map {A B C} (f : A -> B -> A) (h : C -> list B) l :
  forall a,
  fold_left f (flat_map h l) a
  = fold_left (fun a c => fold_left f (h c) a) l a.
Proof.
  induction l as [ | c l IH ]; intros a; simpl; auto.
  rewrite fold_left_app. apply IH.
Qed.

Lemma get_cast_diverge p Q : forall server,
  (forall q, In q Q -> diverge p q = true) ->
  get p (fold_left cast_at Q server) = get p server.
Proof.
  induction Q as [ | q Q IH ]; intros server HQ; simpl; auto.
  rewrite IH by (intros q' Hq'; apply HQ; right; exact Hq').
  apply get_update_diverge. apply HQ. left; reflexivity.
Qed.


Lemma cast_cache_entry k server :
  update ["gateway"; "config"; "cache"; k]
    (fun entry => castArray entry "server.preserveHeaders") server
  = cast_at server
      ["gateway"; "config"; "cache"; k; "server"; "preserveHeaders"].
Proof.
  unfold cast_at.
  change ["gateway"; "config"; "cache"; k; "server"; "preserveHeaders"]
    with (["gateway"; "config"; "cache"; k] ++ ["server"; "preserveHeaders"]).
  rewrite update_app. apply update_ext. intros x _.
  apply castArray_update.
Qed.

Lemma cast_cors_entry k server :
  update ["gateway"; "config"; "cors"; k]
    (fun entry =>
       let entry := castArray entry "allowedHeaders" in
       let entry := castArray entry "exposedHeaders" in
       castArray entry "methods") server
  = fold_left cast_at
      [["gateway"; "config"; "cors"; k; "allowedHeaders"];
       ["gateway"; "config"; "cors"; k; "exposedHeaders"];
       ["gateway"; "config"; "cors"; k; "methods"]] server.
Proof.
  cbn [fold_left]. unfold cast_at.
  change ["gateway"; "config"; "cors"; k; "allowedHeaders"]
    with (["gateway"; "config"; "cors"; k] ++ ["allowedHeaders"]).
  change ["gateway"; "config"; "cors"; k; "exposedHeaders"]
    with (["gateway"; "config"; "cors"; k] ++ ["exposedHeaders"]).
  change ["gateway"; "config"; "cors"; k; "methods"]
    with (["gateway"; "config"; "cors"; k] ++ ["methods"]).
  rewrite !update_app, !update_update.
  apply update_ext. intros x _.
  rewrite !castArray_update. reflexivity.
Qed.





Lemma fixed_diverge_from_config p :
  (exists m, p = "gateway" :: "config" :: m) ->
  forall q, In q fixed_targets -> diverge p q = true.
Proof.
  intros [m E] q Hq. subst p.
  repeat (destruct Hq as [Hq | Hq]; [ subst q; reflexivity | ]).
  destruct Hq.
Qed.

Lemma cache_diverge_from_cors server :
  forall q, In q (cache_targets server) ->
            diverge ["gateway"; "config"; "cors"] q = true.
Proof.
  intros q Hq. unfold cache_targets in Hq. apply in_map_iff in Hq.
  destruct Hq as [k [E _]]. subst q. reflexivity.
Qed.

Lemma fixed_fold server :
  update (toPath "gateway.accessLogger.console.stderrLevels") normalized
    (update (toPath "gateway.logger.console.stderrLevels") normalized
       (update (toPath "gateway.serviceDiscovery.provider") normalized
          (update (toPath "gateway.admin.filter") normalized
             (update (toPath "gateway.filter") normalized
                (update (toPath "database.redis.sentinel.nodes") normalized
                   (update (toPath "database.redis.cluster") normalized
                      server))))))
  = fold_left cast_at fixed_targets server.
Proof.
  unfold fixed_targets. cbn [map fold_left]. unfold cast_at. reflexivity.
Qed.


Lemma in_cache_targets server q :
  In q (cache_targets server) ->
  exists k, q = ["gateway"; "config"; "cache"; k; "server"; "preserveHeaders"].
Proof.
  unfold cache_targets. intros Hq. apply in_map_iff in Hq.
  destruct Hq as [k [E _]]. exists k. symmetry; exact E.
Qed.

Lemma in_cors_targets server q :
  In q (cors_targets server) ->
  exists k h,
    q = ["gateway"; "config"; "cors"; k; h] /\
    (h = "allowedHeaders" \/ h = "exposedHeaders" \/ h = "methods").
Proof.
  unfold cors_targets. intros Hq. apply in_flat_map in Hq.
  destruct Hq as [k [_ Hq]]. exists k.
  destruct Hq as [E | [E | [E | []]]]; subst q; eexists; split;
    try reflexivity; auto.
Qed.

Lemma fixed_targets_eq :
  fixed_targets
  = [["database"; "redis"; "cluster"];
     ["database"; "redis"; "sentinel"; "nodes"];
     ["gateway"; "filter"];
     ["gateway"; "admin"; "filter"];
     ["gateway"; "serviceDiscovery"; "provider"];
     ["gateway"; "logger"; "console"; "stderrLevels"];
     ["gateway"; "accessLogger"; "console"; "stderrLevels"]].
Proof. vm_compute. reflexivity. Qed.

(** Every target starts at [database] or at [gateway]. *)
Lemma targets_start server q :
  In q (fixed_targets ++ cache_targets server ++ cors_targets server) ->
  exists h r, q = h :: r /\ (h = "database" \/ h = "gateway").
Proof.
  intros Hq. apply in_app_or in Hq. destruct Hq as [Hq | Hq].
  - rewrite fixed_targets_eq in Hq. simpl in Hq.
    repeat (destruct Hq as [Hq | Hq];
            [ subst q; eexists; eexists; split; [ reflexivity | tauto ] | ]).
    contradiction.
  - apply in_app_or in Hq. destruct Hq as [Hq | Hq].
    + apply in_cache_targets in Hq. destruct Hq as [k E]. subst q.
      eexists; eexists; split; [ reflexivity | tauto ].
    + apply in_cors_targets in Hq. destruct Hq as [k [h [E _]]]. subst q.
      eexists; eexists; split; [ reflexivity | tauto ].
Qed.

Lemma get_one k v : get [k] v = field k v.
Proof. destruct v; simpl; auto. destruct (lookup k props); reflexivity. Qed.



(** The targets after the fixed paths, and after those of the [cache] map,
    are the ones of the configuration as it came. *)
Lemma cache_targets_fixed server :
  cache_targets (fold_left cast_at fixed_targets server)
  = cache_targets server.
Proof.
  unfold cache_targets. rewrite get_cast_diverge; [ reflexivity | ].
  apply fixed_diverge_from_config. eexists; reflexivity.
Qed.


Lemma gateway_config_get name s v :
  gateway_config name s = Ok v -> v = get ["gateway"; "config"; name] s.
Proof.
  unfold gateway_config, property, and_then.
  destruct s as [ | | | | | a ps ]; try discriminate. simpl.
  destruct (lookup "gateway" ps) as [g | ]; [ | discriminate ].
  destruct g as [ | | | | | b gs ]; try discriminate. simpl.
  destruct (lookup "config" gs) as [c | ]; [ | discriminate ].
  destruct c as [ | | | | | d cs ]; try discriminate; simpl;
    intros E; inversion E; try reflexivity.
  destruct (lookup name cs); reflexivity.
Qed.

(** However it ends, [castArrays] has normalised along some of its
    targets. *)
Lemma castArrays_some_fold server :
  exists Q,
    snd (castArrays server) = fold_left cast_at Q server
    /\ (forall q, In q Q -> In q (targets server)).
Proof.
  unfold castArrays, targets. cbv zeta.
  rewrite 7 castArray_update. rewrite fixed_fold.
  set (s7 := fold_left cast_at fixed_targets server).
  assert (E7 : cache_targets s7 = cache_targets server)
    by apply cache_targets_fixed.
  assert (Cache : forall cache,
            gateway_config "cache" s7 = Ok cache ->
            fold_left
              (fun server cacheKey =>
                 update ["gateway"; "config"; "cache"; cacheKey]
                   (fun entry => castArray entry "server.preserveHeaders")
                   server) (keys (or_null cache)) s7
            = fold_left cast_at (fixed_targets ++ cache_targets server) server).
  { intros cache Hc. apply gateway_config_get in Hc. subst cache.
    rewrite fold_left_app. fold s7. rewrite <- E7.
    unfold cache_targets. rewrite fold_left_over_map.
    apply fold_left_same. intros a k. apply cast_cache_entry. }
  assert (Cors : forall Q cors,
            (forall q, In q Q ->
               diverge ["gateway"; "config"; "cors"] q = true) ->
            gateway_config "cors" (fold_left cast_at Q server) = Ok cors ->
            fold_left
              (fun server corsKey =>
                 update ["gateway"; "config"; "cors"; corsKey]
                   (fun entry =>
                      castArray
                        (castArray (castArray entry "allowedHeaders")
                           "exposedHeaders") "methods") server)
              (keys (or_null cors)) (fold_left cast_at Q server)
            = fold_left cast_at (Q ++ cors_targets server) server).
  { intros Q cors HQ Hc. apply gateway_config_get in Hc. subst cors.
    rewrite get_cast_diverge by exact HQ.
    rewrite fold_left_app. unfold cors_targets.
    rewrite fold_left_over_flat_map.
    apply fold_left_same. intros a k. apply cast_cors_entry. }
  assert (Step : forall Q,
            (forall q, In q Q ->
               diverge ["gateway"; "config"; "cors"] q = true) ->
            (forall q, In q Q ->
               In q (fixed_targets ++ cache_targets server
                     ++ cors_targets server)) ->
            exists Q',
              snd (if has_path (fold_left cast_at Q server)
                        "gateway.config.cors"
                   then
                     match gateway_config "cors" (fold_left cast_at Q server)
                     with
                     | Ok cors =>
                         (Ok tt,
                          fold_left
                            (fun server corsKey =>
                               update ["gateway"; "config"; "cors"; corsKey]
                                 (fun entry =>
                                    castArray
                                      (castArray
                                         (castArray entry "allowedHeaders")
                                         "exposedHeaders") "methods") server)
                            (keys (or_null cors)) (fold_left cast_at Q server))
                     | Throw e => (Throw e, fold_left cast_at Q server)
                     end
                   else (Ok tt, fold_left cast_at Q server))
              = fold_left cast_at Q' server
              /\ (forall q, In q Q' ->
                    In q (fixed_targets ++ cache_targets server
                          ++ cors_targets server))).
  { intros Q HD HQ.
    destruct (has_path (fold_left cast_at Q server) "gateway.config.cors");
      [ | exists Q; split; [ reflexivity | exact HQ ] ].
    destruct (gateway_config "cors" (fold_left cast_at Q server))
      as [cors | e] eqn:Ec; [ | exists Q; split; [ reflexivity | exact HQ ] ].
    exists (Q ++ cors_targets server).
    split; [ apply Cors; assumption | ].
    intros q Hq. apply in_app_or in Hq.
    destruct Hq as [Hq | Hq]; [ apply HQ; exact Hq | ].
    apply in_or_app. right. apply in_or_app. right. exact Hq. }
  assert (D7 : forall q, In q fixed_targets ->
            diverge ["gateway"; "config"; "cors"] q = true)
    by (apply fixed_diverge_from_config; eexists; reflexivity).
  assert (In7 : forall q, In q fixed_targets ->
            In q (fixed_targets ++ cache_targets server
                  ++ cors_targets server))
    by (intros q Hq; apply in_or_app; left; exact Hq).
  assert (D8 : forall q, In q (fixed_targets ++ cache_targets server) ->
            diverge ["gateway"; "config"; "cors"] q = true).
  { intros q Hq. apply in_app_or in Hq.
    destruct Hq as [Hq | Hq];
      [ apply D7; exact Hq | apply (cache_diverge_from_cors server q Hq) ]. }
  assert (In8 : forall q, In q (fixed_targets ++ cache_targets server) ->
            In q (fixed_targets ++ cache_targets server
                  ++ cors_targets server)).
  { intros q Hq. apply in_app_or in Hq. apply in_or_app.
    destruct Hq as [Hq | Hq]; [ left; exact Hq | right ].
    apply in_or_app. left; exact Hq. }
  destruct (has_path s7 "gateway.config.cache").
  - destruct (gateway_config "cache" s7) as [cache | e] eqn:Ec.
    + rewrite (Cache cache eq_refl). apply Step; assumption.
    + simpl. exists fixed_targets. split; [ reflexivity | exact In7 ].
  - apply Step; assumption.
Qed.

Lemma castArrays_heads server :
  exists Q,
    snd (castArrays server) = fold_left cast_at Q server
    /\ (forall q, In q Q ->
          exists h r, q = h :: r /\ (h = "database" \/ h = "gateway")).
Proof.
  destruct (castArrays_some_fold server) as [Q [E HQ]].
  exists Q. split; [ exact E | ].
  intros q Hq. apply (targets_start server). apply HQ. exact Hq.
Qed.














(** ** The Bootstrap Provider *)

(** C5, as it is stated, fails. Started in ["/app"] with the path
    ["./app-config"] and no file at all, [load] runs the Bootstrap Provider
    and succeeds, but the file is written at ["/app/tree-gateway.yaml"]:
    there is no file at ["/app/app-config"] with any of the three
    extensions, and the next start with the same path runs the Bootstrap
    Provider again. *)
Lemma bootstrap_misses_configured_path :
  let w1 := snd (@load posix_externals empty_directory_world) in
  fst (@load posix_externals empty_directory_world) = Ok tt /\
  isLoaded (this w1) = true /\
  filter is_bootstrap (effects w1)
  = [Prompt; WriteFile "/app/tree-gateway.yaml" sample_generated] /\
  files w1 = [("/app/tree-gateway.yaml", Parsed sample_generated)] /\
  existsSync "/app/app-config.yml" w1 = false /\
  existsSync "/app/app-config.yaml" w1 = false /\
  existsSync "/app/app-config.json" w1 = false /\
  filter is_bootstrap (effects (snd (@load posix_externals (restart w1))))
  = [Prompt; WriteFile "/app/tree-gateway.yaml" sample_generated;
     Prompt; WriteFile "/app/tree-gateway.yaml" sample_generated].
Proof. vm_compute. repeat split. Qed.

Lemma append_inj_l s a b : (s ++ a)%string = (s ++ b)%string -> a = b.
Proof.
  induction s as [ | c s IH ]; simpl; intros E; auto.
  inversion E. auto.
Qed.

Lemma find_file_new name target f fs :
  name <> target ->
  find_file name ((target, f) :: fs) = find_file name fs.
Proof.
  intros Hne. simpl. destruct (String.eqb name target) eqn:E; auto.
  apply String.eqb_eq in E. contradiction.
Qed.

Lemma string_app_assoc (a b c : string) :
  ((a ++ b) ++ c)%string = (a ++ (b ++ c))%string.
Proof. induction a as [ | x a IH ]; simpl; congruence. Qed.

Lemma createRedisConfiguration_object `{Externals} config a generated :
  createRedisConfiguration config a = Ok generated ->
  is_object generated = true.
Proof.
  unfold createRedisConfiguration.
  destruct (field "database" config) as [[ | | | | | arr ps ] | ] eqn:E;
    try discriminate.
  intros Hg. inversion Hg.
  destruct config; try discriminate. reflexivity.
Qed.

Lemma loadConfigObject_none `{Externals} n w :
  existsSync (n ++ ".yml")%string w = false ->
  existsSync (n ++ ".yaml")%string w = false ->
  existsSync (n ++ ".json")%string w = false ->
  loadConfigObject n w = (Ok JNull, w).
Proof.
  intros H1 H2 H3. unfold loadConfigObject, bind, read.
  rewrite H1, H2, H3. reflexivity.
Qed.

Section After.

Context (R : World -> World -> Prop) `{Frame R}.

Lemma after_bind A B (m : M A) (k : A -> M B) w :
  (forall a, keeps R (k a)) -> R (snd (m w)) (snd (bind m k w)).
Proof.
  intros Hk. unfold bind.
  destruct (m w) as [[a | e] w1]; simpl; [ apply Hk | apply frame_refl ].
Qed.

Lemma after_await A (m : M A) w : R (snd (m w)) (snd (await m w)).
Proof.
  unfold await. destruct (m w) as [r w1]; simpl. apply frame_suspend.
Qed.

Lemma after_try_catch A (m : M A) (h : Error -> M A) w :
  (forall e, keeps R (h e)) -> R (snd (m w)) (snd (try_catch m h w)).
Proof.
  intros Hh. unfold try_catch.
  destruct (m w) as [[a | e] w1]; simpl; [ apply frame_refl | apply Hh ].
Qed.

End After.

Section KeepsAfter.

Context `{Externals}.

Local Hint Resolve files_kept_loadDatabaseConfig files_kept_resolveHttpsPaths
  : keeps.

(** After the file layers, a resolution touches no file and asks
    nothing. *)
Lemma loadGatewayConfig_keeps_files file w :
  files_kept
    (suspend (snd (loadServerConfig (configFileNameOf (cwd (settings w)) file) w)))
    (snd (loadGatewayConfig file w)).
Proof.
  unfold loadGatewayConfig.
  unfold bind at 1. unfold read at 1.
  set (name := configFileNameOf (cwd (settings w)) file).
  unfold bind at 1. unfold await at 1.
  destruct (loadServerConfig name w) as [[raw | e] w1]; simpl snd;
    [ | apply frame_refl ].
  match goal with
  | |- files_kept ?a (snd (?k ?a)) =>
      assert (Hk : keeps files_kept k) by keeps_all; apply Hk
  end.
Qed.

Lemma load_keeps_files w :
  isLoaded (this w) = false ->
  files_kept (snd (loadGatewayConfig (gatewayConfigFileOrDefault (settings w)) w))
    (snd (load w)).
Proof.
  intros Hl. unfold load.
  unfold bind at 1. unfold read at 1. rewrite Hl.
  change (negb false) with true. cbv iota.
  eapply frame_trans; [ | apply (after_try_catch files_kept); keeps_all ].
  unfold bind at 1. unfold read at 1.
  eapply frame_trans; [ | apply (after_bind files_kept); keeps_all ].
  apply (after_await files_kept).
Qed.

End KeepsAfter.

Section Bootstrap.

Context `{Externals}.

Variable w : World.
Variable name : string.
Variable a : Answers.
Variable generated : JValue.

Local Abbreviation target := (bootstrapFilePath (cwd (settings w))).

Hypothesis no_yml : existsSync (name ++ ".yml")%string w = false.
Hypothesis no_yaml : existsSync (name ++ ".yaml")%string w = false.
Hypothesis no_json : existsSync (name ++ ".json")%string w = false.
Hypothesis no_overlay :
  forall env, env_name (settings w) = Some env ->
    existsSync ((name ++ "-" ++ env) ++ ".yml")%string w = false /\
    existsSync ((name ++ "-" ++ env) ++ ".yaml")%string w = false /\
    existsSync ((name ++ "-" ++ env) ++ ".json")%string w = false.
Hypothesis answered : answers (settings w) = Ok a.
Hypothesis can_write : writable (settings w) = true.
Hypothesis generates :
  createRedisConfiguration serverDefaultTemplate a = Ok generated.

(** With no file to read, the file layers end in the Bootstrap Provider:
    one prompt, one file written in the working directory. *)
Lemma loadServerConfig_bootstrap :
  loadServerConfig name w
  = (Ok generated,
     suspend
       (suspend
          (log_effect (WriteFile target generated)
             (with_files ((target, Parsed generated) :: files w)
                (suspend (log_effect Prompt w)))))).
Proof.
  unfold loadServerConfig.
  unfold bind at 1.
  rewrite (loadConfigObject_none name w no_yml no_yaml no_json).
  unfold bind at 1. unfold read at 1.
  assert (E1 : (config <-
                  match env_name (settings w) with
                  | Some name0 =>
                      envConfig <- loadConfigObject (name ++ "-" ++ name0)%string;;
                      (if truthy envConfig
                       then ret (defaultsDeep envConfig JNull)
                       else ret JNull)
                  | None => ret JNull
                  end;;
                (if negb (truthy config)
                 then await loadDefaultServerConfig
                 else ret config)) w
               = await loadDefaultServerConfig w).
  { unfold bind at 1.
    destruct (env_name (settings w)) as [env | ] eqn:Ee.
    - destruct (no_overlay env eq_refl) as [H1 [H2 H3]].
      unfold bind at 1. rewrite (loadConfigObject_none _ w H1 H2 H3).
      reflexivity.
    - reflexivity. }
  rewrite E1. clear E1.
  unfold await at 1, loadDefaultServerConfig.
  unfold bind, read, await, askRedisOptions, lift, writeFile, ret.
  rewrite answered. simpl. rewrite generates. simpl. rewrite can_write.
  reflexivity.
Qed.

Lemma existsSync_after_write n w2 :
  files w2 = (target, Parsed generated) :: files w ->
  n <> target ->
  existsSync n w2 = existsSync n w.
Proof.
  intros Hf Hne. unfold existsSync. rewrite Hf, find_file_new; auto.
Qed.

(** Once the file is written, the file layers find it under the name
    ["tree-gateway"] of the working directory, and do not ask again. *)
Lemma loadServerConfig_finds w2 :
  files w2 = (target, Parsed generated) :: files w ->
  settings w2 = settings w ->
  (name ++ ".yaml")%string = target ->
  loadConfigObject name w2 = (Ok generated, w2) /\
  loadServerConfig name w2 = (Ok generated, w2).
Proof.
  intros Hf Hs Ht.
  assert (Hobj : truthy generated = true).
  { pose proof (createRedisConfiguration_object _ _ _ generates) as Ho.
    destruct generated; try discriminate. reflexivity. }
  assert (E1 : loadConfigObject name w2 = (Ok generated, w2)).
  { unfold loadConfigObject, bind, read.
    rewrite (existsSync_after_write _ w2 Hf), no_yml.
    - unfold existsSync, parse_file. rewrite Hf, Ht. simpl.
      rewrite String.eqb_refl, Hf. simpl. rewrite String.eqb_refl. reflexivity.
    - rewrite <- Ht. intros E. apply append_inj_l in E. discriminate. }
  split; [ exact E1 | ].
  unfold loadServerConfig.
  unfold bind at 1. rewrite E1.
  unfold bind at 1. unfold read at 1. rewrite Hs.
  unfold bind at 1.
  destruct (env_name (settings w)) as [env | ] eqn:Ee.
  - destruct (no_overlay env eq_refl) as [H1 [H2 H3]].
    assert (E2 : loadConfigObject (name ++ "-" ++ env)%string w2 = (Ok JNull, w2)).
    { apply loadConfigObject_none;
        (rewrite (existsSync_after_write _ w2 Hf); [ assumption | ]);
        rewrite <- Ht, string_app_assoc; intros E;
        apply append_inj_l in E; discriminate. }
    unfold bind at 1. rewrite E2. simpl. unfold ret. rewrite Hobj. reflexivity.
  - unfold ret. rewrite Hobj. reflexivity.
Qed.

(** C5, as the code has it. With no file under the configured name in any
    of the three formats and no overlay file, [load] runs the Bootstrap
    Provider once; the generated configuration is written to
    ["tree-gateway.yaml"] in the working directory, whatever the configured
    path is; and when the configured name is that of this file, a later
    resolution finds the file and does not run the Bootstrap Provider
    again. *)
Theorem bootstrap_writes_default_file :
  isLoaded (this w) = false ->
  name = configFileNameOf (cwd (settings w))
           (gatewayConfigFileOrDefault (settings w)) ->
  files (snd (load w)) = (target, Parsed generated) :: files w /\
  filter is_bootstrap (effects (snd (load w)))
  = filter is_bootstrap (effects w) ++ [Prompt; WriteFile target generated] /\
  ((name ++ ".yaml")%string = target ->
   forall w2,
     files w2 = files (snd (load w)) ->
     settings w2 = settings w ->
     loadConfigObject name w2 = (Ok generated, w2) /\
     filter is_bootstrap
       (effects (snd (loadGatewayConfig
                        (gatewayConfigFileOrDefault (settings w)) w2)))
     = filter is_bootstrap (effects w2)).
Proof.
  intros Hl Hname.
  destruct (load_keeps_files w Hl) as [F1 [S1 E1]].
  destruct (loadGatewayConfig_keeps_files
              (gatewayConfigFileOrDefault (settings w)) w) as [F2 [S2 E2]].
  rewrite <- Hname, loadServerConfig_bootstrap in F2, S2, E2.
  simpl in F2, E2.
  assert (Hfiles : files (snd (load w)) = (target, Parsed generated) :: files w)
    by congruence.
  split; [ exact Hfiles | ].
  split.
  { rewrite E1, E2, !filter_app. simpl. rewrite <- app_assoc. reflexivity. }
  intros Ht w2 Hf Hs.
  rewrite Hfiles in Hf.
  destruct (loadServerConfig_finds w2 Hf Hs Ht) as [L1 L2].
  split; [ exact L1 | ].
  destruct (loadGatewayConfig_keeps_files
              (gatewayConfigFileOrDefault (settings w)) w2) as [_ [_ E3]].
  rewrite Hs, <- Hname, L2 in E3. exact E3.
Qed.

End Bootstrap.

Lemma bootstrap_writes_default_file_witness :
  files (snd (@load posix_externals default_path_world))
  = [("/app/tree-gateway.yaml", Parsed sample_generated)]
  /\ filter is_bootstrap (effects (snd (@load posix_externals default_path_world)))
     = [Prompt; WriteFile "/app/tree-gateway.yaml" sample_generated]
  /\ filter is_bootstrap
       (effects (snd (@loadGatewayConfig posix_externals "/app/tree-gateway.json"
                        second_start_world)))
     = filter is_bootstrap (effects second_start_world).
Proof.
  destruct (@bootstrap_writes_default_file posix_externals
              default_path_world "/app/tree-gateway" sample_answers
              sample_generated
              eq_refl eq_refl eq_refl
              (fun env _ => conj eq_refl (conj eq_refl eq_refl))
              eq_refl eq_refl eq_refl eq_refl eq_refl)
    as [H1 [H2 H3]].
  split; [ exact H1 | ]. split; [ exact H2 | ].
  assert (Hfiles : files second_start_world
                   = files (snd (@load posix_externals default_path_world)))
    by (vm_compute; reflexivity).
  destruct (H3 eq_refl second_start_world Hfiles eq_refl) as [_ H4].
  exact H4.
Defined.

(** ** The order of the stages *)

Lemma defaultPaths_object `{Externals} name v out :
  defaultPaths name v = Ok out -> is_object out = true.
Proof.
  unfold defaultPaths.
  set (sc1 := defaults v "rootPath" (JStr (path_dirname name))).
  assert (O1 : is_object sc1 = true) by apply defaults_is_object.
  clearbody sc1.
  destruct (startsWithDot (or_null (field "rootPath" sc1))).
  - destruct (join_values (JStr (path_dirname name))
                (or_null (field "rootPath" sc1))) as [p | e]; simpl;
      [ | discriminate ].
    set (sc2 := assign_field "rootPath" (JStr p) sc1).
    destruct (join_values (or_null (field "rootPath" sc2)) (JStr "middleware"))
      as [d | e]; simpl; [ | discriminate ].
    set (sc3 := defaults sc2 "middlewarePath" (JStr d)).
    assert (O3 : is_object sc3 = true) by apply defaults_is_object.
    clearbody sc3.
    destruct (startsWithDot (or_null (field "middlewarePath" sc3))).
    + destruct (join_values (or_null (field "rootPath" sc3))
                  (or_null (field "middlewarePath" sc3))) as [q | e]; simpl;
        [ | discriminate ].
      intros E; inversion E. rewrite assign_field_is_object. exact O3.
    + intros E; inversion E; subst. exact O3.
  - simpl.
    destruct (join_values (or_null (field "rootPath" sc1)) (JStr "middleware"))
      as [d | e]; simpl; [ | discriminate ].
    set (sc3 := defaults sc1 "middlewarePath" (JStr d)).
    assert (O3 : is_object sc3 = true) by apply defaults_is_object.
    clearbody sc3.
    destruct (startsWithDot (or_null (field "middlewarePath" sc3))).
    + destruct (join_values (or_null (field "rootPath" sc3))
                  (or_null (field "middlewarePath" sc3))) as [q | e]; simpl;
        [ | discriminate ].
      intros E; inversion E. rewrite assign_field_is_object. exact O3.
    + intros E; inversion E; subst. exact O3.
Qed.

Lemma deepMapValues_object f v :
  is_object v = true -> is_object (deepMapValues f v) = true.
Proof.
  destruct v; simpl; intros E; try discriminate.
  destruct isArray; reflexivity.
Qed.

Lemma fold_cast_object Q : forall v,
  is_object v = true -> is_object (fold_left cast_at Q v) = true.
Proof.
  induction Q as [ | q Q IH ]; intros v Hv; simpl; auto.
  apply IH. unfold cast_at.
  destruct q as [ | k q ]; simpl.
  - unfold normalized. destruct (is_array v); auto.
  - destruct v; auto.
Qed.

Lemma castArrays_object v :
  is_object v = true -> is_object (snd (castArrays v)) = true.
Proof.
  intros Hv. destruct (castArrays_some_fold v) as [Q [E _]].
  rewrite E. apply fold_cast_object. exact Hv.
Qed.

(** What [loadGatewayConfig] does, stage after stage, however it ends. *)
Lemma loadGatewayConfig_stages `{Externals} (file : string) (w : World) :
  let name := configFileNameOf (cwd (settings w)) file in
  loadGatewayConfig file w
  = match loadServerConfig name w with
    | (Ok raw, w1) =>
        match validateServerConfig raw with
        | Ok validated =>
            match defaultPaths name validated with
            | Ok defaulted =>
                let interpolated := deepMapValues checkEnvVariable defaulted in
                let installed c :=
                  with_this {| config := Some c;
                               isLoaded := isLoaded (this w1) |}
                    (suspend (suspend w1)) in
                match castArrays interpolated with
                | (Ok _, normalised) =>
                    match loadDatabaseConfig (installed normalised) with
                    | (Ok _, w2) => resolveHttpsPaths (suspend w2)
                    | (Throw e, w2) => (Throw e, suspend w2)
                    end
                | (Throw e, partly) => (Throw e, installed partly)
                end
            | Throw e => (Throw e, suspend (suspend w1))
            end
        | Throw e => (Throw e, suspend (suspend w1))
        end
    | (Throw e, w1) => (Throw e, suspend w1)
    end.
Proof.
  intros name. unfold loadGatewayConfig.
  unfold bind at 1. unfold read at 1. fold name.
  unfold bind at 1. unfold await at 1.
  destruct (loadServerConfig name w) as [[raw | e] w1]; [ | reflexivity ].
  unfold bind at 1. unfold await at 1, lift at 1.
  destruct (validateServerConfig raw) as [validated | e]; [ | reflexivity ].
  unfold bind at 1. unfold lift at 1.
  destruct (defaultPaths name validated) as [defaulted | e] eqn:Ed;
    [ | reflexivity ].
  pose proof (defaultPaths_object _ _ _ Ed) as Ho.
  apply (deepMapValues_object checkEnvVariable) in Ho.
  cbv zeta.
  set (interpolated := deepMapValues checkEnvVariable defaulted) in *.
  unfold bind at 1. unfold set_config at 1, change at 1.
  unfold bind at 1. unfold mutate_config_by at 1, bind at 1, this_config at 1.
  simpl config.
  destruct interpolated as [ | | | | | arr ps ] eqn:Ei; try discriminate.
  simpl deref. cbv iota beta.
  destruct (castArrays (JObj arr ps)) as [[[] | e] normalised].
  - unfold bind at 1. unfold set_config, change, lift. simpl.
    match goal with
    | |- context [ with_this ?i (with_this ?j ?x) ] =>
        change (with_this i (with_this j x)) with (with_this i x)
    end.
    unfold bind at 1. unfold await at 1.
    match goal with
    | |- context [ loadDatabaseConfig ?x ] =>
        destruct (loadDatabaseConfig x) as [[[] | e] w2]; reflexivity
    end.
  - unfold bind at 1. unfold set_config, change, lift. simpl. reflexivity.
Qed.

(** The file layers: what the Format Loader reads is what the
    Environment Overlay is merged over, and the Bootstrap Provider runs
    when the two leave nothing. *)
Lemma loadServerConfig_layers `{Externals} (name : string) (w : World) :
  loadServerConfig name w
  = match fst (loadConfigObject name w) with
    | Ok base =>
        match env_name (settings w) with
        | Some env =>
            match fst (loadConfigObject (name ++ "-" ++ env)%string w) with
            | Ok overlay =>
                let config :=
                  if truthy overlay then defaultsDeep overlay base else base in
                if truthy config then (Ok config, w)
                else await loadDefaultServerConfig w
            | Throw e => (Throw e, w)
            end
        | None =>
            if truthy base then (Ok base, w)
            else await loadDefaultServerConfig w
        end
    | Throw e => (Throw e, w)
    end.
Proof.
  unfold loadServerConfig.
  unfold bind at 1.
  pose proof (loadConfigObject_world name w) as W1.
  destruct (loadConfigObject name w) as [[base | e] w1]; simpl in W1; subst w1;
    unfold fst; [ | reflexivity ].
  unfold bind at 1. unfold read at 1.
  destruct (env_name (settings w)) as [env | ].
  - unfold bind at 1. unfold bind at 1.
    pose proof (loadConfigObject_world (name ++ "-" ++ env)%string w) as W2.
    destruct (loadConfigObject (name ++ "-" ++ env)%string w)
      as [[overlay | e] w2]; simpl in W2; subst w2; unfold fst;
      [ | reflexivity ].
    cbv zeta. destruct (truthy overlay); unfold ret;
      match goal with
      | |- context [ truthy ?c ] => destruct (truthy c); reflexivity
      end.
  - unfold bind at 1. unfold ret at 1.
    destruct (truthy base); reflexivity.
Qed.

(** C1, as the code has it. The file layers run first, the Format Loader
    before the Environment Overlay, with the Bootstrap Provider when there
    is nothing to read; and a resolution succeeds exactly when its stages
    succeed one after the other in this order, each on what the one before
    gives: the file layers, the validation, the defaults of [rootPath] and
    [middlewarePath], the interpolation of the variables, the normalisation
    of the arrays, the overlay of the store, and last the paths of the TLS
    key and certificate. *)
Theorem stages_run_in_code_order `{Externals} (file : string) (w w' : World) :
  let name := configFileNameOf (cwd (settings w)) file in
  (loadServerConfig name w
   = match fst (loadConfigObject name w) with
     | Ok base =>
         match env_name (settings w) with
         | Some env =>
             match fst (loadConfigObject (name ++ "-" ++ env)%string w) with
             | Ok overlay =>
                 let config :=
                   if truthy overlay then defaultsDeep overlay base else base in
                 if truthy config then (Ok config, w)
                 else await loadDefaultServerConfig w
             | Throw e => (Throw e, w)
             end
         | None =>
             if truthy base then (Ok base, w)
             else await loadDefaultServerConfig w
         end
     | Throw e => (Throw e, w)
     end)
  /\
  (loadGatewayConfig file w = (Ok tt, w') <->
   exists raw w1 validated defaulted normalised w2,
     loadServerConfig name w = (Ok raw, w1) /\
     validateServerConfig raw = Ok validated /\
     defaultPaths name validated = Ok defaulted /\
     castArrays (deepMapValues checkEnvVariable defaulted)
     = (Ok tt, normalised) /\
     loadDatabaseConfig
       (with_this
          {| config := Some normalised; isLoaded := isLoaded (this w1) |}
          (suspend (suspend w1))) = (Ok tt, w2) /\
     resolveHttpsPaths (suspend w2) = (Ok tt, w')).
Proof.
  intros name. split; [ apply loadServerConfig_layers | ].
  rewrite loadGatewayConfig_stages. fold name. cbv zeta.
  split.
  - intros E.
    destruct (loadServerConfig name w) as [[raw | e] w1] eqn:E1;
      [ | discriminate ].
    destruct (validateServerConfig raw) as [validated | e] eqn:E2;
      [ | discriminate ].
    destruct (defaultPaths name validated) as [defaulted | e] eqn:E3;
      [ | discriminate ].
    destruct (castArrays (deepMapValues checkEnvVariable defaulted))
      as [[[] | e] normalised] eqn:E4; [ | discriminate ].
    match type of E with
    | context [ loadDatabaseConfig ?x ] =>
        destruct (loadDatabaseConfig x) as [[[] | e] w2] eqn:Edb;
          [ | discriminate ]
    end.
    exists raw, w1, validated, defaulted, normalised, w2.
    repeat split; auto.
  - intros [raw [w1 [validated [defaulted [normalised [w2
              [E1 [E2 [E3 [E4 [E5 E6]]]]]]]]]]].
    rewrite E1, E2, E3, E4, E5. exact E6.
Qed.

Lemma stages_run_in_code_order_witness :
  exists raw w1 validated defaulted normalised w2,
    @loadServerConfig posix_externals "/srv/gw/tree-gateway"
      stored_gateway_world = (Ok raw, w1) /\
    @validateServerConfig posix_externals raw = Ok validated /\
    @defaultPaths posix_externals "/srv/gw/tree-gateway" validated
    = Ok defaulted /\
    castArrays (deepMapValues (@checkEnvVariable posix_externals) defaulted)
    = (Ok tt, normalised) /\
    @loadDatabaseConfig posix_externals
      (with_this
         {| config := Some normalised; isLoaded := isLoaded (this w1) |}
         (suspend (suspend w1))) = (Ok tt, w2) /\
    @resolveHttpsPaths posix_externals (suspend w2)
    = (Ok tt,
       snd (@loadGatewayConfig posix_externals "/srv/gw/tree-gateway.yml"
              stored_gateway_world)).
Proof.
  apply (proj1 (proj2 (@stages_run_in_code_order posix_externals
                         "/srv/gw/tree-gateway.yml" stored_gateway_world
                         (snd (@loadGatewayConfig posix_externals
                                 "/srv/gw/tree-gateway.yml"
                                 stored_gateway_world))))).
  vm_compute. reflexivity.
Defined.

(** C1, as it is stated, fails. With a gateway in the store whose TLS key
    and certificate are given relative, the code resolves them against
    [rootPath], because it does so after the overlay of the store; in the
    order of the specification, where the paths are resolved before the
    overlay, they stay as they are stored. *)
Lemma stage_order_differs_from_spec :
  let key := ["gateway"; "protocol"; "https"; "privateKey"] in
  let in_code_order :=
    @loadGatewayConfig posix_externals "/srv/gw/tree-gateway.yml"
      stored_gateway_world in
  let in_spec_order :=
    @resolveInSpecOrder posix_externals "/srv/gw/tree-gateway.yml"
      stored_gateway_world in
  fst in_code_order = Ok tt /\
  fst in_spec_order = Ok tt /\
  option_map (get key) (config (this (snd in_code_order)))
  = Some (Some (JStr "/srv/gw/server.key")) /\
  option_map (get key) (config (this (snd in_spec_order)))
  = Some (Some (JStr "./server.key")).
Proof. vm_compute. repeat split. Qed.

(** ** The name of the configuration file *)

Lemma toLowerCase_app (s t : string) :
  toLowerCase (s ++ t)%string = (toLowerCase s ++ toLowerCase t)%string.
Proof. induction s as [ | c s IH ]; simpl; congruence. Qed.

Lemma toLowerCase_length s : String.length (toLowerCase s) = String.length s.
Proof. induction s as [ | c s IH ]; simpl; congruence. Qed.

Lemma string_length_app (s t : string) :
  String.length (s ++ t)%string = String.length s + String.length t.
Proof. induction s as [ | c s IH ]; simpl; congruence. Qed.

Lemma substring_all t : String.substring 0 (String.length t) t = t.
Proof. induction t as [ | c t IH ]; simpl; congruence. Qed.

Lemma substring_skip (s t : string) :
  String.substring (String.length s) (String.length t) (s ++ t)%string = t.
Proof. induction s as [ | c s IH ]; simpl; [ apply substring_all | exact IH ]. Qed.

Lemma substring_start (s t : string) :
  String.substring 0 (String.length s) (s ++ t)%string = s.
Proof.
  induction s as [ | c s IH ]; simpl.
  - destruct t; reflexivity.
  - congruence.
Qed.

Lemma endsWith_app (s t : string) : endsWith (s ++ t)%string t = true.
Proof.
  unfold endsWith. rewrite string_length_app.
  replace (String.length s + String.length t - String.length t)
    with (String.length s) by lia.
  rewrite substring_skip, String.eqb_refl.
  replace (Nat.leb (String.length t) (String.length s + String.length t))
    with true; [ reflexivity | ].
  symmetry. apply Nat.leb_le. lia.
Qed.

Lemma lower_char_dot c :
  Ascii.eqb (lower_char c) "."%char = Ascii.eqb c "."%char.
Proof. destruct c as [[] [] [] [] [] [] [] []]; reflexivity. Qed.

(** The last dot of a name is where the last dot of its lower-case form
    is. *)
Lemma lastIndexOfDot_toLowerCase s :
  lastIndexOfDot (toLowerCase s) = lastIndexOfDot s.
Proof.
  induction s as [ | c s IH ]; simpl; auto.
  rewrite IH, lower_char_dot. reflexivity.
Qed.

Lemma lastIndexOfDot_app (s t : string) i :
  lastIndexOfDot t = Some i ->
  lastIndexOfDot (s ++ t)%string = Some (String.length s + i).
Proof.
  intros Ht. induction s as [ | c s IH ]; simpl; auto.
  rewrite IH. reflexivity.
Qed.

Lemma config_extension_cases ext :
  is_config_extension ext = true ->
  (toLowerCase ext = ".yaml" \/ toLowerCase ext = ".yml"
   \/ toLowerCase ext = ".json").
Proof.
  unfold is_config_extension. simpl.
  destruct (String.eqb (toLowerCase ext) ".yaml") eqn:E1;
    [ apply String.eqb_eq in E1; auto | ].
  destruct (String.eqb (toLowerCase ext) ".yml") eqn:E2;
    [ apply String.eqb_eq in E2; auto | ].
  destruct (String.eqb (toLowerCase ext) ".json") eqn:E3;
    [ apply String.eqb_eq in E3; auto | ].
  discriminate.
Qed.

Lemma removeExtension_app (s ext : string) :
  is_config_extension ext = true -> removeExtension (s ++ ext)%string = s.
Proof.
  intros Hext. apply config_extension_cases in Hext.
  assert (Hdot : lastIndexOfDot ext = Some 0).
  { rewrite <- lastIndexOfDot_toLowerCase.
    destruct Hext as [E | [E | E]]; rewrite E; reflexivity. }
  assert (Hends : endsWith (toLowerCase (s ++ ext)%string) ".yaml"
                  || endsWith (toLowerCase (s ++ ext)%string) ".yml"
                  || endsWith (toLowerCase (s ++ ext)%string) ".json" = true).
  { rewrite toLowerCase_app.
    destruct Hext as [E | [E | E]]; rewrite E, endsWith_app;
      rewrite ?orb_true_r; reflexivity. }
  unfold removeExtension. rewrite Hends.
  rewrite (lastIndexOfDot_app s ext 0 Hdot), Nat.add_0_r.
  apply substring_start.
Qed.

(** X1. The name of a configuration file loses its ending [.yaml], [.yml]
    or [.json], in whatever letter case the ending is written, and nothing
    but that ending: what stands before it is given back as it is, dots
    included.  The ending does not choose the format: whichever of the three
    the configured name ends with, the file that is read is the [.yml] one
    when it exists. *)
Theorem removeExtension_strips_config_ending (s ext : string) :
  is_config_extension ext = true ->
  removeExtension (s ++ ext)%string = s /\
  (forall w f,
      find_file (s ++ ".yml")%string (files w) = Some f ->
      loadConfigObject (removeExtension (s ++ ext)%string) w = (parsed f, w)).
Proof.
  intros Hext. rewrite (removeExtension_app s ext Hext).
  split; [ reflexivity | ].
  intros w f Hf.
  unfold loadConfigObject, bind, read, existsSync, parse_file.
  rewrite Hf. simpl. rewrite Hf. destruct f; reflexivity.
Qed.

Lemma removeExtension_strips_config_ending_witness :
  removeExtension "/srv/gw/tree-gateway.prod.YAML"
  = "/srv/gw/tree-gateway.prod".
Proof.
  apply (proj1 (removeExtension_strips_config_ending
                  "/srv/gw/tree-gateway.prod" ".YAML" eq_refl)).
Defined.

(** X2. The Format Loader takes the first of [.yml], [.yaml], [.json]
    that exists and reads nothing else: a file of a later format is not
    looked at, even when the earlier one does not parse; with none of the
    three the result is [null]; and the world is left as it is found. *)
Theorem format_loader_precedence (fileName : string) (w : World) :
  (forall f,
      find_file (fileName ++ ".yml")%string (files w) = Some f ->
      loadConfigObject fileName w = (parsed f, w))
  /\ (forall f,
         find_file (fileName ++ ".yml")%string (files w) = None ->
         find_file (fileName ++ ".yaml")%string (files w) = Some f ->
         loadConfigObject fileName w = (parsed f, w))
  /\ (forall f,
         find_file (fileName ++ ".yml")%string (files w) = None ->
         find_file (fileName ++ ".yaml")%string (files w) = None ->
         find_file (fileName ++ ".json")%string (files w) = Some f ->
         loadConfigObject fileName w = (parsed f, w))
  /\ (find_file (fileName ++ ".yml")%string (files w) = None ->
      find_file (fileName ++ ".yaml")%string (files w) = None ->
      find_file (fileName ++ ".json")%string (files w) = None ->
      loadConfigObject fileName w = (Ok JNull, w)).
Proof.
  unfold loadConfigObject, bind, read, existsSync, parse_file, ret.
  split; [ | split; [ | split ] ].
  - intros f E1. rewrite E1. simpl. rewrite E1. destruct f; reflexivity.
  - intros f E1 E2. rewrite E1. simpl. rewrite E2. simpl. rewrite E2.
    destruct f; reflexivity.
  - intros f E1 E2 E3. rewrite E1. simpl. rewrite E2. simpl. rewrite E3.
    simpl. rewrite E3. destruct f; reflexivity.
  - intros E1 E2 E3. rewrite E1. simpl. rewrite E2. simpl. rewrite E3.
    reflexivity.
Qed.

Lemma format_loader_precedence_witness :
  loadConfigObject "/srv/gw/tree-gateway" broken_file_world
  = (Throw ParseError, broken_file_world)
  /\ loadConfigObject "/srv/gw/tree-gateway-production" overlay_world
     = (Ok sample_overlay, overlay_world).
Proof.
  split.
  - destruct (format_loader_precedence "/srv/gw/tree-gateway"
                broken_file_world) as [Hyml _].
    exact (Hyml Malformed eq_refl).
  - destruct (format_loader_precedence "/srv/gw/tree-gateway-production"
                overlay_world) as [_ [Hyaml _]].
    exact (Hyaml (Parsed sample_overlay) eq_refl eq_refl).
Defined.

(** ** The flag [isLoaded] *)

#[export] Instance flag_kept_frame : Frame flag_kept.
Proof.
  split.
  - intros w. split; auto.
    exists []. split; [ symmetry; apply app_nil_r | constructor ].
  - intros a b c [L1 [l1 [H1 F1]]] [L2 [l2 [H2 F2]]].
    split; [ congruence | ].
    exists (l1 ++ l2). split.
    + rewrite H2, H1. symmetry; apply app_assoc.
    + apply Forall_app. split; auto. rewrite <- L1. exact F2.
  - intros w. split; auto. exists [this w]. split; auto.
Qed.

Lemma flag_kept_by w w' :
  isLoaded (this w') = isLoaded (this w) -> trace w' = trace w ->
  flag_kept w w'.
Proof.
  intros E1 E2. split; auto. exists []. split; auto.
  rewrite E2. symmetry; apply app_nil_r.
Qed.

Lemma flag_kept_writeFile path content : keeps flag_kept (writeFile path content).
Proof. unfold writeFile. primitive. apply flag_kept_by; reflexivity. Qed.

Lemma flag_kept_askRedisOptions : keeps flag_kept askRedisOptions.
Proof. unfold askRedisOptions. primitive. apply flag_kept_by; reflexivity. Qed.

Lemma flag_kept_new_uuid : keeps flag_kept new_uuid.
Proof. unfold new_uuid. primitive. apply flag_kept_by; reflexivity. Qed.

Lemma flag_kept_save g : keeps flag_kept (gatewayService_save g).
Proof. unfold gatewayService_save. primitive. apply flag_kept_by; reflexivity. Qed.

Lemma flag_kept_register : keeps flag_kept gatewayService_registerGatewayVersion.
Proof.
  unfold gatewayService_registerGatewayVersion. primitive.
  apply flag_kept_by; reflexivity.
Qed.

Lemma flag_kept_flushdb : keeps flag_kept flushdb.
Proof. unfold flushdb. primitive. apply flag_kept_by; reflexivity. Qed.

Lemma flag_kept_set_config c : keeps flag_kept (set_config c).
Proof. intros w. apply flag_kept_by; reflexivity. Qed.

Lemma flag_kept_emit ev : keeps flag_kept (emit ev).
Proof. unfold emit. primitive; apply flag_kept_by; reflexivity. Qed.

Lemma flag_kept_suspend : keeps flag_kept (change suspend).
Proof. intros w. apply frame_suspend. Qed.

#[export] Hint Resolve flag_kept_writeFile flag_kept_askRedisOptions
  flag_kept_new_uuid flag_kept_save flag_kept_register flag_kept_flushdb
  flag_kept_set_config flag_kept_emit flag_kept_suspend : keeps.

Lemma flag_kept_mutate_config f : keeps flag_kept (mutate_config f).
Proof. unfold mutate_config. keeps_all. Qed.

#[export] Hint Resolve flag_kept_mutate_config : keeps.

Lemma flag_kept_mutate_config_by m : keeps flag_kept (mutate_config_by m).
Proof. unfold mutate_config_by. keeps_all. Qed.

#[export] Hint Resolve flag_kept_mutate_config_by : keeps.

(** No stage of the resolution writes the flag. *)
Lemma flag_kept_loadGatewayConfig `{Externals} file :
  keeps flag_kept (loadGatewayConfig file).
Proof.
  unfold loadGatewayConfig, loadServerConfig, loadConfigObject,
    loadDefaultServerConfig, loadDatabaseConfig, getConfigFromDB,
    loadDefaultGatewayConfig, resolveHttpsPaths, resolveHttpsPath.
  keeps_all.
Qed.

Lemma flag_kept_reload `{Externals} : keeps flag_kept reload.
Proof.
  unfold reload.
  pose proof flag_kept_loadGatewayConfig.
  repeat first [ keeps_step | solve [ auto with keeps ]
               | intros x; apply frame_refl ].
Qed.

Lemma observed_added {A} (m : M A) w l :
  trace (snd (m w)) = trace w ++ l -> observed m w = l.
Proof.
  intros E. unfold observed. rewrite E.
  rewrite skipn_app, skipn_all, Nat.sub_diag. reflexivity.
Qed.

Lemma filter_no_emit l :
  forallb (fun e => negb (is_emit e)) l = true -> filter is_emit l = [].
Proof.
  induction l as [ | e l IH ]; simpl; auto.
  destruct (is_emit e); simpl; [ discriminate | exact IH ].
Qed.

Lemma no_event_filter w w' :
  no_event w w' -> filter is_emit (effects w') = filter is_emit (effects w).
Proof.
  intros [_ [l [E F]]]. rewrite E, filter_app, (filter_no_emit l F).
  apply app_nil_r.
Qed.

(** What [load] does on an instance that is not loaded, from what the
    resolution gives. *)
Lemma load_run `{Externals} (w : World) :
  isLoaded (this w) = false ->
  let run := loadGatewayConfig (gatewayConfigFileOrDefault (settings w)) w in
  isLoaded (this (snd (load w)))
  = match fst run with Ok _ => true | Throw _ => false end /\
  config (this (snd (load w))) = config (this (snd run)) /\
  trace (snd (load w)) = trace (snd run) ++ [this (snd run)] /\
  effects (snd (load w)) = effects (snd run) ++ [Emit (load_event (fst run))].
Proof.
  intros Hl run.
  unfold load, bind, read, try_catch, await. rewrite Hl. simpl.
  fold run.
  destruct run as [[[] | e] w1]; simpl.
  - repeat split.
  - unfold emit. simpl.
    destruct (errorListener (settings w1)); simpl; repeat split.
Qed.

(** X3. A [load] on a loaded instance does nothing at all.  A [load] on an
    instance that is not loaded runs the resolution once and sends exactly
    one notification, ['load'] when the resolution succeeded and ['error']
    with the cause when it failed; the flag is set exactly when the
    resolution succeeded, so that a [load] after a failure runs the
    resolution again and a [load] after a success changes nothing. *)
Theorem load_runs_once_and_notifies_once `{Externals} (w : World) :
  let run := loadGatewayConfig (gatewayConfigFileOrDefault (settings w)) w in
  (isLoaded (this w) = true -> load w = (Ok tt, w))
  /\ (isLoaded (this w) = false ->
      (isLoaded (this (snd (load w))) = true <-> fst run = Ok tt) /\
      filter is_emit (effects (snd (load w)))
      = filter is_emit (effects w) ++ [Emit (load_event (fst run))])
  /\ (isLoaded (this (snd (load w))) = true ->
      load (snd (load w)) = (Ok tt, snd (load w))).
Proof.
  intros run.
  assert (Hdone : forall x, isLoaded (this x) = true -> load x = (Ok tt, x)).
  { intros x Hx. unfold load, bind, read. rewrite Hx. reflexivity. }
  split; [ apply Hdone | ].
  split; [ | apply Hdone ].
  intros Hl. destruct (load_run w Hl) as [H1 [_ [_ H4]]]. fold run in H1, H4.
  split.
  - rewrite H1. destruct (fst run) as [[] | e]; split; auto; discriminate.
  - rewrite H4, filter_app. simpl. f_equal.
    apply no_event_filter. apply no_event_loadGatewayConfig.
Qed.

Lemma load_runs_once_and_notifies_once_witness :
  let w1 := snd (@load posix_externals stored_gateway_world) in
  @load posix_externals w1 = (Ok tt, w1) /\
  filter is_emit (effects w1) = [Emit LoadEvent].
Proof.
  intros w1.
  destruct (@load_runs_once_and_notifies_once posix_externals
              stored_gateway_world) as [_ [Hrun Hagain]].
  assert (Hl : isLoaded (this w1) = true) by (vm_compute; reflexivity).
  split; [ exact (Hagain Hl) | ].
  destruct (Hrun eq_refl) as [_ Hev].
  assert (Hok : fst (@loadGatewayConfig posix_externals
                       (@gatewayConfigFileOrDefault posix_externals
                          (settings stored_gateway_world))
                       stored_gateway_world) = Ok tt)
    by (vm_compute; reflexivity).
  rewrite Hok in Hev. exact Hev.
Defined.

(** X4. While a first [load] runs, the flag is not set at any point where
    the method is suspended: whatever a reader finds in the other fields,
    the getter of [gateway] raises the error that tells to wait for the
    ['load'] event, up to the moment the resolution has ended. *)
Theorem gateway_unreadable_during_first_load `{Externals} (w : World) :
  isLoaded (this w) = false ->
  Forall (fun i => gateway i = Throw (JsError not_loaded_message))
    (observed load w)
  /\ observed load w <> [].
Proof.
  intros Hl.
  destruct (load_run w Hl) as [_ [_ [H3 _]]].
  destruct (flag_kept_loadGatewayConfig
              (gatewayConfigFileOrDefault (settings w)) w) as [F1 [l [E F]]].
  rewrite E, <- app_assoc in H3.
  rewrite (observed_added _ _ _ H3).
  split.
  - apply Forall_app. split.
    + apply Forall_impl with (2 := F). intros i Hi.
      unfold gateway, ensureLoaded. rewrite Hi, Hl. reflexivity.
    + constructor; [ | constructor ].
      unfold gateway, ensureLoaded. rewrite F1, Hl. reflexivity.
  - destruct l; discriminate.
Qed.

Lemma gateway_unreadable_during_first_load_witness :
  Forall (fun i => gateway i = Throw (JsError not_loaded_message))
    (observed (@load posix_externals) stored_gateway_world).
Proof.
  apply (proj1 (@gateway_unreadable_during_first_load posix_externals
                  stored_gateway_world eq_refl)).
Defined.

(** X5. A [reload] never writes the flag, and no reader sees another value
    of it while the [reload] runs.  Hence a [reload] of an instance that
    was never loaded cannot succeed: when its resolution succeeds the new
    configuration is installed, and then reading the gateway for the
    notification raises the not-loaded error; in every case no notification
    is sent. *)
Theorem reload_never_sets_the_flag `{Externals} (w : World) :
  isLoaded (this (snd (reload w))) = isLoaded (this w)
  /\ Forall (fun i => isLoaded i = isLoaded (this w)) (observed reload w)
  /\ (isLoaded (this w) = false ->
      fst (reload w) <> Ok tt /\
      (forall w',
          loadGatewayConfig (gatewayConfigFileOrDefault (settings w))
            (snd (set_config None w)) = (Ok tt, w') ->
          reload w = (Throw (JsError not_loaded_message), suspend w')) /\
      filter is_emit (effects (snd (reload w))) = filter is_emit (effects w)).
Proof.
  destruct (flag_kept_reload w) as [F1 [l [E F]]].
  split; [ exact F1 | ].
  split; [ rewrite (observed_added _ _ _ E); exact F | ].
  intros Hl.
  pose proof (flag_kept_loadGatewayConfig
                (gatewayConfigFileOrDefault (settings w))
                (snd (set_config None w))) as [G1 _].
  pose proof (no_event_loadGatewayConfig
                (gatewayConfigFileOrDefault (settings w))
                (snd (set_config None w))) as Hq.
  apply no_event_filter in Hq.
  unfold reload, bind, read, await in *. simpl in *.
  destruct (loadGatewayConfig (gatewayConfigFileOrDefault (settings w))
              (with_this {| config := None; isLoaded := isLoaded (this w) |} w))
    as [[[] | e] w1]; simpl in *.
  - unfold gateway, ensureLoaded. rewrite G1, Hl. simpl.
    split; [ discriminate | ].
    split; [ | exact Hq ].
    intros w' Hw'. inversion Hw'; subst. reflexivity.
  - split; [ discriminate | ].
    split; [ | exact Hq ].
    intros w' Hw'. discriminate.
Qed.

Lemma reload_never_sets_the_flag_witness :
  @reload posix_externals stored_gateway_world
  = (Throw (JsError not_loaded_message),
     suspend (snd (@loadGatewayConfig posix_externals "/srv/gw/tree-gateway.yml"
                     (snd (set_config None stored_gateway_world))))).
Proof.
  destruct (@reload_never_sets_the_flag posix_externals stored_gateway_world)
    as [_ [_ Hnever]].
  destruct (Hnever eq_refl) as [_ [Hraise _]].
  apply Hraise. vm_compute. reflexivity.
Defined.

(** ** The configuration that a resolution leaves *)

Lemma defaultPaths_fields `{Externals} name v out :
  defaultPaths name v = Ok out ->
  (exists r, field "rootPath" out = Some r) /\
  (exists m, field "middlewarePath" out = Some m).
Proof.
  unfold defaultPaths.
  set (sc1 := defaults v "rootPath" (JStr (path_dirname name))).
  assert (O1 : is_object sc1 = true) by apply defaults_is_object.
  assert (R1 : exists r, field "rootPath" sc1 = Some r)
    by (unfold sc1; rewrite field_defaults_same; eexists; reflexivity).
  clearbody sc1.
  match goal with
  | |- and_then ?first _ = _ -> _ =>
      assert (S2 : forall sc2, first = Ok sc2 ->
                     is_object sc2 = true /\
                     exists r, field "rootPath" sc2 = Some r);
        [ | destruct first as [sc2 | e]; [ | discriminate ] ]
  end.
  { intros sc2.
    destruct (startsWithDot (or_null (field "rootPath" sc1))).
    - destruct (join_values (JStr (path_dirname name))
                  (or_null (field "rootPath" sc1))) as [p | e]; simpl;
        [ | discriminate ].
      intros E; inversion E; subst sc2.
      rewrite assign_field_is_object, field_assign_field_same by exact O1.
      split; [ exact O1 | eexists; reflexivity ].
    - intros E; inversion E; subst sc2. split; assumption. }
  destruct (S2 sc2 eq_refl) as [O2 [r R2]]. clear S2. simpl.
  destruct (join_values (or_null (field "rootPath" sc2)) (JStr "middleware"))
    as [d | e]; simpl; [ | discriminate ].
  set (sc3 := defaults sc2 "middlewarePath" (JStr d)).
  assert (O3 : is_object sc3 = true) by apply defaults_is_object.
  assert (R3 : field "rootPath" sc3 = Some r)
    by (unfold sc3; rewrite field_defaults_other; [ exact R2 | discriminate ]).
  assert (M3 : exists m, field "middlewarePath" sc3 = Some m)
    by (unfold sc3; rewrite field_defaults_same; eexists; reflexivity).
  clearbody sc3.
  destruct (startsWithDot (or_null (field "middlewarePath" sc3))).
  - destruct (join_values (or_null (field "rootPath" sc3))
                (or_null (field "middlewarePath" sc3))) as [q | e]; simpl;
      [ | discriminate ].
    intros E; inversion E; subst out. split.
    + exists r. rewrite field_assign_field_other; [ exact R3 | discriminate ].
    + eexists. apply field_assign_field_same. exact O3.
  - intros E; inversion E; subst out. split; [ exists r; exact R3 | exact M3 ].
Qed.

Lemma lookup_map_values (g : JValue -> JValue) k (ps : Props) :
  lookup k (map (fun kv => (fst kv, g (snd kv))) ps)
  = option_map g (lookup k ps).
Proof.
  induction ps as [ | [k' y] r IH ]; simpl; auto.
  destruct (String.eqb k k'); auto.
Qed.

Lemma field_deepMapValues f k v :
  is_object v = true -> is_array v = false ->
  field k (deepMapValues f v) = option_map (deepMapValues f) (field k v).
Proof.
  destruct v as [ | | | | | a ps ]; try discriminate. intros _ Ha.
  destruct a; [ discriminate | ]. simpl. apply lookup_map_values.
Qed.

Lemma defaults_is_array v k d : is_array (defaults v k d) = is_array v.
Proof.
  destruct v as [ | | | | | a ps ]; try reflexivity.
  unfold defaults. simpl. destruct (lookup k ps); reflexivity.
Qed.

Lemma assign_field_is_array k x v :
  is_array (assign_field k x v) = is_array v.
Proof. destruct v; reflexivity. Qed.

(** The defaults of the paths keep an object the kind of object it is. *)
Lemma defaultPaths_array `{Externals} name v out :
  defaultPaths name v = Ok out -> is_array out = is_array v.
Proof.
  unfold defaultPaths.
  set (sc1 := defaults v "rootPath" (JStr (path_dirname name))).
  assert (O1 : is_object sc1 = true) by apply defaults_is_object.
  assert (A1 : is_array sc1 = is_array v) by apply defaults_is_array.
  clearbody sc1.
  assert (Last : forall sc, is_object sc = true -> is_array sc = is_array v ->
            and_then
              (join_values (or_null (field "rootPath" sc)) (JStr "middleware"))
              (fun d =>
                 let serverConfig := defaults sc "middlewarePath" (JStr d) in
                 if startsWithDot (or_null (field "middlewarePath" serverConfig))
                 then
                   and_then
                     (join_values (or_null (field "rootPath" serverConfig))
                        (or_null (field "middlewarePath" serverConfig)))
                     (fun p =>
                        Ok (assign_field "middlewarePath" (JStr p)
                              serverConfig))
                 else Ok serverConfig) = Ok out ->
            is_array out = is_array v).
  { intros sc Osc Asc.
    destruct (join_values (or_null (field "rootPath" sc)) (JStr "middleware"))
      as [d | e]; simpl; [ | discriminate ].
    set (sc3 := defaults sc "middlewarePath" (JStr d)).
    assert (A3 : is_array sc3 = is_array v)
      by (unfold sc3; rewrite defaults_is_array; assumption).
    clearbody sc3.
    destruct (startsWithDot (or_null (field "middlewarePath" sc3))).
    - destruct (join_values (or_null (field "rootPath" sc3))
                  (or_null (field "middlewarePath" sc3))) as [q | e]; simpl;
        [ | discriminate ].
      intros E; inversion E. rewrite assign_field_is_array. exact A3.
    - intros E; inversion E; subst. exact A3. }
  destruct (startsWithDot (or_null (field "rootPath" sc1))).
  - destruct (join_values (JStr (path_dirname name))
                (or_null (field "rootPath" sc1))) as [p | e]; simpl;
      [ | discriminate ].
    apply Last.
    + rewrite assign_field_is_object. exact O1.
    + rewrite assign_field_is_array. exact A1.
  - simpl. apply Last; assumption.
Qed.

(** The Array Normalizer looks into [database] and [gateway] only. *)
Lemma get_castArrays_elsewhere server k rest :
  k <> "database" -> k <> "gateway" ->
  get (k :: rest) (snd (castArrays server)) = get (k :: rest) server.
Proof.
  intros Hd Hg. destruct (castArrays_heads server) as [Q [E HQ]].
  rewrite E. apply get_cast_diverge.
  intros q Hq. destruct (HQ q Hq) as [h [r [Eq [Hh | Hh]]]]; subst q h; simpl.
  - apply String.eqb_neq in Hd. rewrite Hd. reflexivity.
  - apply String.eqb_neq in Hg. rewrite Hg. reflexivity.
Qed.

Lemma gateway_kept_refl c : gateway_kept c c.
Proof. repeat split. Qed.

Lemma gateway_kept_trans a b c :
  gateway_kept a b -> gateway_kept b c -> gateway_kept a c.
Proof.
  intros [O1 [K1 T1]] [O2 [K2 T2]]. split; [ congruence | ].
  split; [ | congruence ].
  intros k Hk. rewrite K2, K1; auto.
Qed.

(** A change made below [gateway] keeps the rest, and keeps the gateway
    present. *)
Lemma update_gateway_kept q F c :
  q <> [] -> gateway_kept c (update ("gateway" :: q) F c).
Proof.
  intros Hq. destruct c as [ | | | | | a ps ]; try apply gateway_kept_refl.
  split; [ reflexivity | ]. split.
  - intros k Hk. simpl. apply lookup_alter_other. exact Hk.
  - simpl. rewrite lookup_alter_same.
    destruct (lookup "gateway" ps) as [x | ]; simpl; auto.
    destruct q as [ | k q ]; [ congruence | ].
    destruct x; reflexivity.
Qed.

(** A gateway that is assigned and is truthy. *)
Lemma getConfigFromDB_config `{Externals} w w' a ps :
  config (this w) = Some (JObj a ps) ->
  getConfigFromDB w = (Ok tt, w') ->
  exists ps',
    config (this w') = Some (JObj a ps') /\
    isLoaded (this w') = isLoaded (this w) /\
    (forall k, k <> "gateway" -> lookup k ps' = lookup k ps) /\
    truthy (or_null (lookup "gateway" ps')) = true.
Proof.
  intros Hc.
  unfold getConfigFromDB, mutate_config.
  unfold bind, await, gatewayService_get, this_config, set_config, change,
    lift, throw, ret.
  destruct (online (store w)) eqn:Ho; simpl; [ | discriminate ].
  rewrite Hc. simpl.
  destruct (truthy (or_null (savedGateway (store w)))) eqn:Et; simpl.
  - rewrite Hc. simpl.
    destruct (validateGatewayConfig _) as [[] | e]; simpl; [ | discriminate ].
    rewrite lookup_assign_same. simpl.
    destruct (truthy (or_null (field "protocol" _))); simpl;
      [ | discriminate ].
    intros E; inversion E; subst w'; clear E. simpl.
    eexists. split; [ reflexivity | ]. split; [ reflexivity | ].
    split; [ intros k Hk; apply lookup_assign_other; exact Hk | ].
    rewrite lookup_assign_same. simpl.
    rewrite truthy_defaultsDeep. exact Et.
  - destruct (truthy (or_null (lookup "gateway" ps))) eqn:Eg; simpl.
    + intros E; inversion E; subst w'; clear E. simpl.
      exists ps. repeat split; auto.
    + unfold loadDefaultGatewayConfig.
      destruct (get ["admin"; "userService"] gatewayDefaultTemplate)
        as [[ | | | | | b us ] | ] eqn:Ea; try discriminate.
      unfold bind, new_uuid, ret, gatewayService_save,
        gatewayService_registerGatewayVersion. simpl.
      rewrite Hc. simpl. rewrite Ho. simpl.
      intros E; inversion E; subst w'; clear E. simpl.
      eexists. split; [ reflexivity | ]. split; [ reflexivity | ].
      split; [ intros k Hk; apply lookup_assign_other; exact Hk | ].
      rewrite lookup_assign_same. simpl.
      destruct gatewayDefaultTemplate; try discriminate. reflexivity.
Qed.

Lemma loadDatabaseConfig_config `{Externals} w w' a ps :
  config (this w) = Some (JObj a ps) ->
  loadDatabaseConfig w = (Ok tt, w') ->
  exists ps',
    config (this w') = Some (JObj a ps') /\
    isLoaded (this w') = isLoaded (this w) /\
    (forall k, k <> "gateway" -> lookup k ps' = lookup k ps) /\
    truthy (or_null (lookup "gateway" ps')) = true.
Proof.
  intros Hc. unfold loadDatabaseConfig.
  unfold bind at 1. unfold change at 1.
  unfold bind at 1. unfold read at 1.
  destruct (resetBeforeStart (settings (suspend w))).
  - unfold bind at 1. unfold await at 1, flushdb at 1.
    destruct (online (store (suspend w))); [ | discriminate ].
    intros E. apply (getConfigFromDB_config _ _ a ps) in E; [ | exact Hc ].
    exact E.
  - intros E. apply (getConfigFromDB_config _ _ a ps) in E; [ | exact Hc ].
    exact E.
Qed.

Lemma resolveHttpsPath_config `{Externals} key w w' c :
  config (this w) = Some c -> is_object c = true ->
  resolveHttpsPath key w = (Ok tt, w') ->
  exists c',
    config (this w') = Some c' /\
    isLoaded (this w') = isLoaded (this w) /\
    gateway_kept c c'.
Proof.
  intros Hc Ho.
  assert (Hd : deref (Some c) = Ok c) by (destruct c; try discriminate; reflexivity).
  unfold resolveHttpsPath, mutate_config.
  unfold bind, this_config, lift, set_config, change, ret.
  rewrite Hc, Hd.
  destruct (startsWithDot _).
  - destruct (join_values _ _) as [p | e]; [ | discriminate ].
    simpl. rewrite Hc, Hd.
    intros E; inversion E; subst w'; clear E. simpl.
    eexists. split; [ reflexivity | ]. split; [ reflexivity | ].
    apply (update_gateway_kept ["protocol"; "https"]
             (assign_field key (JStr p)) c).
    discriminate.
  - intros E; inversion E; subst w'; clear E.
    exists c. split; [ exact Hc | ]. split; [ reflexivity | ].
    apply gateway_kept_refl.
Qed.

Lemma resolveHttpsPaths_config `{Externals} w w' c :
  config (this w) = Some c -> is_object c = true ->
  resolveHttpsPaths w = (Ok tt, w') ->
  exists c',
    config (this w') = Some c' /\
    isLoaded (this w') = isLoaded (this w) /\
    gateway_kept c c'.
Proof.
  intros Hc Ho.
  assert (Hd : deref (Some c) = Ok c) by (destruct c; try discriminate; reflexivity).
  assert (Hsame : (Ok tt, w) = (Ok tt, w') ->
                  exists c',
                    config (this w') = Some c' /\
                    isLoaded (this w') = isLoaded (this w) /\
                    gateway_kept c c').
  { intros E; inversion E; subst w'.
    exists c. split; [ exact Hc | ]. split; [ reflexivity | ].
    apply gateway_kept_refl. }
  unfold resolveHttpsPaths.
  unfold bind at 1. unfold this_config at 1. rewrite Hc, Hd.
  destruct (truthy _ && truthy _); [ | exact Hsame ].
  destruct (truthy _); [ | exact Hsame ].
  unfold bind at 1.
  destruct (resolveHttpsPath "privateKey" w) as [[[] | e] w1] eqn:E1;
    [ | discriminate ].
  destruct (resolveHttpsPath_config _ _ _ _ Hc Ho E1) as [c1 [Hc1 [L1 K1]]].
  intros E2.
  assert (Ho1 : is_object c1 = true) by (destruct K1 as [O _]; congruence).
  destruct (resolveHttpsPath_config _ _ _ _ Hc1 Ho1 E2) as [c2 [Hc2 [L2 K2]]].
  exists c2. split; [ exact Hc2 | ]. split; [ congruence | ].
  eapply gateway_kept_trans; eassumption.
Qed.

(** What a resolution that succeeds leaves in the instance. *)
Lemma loadGatewayConfig_config `{Externals} file w w' :
  loadGatewayConfig file w = (Ok tt, w') ->
  exists c g,
    config (this w') = Some c /\ is_object c = true /\
    field "gateway" c = Some g /\ truthy g = true /\
    (document_is_array file w = false ->
     exists r m,
       field "rootPath" c = Some r /\ field "middlewarePath" c = Some m).
Proof.
  unfold document_is_array.
  rewrite loadGatewayConfig_stages. cbv zeta.
  destruct (loadServerConfig _ w) as [[raw | e] w1]; [ | discriminate ].
  destruct (validateServerConfig raw) as [validated | e]; [ | discriminate ].
  destruct (defaultPaths _ validated) as [defaulted | e] eqn:Ed;
    [ | discriminate ].
  pose proof (defaultPaths_object _ _ _ Ed) as Od.
  pose proof (defaultPaths_array _ _ _ Ed) as Ad.
  destruct (defaultPaths_fields _ _ _ Ed) as [[r Hr] [m Hm]].
  set (interpolated := deepMapValues checkEnvVariable defaulted).
  assert (Oi : is_object interpolated = true)
    by (apply deepMapValues_object; exact Od).
  assert (Ri : is_array validated = false ->
               exists r', field "rootPath" interpolated = Some r').
  { intros Ha. rewrite <- Ad in Ha. unfold interpolated.
    rewrite field_deepMapValues, Hr by assumption. eexists; reflexivity. }
  assert (Mi : is_array validated = false ->
               exists m', field "middlewarePath" interpolated = Some m').
  { intros Ha. rewrite <- Ad in Ha. unfold interpolated.
    rewrite field_deepMapValues, Hm by assumption. eexists; reflexivity. }
  clearbody interpolated.
  pose proof (castArrays_object interpolated Oi) as On.
  assert (Rn : field "rootPath" (snd (castArrays interpolated))
               = field "rootPath" interpolated).
  { rewrite <- !get_one. apply get_castArrays_elsewhere; discriminate. }
  assert (Mn : field "middlewarePath" (snd (castArrays interpolated))
               = field "middlewarePath" interpolated).
  { rewrite <- !get_one. apply get_castArrays_elsewhere; discriminate. }
  destruct (castArrays interpolated) as [[[] | e] normalised];
    [ | discriminate ].
  simpl in On, Rn, Mn.
  destruct normalised as [ | | | | | a ps ]; try discriminate.
  destruct (loadDatabaseConfig _) as [[[] | e] w2] eqn:Edb; [ | discriminate ].
  match type of Edb with
  | loadDatabaseConfig ?x = _ =>
      destruct (loadDatabaseConfig_config x w2 a ps eq_refl Edb)
        as [ps' [Hc2 [_ [K2 T2]]]]
  end.
  intros Etls.
  destruct (resolveHttpsPaths_config (suspend w2) w' (JObj a ps') Hc2 eq_refl Etls)
    as [c' [Hc' [_ [O' [K' T']]]]].
  simpl in T', Rn, Mn. rewrite T2 in T'.
  destruct (field "gateway" c') as [g | ] eqn:Eg; [ | discriminate ].
  exists c', g.
  split; [ exact Hc' | ]. split; [ exact O' | ].
  split; [ exact Eg | ]. split; [ exact T' | ].
  intros Ha.
  destruct (Ri Ha) as [r' Hr']. destruct (Mi Ha) as [m' Hm'].
  exists r', m'. split.
  - rewrite K' by discriminate. simpl. rewrite K2 by discriminate. congruence.
  - rewrite K' by discriminate. simpl. rewrite K2 by discriminate. congruence.
Qed.

(** X6. Once a [load] has set the flag, the gateway can be read and is
    present, taken from the store, from the files or from the packaged
    template; and unless the document that was validated is an array, which
    the interpolation rebuilds from its elements alone, the root path and
    the middleware path are present as well. *)
Theorem loaded_configuration_is_complete `{Externals} (w : World) :
  isLoaded (this w) = false ->
  isLoaded (this (snd (load w))) = true ->
  (exists g,
      gateway (this (snd (load w))) = Ok (Some g) /\ truthy g = true)
  /\ (document_is_array (gatewayConfigFileOrDefault (settings w)) w = false ->
      exists r m,
        rootPath (this (snd (load w))) = Ok (Some r) /\
        middlewarePath (this (snd (load w))) = Ok (Some m)).
Proof.
  intros Hl Hdone.
  destruct (load_run w Hl) as [H1 [H2 _]].
  rewrite Hdone in H1.
  destruct (loadGatewayConfig (gatewayConfigFileOrDefault (settings w)) w)
    as [[[] | e] w1] eqn:Erun; [ | discriminate ].
  destruct (loadGatewayConfig_config _ _ _ Erun)
    as [c [g [Hc [Ho [Hg [Tg Hpaths]]]]]].
  simpl in H2. rewrite Hc in H2.
  assert (Hd : deref (Some c) = Ok c)
    by (destruct c; try discriminate; reflexivity).
  split.
  - exists g. unfold gateway, ensureLoaded.
    rewrite Hdone, H2, Hd. simpl. rewrite Hg. split; [ reflexivity | exact Tg ].
  - intros Ha. destruct (Hpaths Ha) as [r [m [Hr Hm]]].
    exists r, m. unfold rootPath, middlewarePath.
    rewrite H2, Hd. simpl. rewrite Hr, Hm. split; reflexivity.
Qed.

Lemma loaded_configuration_is_complete_witness :
  (exists g,
      gateway (this loaded_world) = Ok (Some g) /\ truthy g = true)
  /\ (exists r m,
        rootPath (this loaded_world) = Ok (Some r) /\
        middlewarePath (this loaded_world) = Ok (Some m)).
Proof.
  assert (Hdone : isLoaded (this (snd (@load posix_externals
                                         stored_gateway_world))) = true)
    by (vm_compute; reflexivity).
  assert (Hdoc : @document_is_array posix_externals
                   (@gatewayConfigFileOrDefault posix_externals
                      (settings stored_gateway_world))
                   stored_gateway_world = false)
    by (vm_compute; reflexivity).
  destruct (@loaded_configuration_is_complete posix_externals
              stored_gateway_world eq_refl Hdone) as [Hg Hp].
  split; [ exact Hg | exact (Hp Hdoc) ].
Defined.

(** ** The reset of the store *)

(** X7. With [resetBeforeStart] the store is flushed before it is read:
    what the Store Overlay does then does not depend on the gateway that
    the store held, which is never merged; a local gateway is accepted as
    it is and the store is left empty. *)
Theorem reset_discards_the_stored_gateway `{Externals} (w : World) :
  resetBeforeStart (settings w) = true ->
  (forall saved n,
      loadDatabaseConfig
        (with_store {| online := true; savedGateway := saved;
                       gatewayVersions := n |} w)
      = loadDatabaseConfig (with_store empty_store w))
  /\ (forall a ps,
         online (store w) = true ->
         config (this w) = Some (JObj a ps) ->
         truthy (or_null (lookup "gateway" ps)) = true ->
         fst (loadDatabaseConfig w) = Ok tt /\
         config (this (snd (loadDatabaseConfig w))) = Some (JObj a ps) /\
         store (snd (loadDatabaseConfig w)) = empty_store /\
         effects (snd (loadDatabaseConfig w)) = effects w ++ [FlushDb])
  /\ (online (store w) = false ->
      fst (loadDatabaseConfig w) = Throw StoreError /\
      effects (snd (loadDatabaseConfig w)) = effects w).
Proof.
  intros Hr. split; [ | split ].
  - intros saved n.
    unfold loadDatabaseConfig, bind, change, read, await, flushdb. simpl.
    rewrite Hr. reflexivity.
  - intros a ps Ho Hc Hg.
    unfold loadDatabaseConfig, bind, change, read, await, flushdb. simpl.
    rewrite Hr. simpl. rewrite Ho. simpl.
    unfold getConfigFromDB, bind, await, gatewayService_get, this_config, ret.
    simpl. rewrite Hc. simpl. rewrite Hg. simpl. repeat split. exact Hc.
  - intros Ho.
    unfold loadDatabaseConfig, bind, change, read, await, flushdb. simpl.
    rewrite Hr. simpl. rewrite Ho. split; reflexivity.
Qed.

Lemma reset_discards_the_stored_gateway_witness :
  let w := reset_world sample_base_with_gateway (Some sample_stored_gateway) in
  fst (@loadDatabaseConfig posix_externals w) = Ok tt /\
  config (this (snd (@loadDatabaseConfig posix_externals w)))
  = Some sample_base_with_gateway /\
  store (snd (@loadDatabaseConfig posix_externals w)) = empty_store /\
  effects (snd (@loadDatabaseConfig posix_externals w)) = [FlushDb].
Proof.
  intros w.
  destruct (@reset_discards_the_stored_gateway posix_externals w eq_refl)
    as [_ [Haccept _]].
  exact (Haccept false
           [("rootPath", JStr "/srv/gw"); ("database", sample_database);
            ("gateway", sample_local_gateway)] eq_refl eq_refl eq_refl).
Defined.

(** ** The answers of the prompt *)

Lemma digit_not_space c d : digit_of c = Some d -> is_space c = false.
Proof.
  destruct c as [[] [] [] [] [] [] [] []]; vm_compute; congruence.
Qed.

Lemma digit_not_sign c d :
  digit_of c = Some d ->
  Ascii.eqb c "-"%char = false /\ Ascii.eqb c "+"%char = false.
Proof.
  destruct c as [[] [] [] [] [] [] [] []]; vm_compute; intros E;
    first [ discriminate | split; reflexivity ].
Qed.

Lemma digit_of_nonneg c d : digit_of c = Some d -> (0 <= d)%Z.
Proof.
  unfold digit_of.
  destruct ((48 <=? nat_of_ascii c)%nat && (nat_of_ascii c <=? 57)%nat);
    [ | discriminate ].
  intros E; inversion E. apply Nat2Z.is_nonneg.
Qed.

Lemma read_digits_all s : forall acc,
  all_digits s = true ->
  (0 <= acc)%Z ->
  exists n, (0 <= n)%Z /\
            read_digits (Some acc) (list_ascii_of_string s) = Some n.
Proof.
  induction s as [ | c s IH ]; intros acc Hs Hacc;
    cbn [all_digits list_ascii_of_string read_digits] in *.
  - exists acc. split; [ exact Hacc | reflexivity ].
  - destruct (digit_of c) as [d | ] eqn:Ed; [ | discriminate ].
    apply IH; [ exact Hs | ].
    pose proof (digit_of_nonneg c d Ed). lia.
Qed.

Lemma parseInt_digits s :
  s <> ""%string -> all_digits s = true ->
  exists n, (0 <= n)%Z /\ parseInt s = JNum n.
Proof.
  destruct s as [ | c s ]; [ congruence | intros _ ].
  simpl. destruct (digit_of c) as [d | ] eqn:Ed; [ | discriminate ].
  intros Hs. unfold parseInt. simpl.
  rewrite (digit_not_space c d Ed).
  destruct (digit_not_sign c d Ed) as [E1 E2]. rewrite E1, E2.
  cbn [read_digits]. rewrite Ed.
  destruct (read_digits_all s (10 * 0 + d)%Z Hs) as [n [Hn En]].
  { pose proof (digit_of_nonneg c d Ed). lia. }
  rewrite En. exists n. split; [ exact Hn | reflexivity ].
Qed.

Lemma all_digits_chars s :
  all_digits s = true
  <-> (forall c, In c (list_ascii_of_string s) ->
                 48 <= nat_of_ascii c <= 57).
Proof.
  induction s as [ | c s IH ]; cbn [all_digits list_ascii_of_string].
  - split; [ intros _ c [] | reflexivity ].
  - unfold digit_of.
    destruct ((48 <=? nat_of_ascii c)%nat && (nat_of_ascii c <=? 57)%nat)
      eqn:E.
    + apply andb_true_iff in E. destruct E as [E1 E2].
      apply Nat.leb_le in E1. apply Nat.leb_le in E2.
      rewrite IH. split.
      * intros Hs c' [Hc | Hc]; [ subst c'; lia | apply Hs; exact Hc ].
      * intros Hs c' Hc. apply Hs. right; exact Hc.
    + split; [ discriminate | ].
      intros Hs. exfalso.
      pose proof (Hs c (or_introl eq_refl)) as [H1 H2].
      apply Nat.leb_le in H1. apply Nat.leb_le in H2.
      rewrite H1, H2 in E. discriminate.
Qed.

(** X8. The prompt for a port or a database number lets an answer through
    exactly when every character of it is a decimal digit, the empty
    answer included; every other answer gets the message ["Please enter a
    number"].  An answer of one to fifteen digits that it lets through is
    read by [parseInt] as a number that is not negative, never as [NaN];
    the empty answer is read as [NaN]. *)
Theorem validated_number_parses (val : string) :
  (validate val = JBool true \/ validate val = JStr "Please enter a number")
  /\ (validate val = JBool true
      <-> (forall c, In c (list_ascii_of_string val) ->
                     48 <= nat_of_ascii c <= 57))
  /\ (validate val = JBool true ->
      val <> ""%string -> String.length val <= 15 ->
      exists n, (0 <= n)%Z /\ parseInt val = JNum n)
  /\ (val = ""%string -> validate val = JBool true /\ parseInt val = JNaN).
Proof.
  unfold validate. split; [ | split; [ | split ] ].
  - destruct (String.eqb val "" || _); auto.
  - rewrite <- all_digits_chars.
    destruct (String.eqb val "") eqn:E.
    + apply String.eqb_eq in E. subst val. simpl. tauto.
    + simpl. destruct (all_digits val); split; congruence.
  - intros Hv Hne _.
    destruct (String.eqb val "") eqn:E;
      [ apply String.eqb_eq in E; contradiction | ].
    simpl in Hv.
    destruct (all_digits val) eqn:Ed; [ | discriminate ].
    apply parseInt_digits; assumption.
  - intros E; subst val. split; reflexivity.
Qed.

Lemma validated_number_parses_witness :
  exists n, (0 <= n)%Z /\ parseInt "6379" = JNum n.
Proof.
  destruct (validated_number_parses "6379") as [_ [_ [Hparse _]]].
  apply Hparse; [ reflexivity | discriminate | simpl; lia ].
Defined.

(** ** The configuration of the store connection *)

Lemma get_redis_of_generated p rv arr ps c0 cps :
  get ("database" :: "redis" :: p)
    (assign_field "database" (JObj arr (assign "redis" rv ps)) (JObj c0 cps))
  = get p rv.
Proof. simpl. rewrite !lookup_assign_same. reflexivity. Qed.

(** X9. For answers that the prompts let through, with a port and a
    database number of at most fifteen digits: [createRedisConfiguration]
    succeeds exactly on a configuration whose [database] is an object.  The
    answer ["standalone"] gives one endpoint under [standalone]; every
    other answer gives a sequence of one endpoint under [cluster].
    [options] is there exactly when a database number or a password was
    given, and holds exactly those that were given.  Whatever [redis] held
    before is replaced; the other properties of [database] and of the
    configuration stay. *)
Theorem redis_configuration_of_answers (config : JValue) (a : Answers) :
  validate (port a) = JBool true -> String.length (port a) <= 15 ->
  validate (db a) = JBool true -> String.length (db a) <= 15 ->
  (forall arr ps,
      field "database" config = Some (JObj arr ps) ->
      let endpoint :=
        JRec [("host", JStr (host a)); ("port", parseInt (port a))] in
      let standalone := String.eqb (connectionType a) "standalone" in
      exists out,
        createRedisConfiguration config a = Ok out /\
        get ["database"; "redis"; "standalone"] out
        = (if standalone then Some endpoint else None) /\
        get ["database"; "redis"; "cluster"] out
        = (if standalone then None else Some (JArr [endpoint])) /\
        has out ["database"; "redis"; "options"]
        = negb (String.eqb (db a) "" && String.eqb (password a) "") /\
        get ["database"; "redis"; "options"; "db"] out
        = (if String.eqb (db a) "" then None else Some (parseInt (db a))) /\
        get ["database"; "redis"; "options"; "password"] out
        = (if String.eqb (password a) "" then None
           else Some (JStr (password a))) /\
        keys (or_null (get ["database"; "redis"] out))
        = ((if standalone then "standalone" else "cluster")
           :: (if String.eqb (db a) "" && String.eqb (password a) ""
               then [] else ["options"]))%string /\
        (forall k, k <> "redis"%string ->
                   get ["database"; k] out = lookup k ps) /\
        (forall k, k <> "database"%string -> field k out = field k config))
  /\ ((forall arr ps, field "database" config <> Some (JObj arr ps)) ->
      createRedisConfiguration config a = Throw TypeError).
Proof.
  intros _ _ _ _. split.
  - intros arr ps Hf endpoint standalone.
    destruct config as [ | | | | | c0 cps ]; try discriminate.
    simpl in Hf.
    unfold createRedisConfiguration. simpl field. rewrite Hf. cbv zeta.
    fold endpoint. fold standalone.
    match goal with
    | |- context [ assign "redis" ?rv ps ] => set (redis := rv)
    end.
    assert (R1 : get ["standalone"] redis
                 = if standalone then Some endpoint else None).
    { subst redis. simpl.
      destruct standalone; destruct (String.eqb (db a) "");
        destruct (String.eqb (password a) ""); reflexivity. }
    assert (R2 : get ["cluster"] redis
                 = if standalone then None else Some (JArr [endpoint])).
    { subst redis. simpl.
      destruct standalone; destruct (String.eqb (db a) "");
        destruct (String.eqb (password a) ""); reflexivity. }
    assert (R3 : get ["options"] redis
                 = if String.eqb (db a) "" && String.eqb (password a) ""
                   then None
                   else Some (JRec
                          ((if String.eqb (db a) "" then []
                            else [("db", parseInt (db a))])
                           ++ (if String.eqb (password a) "" then []
                               else [("password", JStr (password a))])))).
    { subst redis. simpl.
      destruct standalone; destruct (String.eqb (db a) "");
        destruct (String.eqb (password a) ""); reflexivity. }
    assert (R4 : keys redis
                 = ((if standalone then "standalone" else "cluster")
                    :: (if String.eqb (db a) "" && String.eqb (password a) ""
                        then [] else ["options"]))%string).
    { subst redis. simpl.
      destruct standalone; destruct (String.eqb (db a) "");
        destruct (String.eqb (password a) ""); reflexivity. }
    clearbody redis.
    eexists. split; [ reflexivity | ].
    assert (Hcluster :
              get ["database"; "redis"; "cluster"]
                (assign_field "database" (JObj arr (assign "redis" redis ps))
                   (JObj c0 cps))
              = if standalone then None else Some (JArr [endpoint]))
      by (rewrite get_redis_of_generated; exact R2).
    split; [ rewrite get_redis_of_generated; exact R1 | ].
    split; [ exact Hcluster | ].
    split.
    { unfold has. rewrite get_redis_of_generated, R3.
      destruct (String.eqb (db a) "" && String.eqb (password a) "");
        reflexivity. }
    split.
    { change ["database"; "redis"; "options"; "db"]
        with ("database" :: "redis" :: ["options"] ++ ["db"]).
      rewrite get_redis_of_generated, get_app, R3.
      destruct (String.eqb (db a) ""); destruct (String.eqb (password a) "");
        reflexivity. }
    split.
    { change ["database"; "redis"; "options"; "password"]
        with ("database" :: "redis" :: ["options"] ++ ["password"]).
      rewrite get_redis_of_generated, get_app, R3.
      destruct (String.eqb (db a) ""); destruct (String.eqb (password a) "");
        reflexivity. }
    split.
    { rewrite (get_redis_of_generated []). exact R4. }
    split.
    + intros k Hk. simpl. rewrite lookup_assign_same.
      rewrite lookup_assign_other by exact Hk.
      destruct (lookup k ps); reflexivity.
    + intros k Hk. simpl. apply lookup_assign_other. exact Hk.
  - intros Hn. unfold createRedisConfiguration.
    destruct (field "database" config) as [[ | | | | | arr ps ] | ] eqn:E;
      try reflexivity.
    exfalso. exact (Hn arr ps eq_refl).
Qed.

Lemma redis_configuration_of_answers_witness :
  exists out,
    createRedisConfiguration sample_server_template sample_cluster_answers
    = Ok out /\
    get ["database"; "redis"; "cluster"] out
    = Some (JArr [JRec [("host", JStr "10.0.0.5"); ("port", JNum 7000)]]) /\
    get ["database"; "redis"; "options"; "db"] out = Some (JNum 2).
Proof.
  assert (Hport : String.length (port sample_cluster_answers) <= 15)
    by (simpl; lia).
  assert (Hdb : String.length (db sample_cluster_answers) <= 15)
    by (simpl; lia).
  destruct (redis_configuration_of_answers sample_server_template
              sample_cluster_answers eq_refl Hport eq_refl Hdb) as [Hok _].
  destruct (Hok false [] eq_refl)
    as [out [H1 [_ [H3 [_ [H6 _]]]]]].
  exists out. split; [ exact H1 | ]. split; [ exact H3 | exact H6 ].
Defined.

(** ** The default gateway *)

(** A property set below [q] is seen at [q] followed by its key only. *)
Lemma get_update_assign_diverge q k x : forall p v,
  diverge p (q ++ [k]) = true ->
  get p (update q (assign_field k x) v) = get p v.
Proof.
  induction q as [ | b q IH ]; intros [ | a p ] v; simpl; try discriminate.
  - destruct (String.eqb a k) eqn:E; intros Hd.
    + destruct p; discriminate.
    + apply String.eqb_neq in E.
      destruct v; simpl; auto.
      rewrite lookup_assign_other by exact E. reflexivity.
  - destruct (String.eqb a b) eqn:E; intros Hd.
    + apply String.eqb_eq in E; subst b.
      destruct v; simpl; auto.
      rewrite lookup_alter_same.
      destruct (lookup a props); simpl; auto.
    + apply String.eqb_neq in E.
      destruct v; simpl; auto.
      rewrite lookup_alter_other by exact E. reflexivity.
Qed.

(** X10. The default gateway is the packaged template in everything but
    the secret of the administration: the secret is the identifier drawn at
    this call, one identifier is drawn, and every value of the template
    that the path of the secret does not lead to is there unchanged. *)
Theorem seeded_gateway_keeps_the_template `{Externals} (w w' : World)
    (g : JValue) :
  loadDefaultGatewayConfig w = (Ok g, w') ->
  get ["admin"; "userService"; "jwtSecret"] g
  = Some (JStr (uuid (settings w) (uuidCalls w))) /\
  uuidCalls w' = S (uuidCalls w) /\
  effects w' = effects w /\
  keys g = keys gatewayDefaultTemplate /\
  (forall p,
      diverge p ["admin"; "userService"; "jwtSecret"] = true ->
      get p g = get p gatewayDefaultTemplate).
Proof.
  unfold loadDefaultGatewayConfig.
  change ["admin"; "userService"; "jwtSecret"]
    with (["admin"; "userService"] ++ ["jwtSecret"]).
  assert (Hkeys : forall f,
             keys (update ["admin"; "userService"] f gatewayDefaultTemplate)
             = keys gatewayDefaultTemplate)
    by (intros f; apply keys_update; discriminate).
  set (P := ["admin"; "userService"]) in *. clearbody P.
  destruct (get P gatewayDefaultTemplate)
    as [[ | | | | | b us ] | ] eqn:Ea; try discriminate.
  unfold bind, new_uuid, ret.
  intros E; inversion E; subst g w'; clear E.
  split.
  { rewrite get_app, get_update_same, Ea. simpl.
    rewrite lookup_assign_same. reflexivity. }
  split; [ reflexivity | ]. split; [ reflexivity | ].
  split; [ apply Hkeys | ].
  intros p Hp.
  apply (get_update_assign_diverge P "jwtSecret"). exact Hp.
Qed.

Lemma seeded_gateway_keeps_the_template_witness :
  get ["admin"; "userService"; "jwtSecret"] sample_seeded_gateway
  = Some (JStr "uuid-0") /\
  get ["admin"; "protocol"; "http"; "listenPort"] sample_seeded_gateway
  = get ["admin"; "protocol"; "http"; "listenPort"] sample_gateway_template.
Proof.
  assert (Hrun : @loadDefaultGatewayConfig posix_externals
                   (store_entry_world sample_base None)
                 = (Ok sample_seeded_gateway,
                    with_uuidCalls 1 (store_entry_world sample_base None)))
    by (vm_compute; reflexivity).
  destruct (@seeded_gateway_keeps_the_template posix_externals _ _ _ Hrun)
    as [H1 [_ [_ [_ H5]]]].
  split; [ exact H1 | ].
  exact (H5 ["admin"; "protocol"; "http"; "listenPort"] eq_refl).
Defined.

(** ** The paths of the TLS key and certificate *)

Lemma deref_object c : is_object c = true -> deref (Some c) = Ok c.
Proof. destruct c; try discriminate; reflexivity. Qed.

(** One of the two paths. *)
Lemma resolveHttpsPath_run `{Externals} key w c hs r :
  config (this w) = Some c ->
  get ["gateway"; "protocol"; "https"] c = Some hs ->
  is_object hs = true ->
  field "rootPath" c = Some (JStr r) ->
  string_or_absent (field key hs) = true ->
  exists w' c' hs',
    resolveHttpsPath key w = (Ok tt, w') /\
    config (this w') = Some c' /\
    get ["gateway"; "protocol"; "https"] c' = Some hs' /\
    is_object hs' = true /\
    field "rootPath" c' = Some (JStr r) /\
    field key hs' = resolved_path r (field key hs) /\
    (forall k, k <> key -> field k hs' = field k hs) /\
    (forall q, diverge q ["gateway"; "protocol"; "https"; key] = true ->
               get q c' = get q c) /\
    store_kept w w' /\ effects w' = effects w /\ files w' = files w.
Proof.
  intros Hc Hh Ho Hr Hk.
  assert (Oc : is_object c = true) by (destruct c; try discriminate; reflexivity).
  unfold resolveHttpsPath, mutate_config.
  unfold bind, this_config, lift, set_config, change, ret.
  rewrite Hc, (deref_object c Oc), Hh, Hr. cbn [or_null].
  destruct (field key hs) as [[ | | | | s | ] | ] eqn:Ek; try discriminate;
    cbn [or_null startsWithDot resolved_path].
  - destruct (startsWith s ".") eqn:Es; cbn [join_values].
    + simpl fst. simpl snd. cbv iota beta.
      rewrite Hc, (deref_object c Oc).
      eexists. eexists. exists (assign_field key (JStr (path_join r s)) hs).
      split; [ reflexivity | ]. split; [ reflexivity | ].
      split; [ rewrite get_update_same, Hh; reflexivity | ].
      split; [ rewrite assign_field_is_object; exact Ho | ].
      split.
      { rewrite <- get_one, get_update_diverge by reflexivity.
        rewrite get_one. exact Hr. }
      split; [ apply field_assign_field_same; exact Ho | ].
      split; [ intros k Hne; apply field_assign_field_other; exact Hne | ].
      split.
      { intros q Hq.
        apply (get_update_assign_diverge ["gateway"; "protocol"; "https"] key).
        exact Hq. }
      repeat split.
    + exists w, c, hs. rewrite Ek. repeat split; auto.
  - exists w, c, hs. rewrite Ek. repeat split; auto.
Qed.

(** X11. When the configuration in place has a gateway with TLS settings
    and a root path, the last stage of the resolution succeeds; a key or a
    certificate given as a string that starts with a dot becomes that
    string joined to the root path, one that does not start with a dot or
    is absent stays as it is; and nothing else changes, in the
    configuration or outside.  Without a gateway, a protocol or TLS
    settings the stage does nothing. *)
Theorem tls_paths_resolve_against_root `{Externals} (w : World) :
  (forall c hs r,
      config (this w) = Some c ->
      get ["gateway"; "protocol"; "https"] c = Some hs ->
      is_object hs = true ->
      field "rootPath" c = Some (JStr r) ->
      string_or_absent (field "privateKey" hs) = true ->
      string_or_absent (field "certificate" hs) = true ->
      exists w' c',
        resolveHttpsPaths w = (Ok tt, w') /\
        config (this w') = Some c' /\
        get ["gateway"; "protocol"; "https"; "privateKey"] c'
        = resolved_path r (field "privateKey" hs) /\
        get ["gateway"; "protocol"; "https"; "certificate"] c'
        = resolved_path r (field "certificate" hs) /\
        (forall q,
            diverge q ["gateway"; "protocol"; "https"; "privateKey"] = true ->
            diverge q ["gateway"; "protocol"; "https"; "certificate"] = true ->
            get q c' = get q c) /\
        store w' = store w /\ effects w' = effects w /\ files w' = files w)
  /\ (forall c,
         config (this w) = Some c -> is_object c = true ->
         truthy (or_null (get ["gateway"; "protocol"; "https"] c)) = false ->
         resolveHttpsPaths w = (Ok tt, w)).
Proof.
  split.
  - intros c hs r Hc Hh Ho Hr Hk Hcert.
    assert (Oc : is_object c = true)
      by (destruct c; try discriminate; reflexivity).
    assert (Hguard : truthy (or_null (field "gateway" c))
                     && truthy (or_null (field "protocol"
                                           (or_null (field "gateway" c))))
                     = true).
    { clear - Hh. revert Hh. rewrite get_cons_field.
      destruct (field "gateway" c) as [g | ]; [ | discriminate ].
      cbn [or_null]. rewrite get_cons_field.
      destruct g as [ | | | | | ag gs ]; try discriminate.
      destruct (field "protocol" (JObj ag gs)) as [p | ]; [ | discriminate ].
      cbn [or_null].
      destruct p as [ | | | | | ap pps ]; try discriminate.
      reflexivity. }
    unfold resolveHttpsPaths.
    unfold bind at 1. unfold this_config at 1.
    rewrite Hc, (deref_object c Oc), Hguard, Hh. cbn [or_null].
    replace (truthy hs) with true by (destruct hs; try discriminate; reflexivity).
    unfold bind.
    destruct (resolveHttpsPath_run "privateKey" w c hs r Hc Hh Ho Hr Hk)
      as [w1 [c1 [hs1 [E1 [Hc1 [Hh1 [Ho1 [Hr1 [K1 [N1 [D1 [S1 [F1 G1]]]]]]]]]]]]].
    rewrite E1.
    assert (Hcert1 : string_or_absent (field "certificate" hs1) = true)
      by (rewrite N1; [ exact Hcert | discriminate ]).
    destruct (resolveHttpsPath_run "certificate" w1 c1 hs1 r Hc1 Hh1 Ho1 Hr1
                Hcert1)
      as [w2 [c2 [hs2 [E2 [Hc2 [Hh2 [Ho2 [Hr2 [K2 [N2 [D2 [S2 [F2 G2]]]]]]]]]]]]].
    exists w2, c2. split; [ exact E2 | ]. split; [ exact Hc2 | ].
    split.
    { change ["gateway"; "protocol"; "https"; "privateKey"]
        with (["gateway"; "protocol"; "https"] ++ ["privateKey"]).
      rewrite get_app, Hh2, get_one, N2, K1; [ reflexivity | discriminate ]. }
    split.
    { change ["gateway"; "protocol"; "https"; "certificate"]
        with (["gateway"; "protocol"; "https"] ++ ["certificate"]).
      rewrite get_app, Hh2, get_one, K2, N1; [ reflexivity | discriminate ]. }
    split.
    { intros q Q1 Q2. rewrite D2, D1; auto. }
    destruct S1 as [S1 _]. destruct S2 as [S2 _].
    repeat split; congruence.
  - intros c Hc Oc Hf.
    unfold resolveHttpsPaths.
    unfold bind at 1. unfold this_config at 1.
    rewrite Hc, (deref_object c Oc), Hf.
    destruct (truthy _ && truthy _); reflexivity.
Qed.

Lemma tls_paths_resolve_against_root_witness :
  exists w' c',
    @resolveHttpsPaths posix_externals tls_world = (Ok tt, w') /\
    config (this w') = Some c' /\
    get ["gateway"; "protocol"; "https"; "privateKey"] c'
    = Some (JStr "/srv/gw/server.key") /\
    get ["gateway"; "protocol"; "https"; "certificate"] c'
    = Some (JStr "/etc/ssl/server.cert").
Proof.
  destruct (@tls_paths_resolve_against_root posix_externals tls_world)
    as [Hresolve _].
  destruct (Hresolve sample_tls_config
              (JRec [("listenPort", JNum 8443);
                     ("privateKey", JStr "./server.key");
                     ("certificate", JStr "/etc/ssl/server.cert")])
              "/srv/gw" eq_refl eq_refl eq_refl eq_refl eq_refl eq_refl)
    as [w' [c' [H1 [H2 [H3 [H4 _]]]]]].
  exists w', c'. split; [ exact H1 | ]. split; [ exact H2 | ].
  split; [ exact H3 | exact H4 ].
Defined.

(** ** The file layers at their edges *)

(** X12. A base file that holds a falsy document, an empty one for
    instance, counts as no file: without an overlay the Bootstrap Provider
    runs.  An overlay alone is a configuration: with no base file an
    overlay that holds an object is the result as it is, and the Bootstrap
    Provider does not run.  An overlay that holds a falsy document is
    ignored, and one that does not parse fails the layers even when the
    base file is sound. *)
Theorem file_layers_at_their_edges `{Externals} (name : string) (w : World) :
  (forall base,
      env_name (settings w) = None ->
      fst (loadConfigObject name w) = Ok base ->
      truthy base = false ->
      loadServerConfig name w = await loadDefaultServerConfig w)
  /\ (forall env overlay,
         env_name (settings w) = Some env ->
         fst (loadConfigObject name w) = Ok JNull ->
         fst (loadConfigObject (name ++ "-" ++ env)%string w) = Ok overlay ->
         is_object overlay = true ->
         loadServerConfig name w = (Ok overlay, w))
  /\ (forall env base overlay,
         env_name (settings w) = Some env ->
         fst (loadConfigObject name w) = Ok base ->
         fst (loadConfigObject (name ++ "-" ++ env)%string w) = Ok overlay ->
         truthy overlay = false ->
         loadServerConfig name w
         = if truthy base then (Ok base, w)
           else await loadDefaultServerConfig w)
  /\ (forall env base e,
         env_name (settings w) = Some env ->
         fst (loadConfigObject name w) = Ok base ->
         fst (loadConfigObject (name ++ "-" ++ env)%string w) = Throw e ->
         loadServerConfig name w = (Throw e, w)).
Proof.
  split; [ | split; [ | split ] ].
  - intros base He Hb Ht.
    rewrite loadServerConfig_layers, Hb, He, Ht. reflexivity.
  - intros env overlay He Hb Ho Hobj.
    assert (Ht : truthy overlay = true)
      by (destruct overlay; try discriminate; reflexivity).
    rewrite loadServerConfig_layers, Hb, He, Ho. cbv zeta. rewrite Ht.
    rewrite defaultsDeep_leaf_source by reflexivity.
    rewrite Ht. reflexivity.
  - intros env base overlay He Hb Ho Ht.
    rewrite loadServerConfig_layers, Hb, He, Ho. cbv zeta. rewrite Ht.
    reflexivity.
  - intros env base e He Hb Ho.
    rewrite loadServerConfig_layers, Hb, He, Ho. reflexivity.
Qed.

Lemma file_layers_at_their_edges_witness :
  @loadServerConfig posix_externals "/srv/gw/tree-gateway" empty_document_world
  = await (@loadDefaultServerConfig posix_externals) empty_document_world
  /\ @loadServerConfig posix_externals "/srv/gw/tree-gateway" overlay_only_world
     = (Ok sample_overlay, overlay_only_world).
Proof.
  split.
  - destruct (@file_layers_at_their_edges posix_externals
                "/srv/gw/tree-gateway" empty_document_world) as [Hempty _].
    exact (Hempty JNull eq_refl eq_refl eq_refl).
  - destruct (@file_layers_at_their_edges posix_externals
                "/srv/gw/tree-gateway" overlay_only_world)
      as [_ [Honly _]].
    exact (Honly "production" sample_overlay eq_refl eq_refl eq_refl eq_refl).
Defined.

(** ** The defaults of the paths at their edges *)

Lemma join_values_error `{Externals} a b e :
  join_values a b = Throw e -> e = TypeError.
Proof.
  unfold join_values.
  destruct a; try (intros E; inversion E; reflexivity).
  destruct b; intros E; inversion E; reflexivity.
Qed.

Lemma join_values_not_string_l `{Externals} a b :
  is_string a = false -> join_values a b = Throw TypeError.
Proof. destruct a; try discriminate; reflexivity. Qed.

Lemma join_values_not_string_r `{Externals} a b :
  is_string b = false -> join_values a b = Throw TypeError.
Proof. destruct a, b; try discriminate; reflexivity. Qed.

(** X13. A [rootPath] that is there and is not a string fails the
    defaulting of the paths with a [TypeError], whatever the rest of the
    configuration is; and the defaulting of the paths has no other way to
    fail. *)
Theorem non_string_root_path_is_refused `{Externals} (name : string)
    (sc : JValue) :
  (forall v,
      field "rootPath" sc = Some v -> is_string v = false ->
      defaultPaths name sc = Throw TypeError)
  /\ (forall e, defaultPaths name sc = Throw e -> e = TypeError).
Proof.
  split.
  - intros v Hf Hv. unfold defaultPaths.
    set (sc1 := defaults sc "rootPath" (JStr (path_dirname name))).
    assert (R1 : field "rootPath" sc1 = Some v)
      by (unfold sc1; rewrite field_defaults_same, Hf; reflexivity).
    clearbody sc1. rewrite R1. cbn [or_null].
    destruct (startsWithDot v).
    + rewrite join_values_not_string_r by exact Hv. reflexivity.
    + cbn [and_then]. rewrite R1. cbn [or_null].
      rewrite join_values_not_string_l by exact Hv. reflexivity.
  - intros e. unfold defaultPaths.
    repeat match goal with
           | |- context [ if ?b then _ else _ ] => destruct b
           | |- context [ join_values ?a ?b ] =>
               let E := fresh "E" in
               destruct (join_values a b) eqn:E;
                 [ | apply join_values_error in E; subst ]
           | |- _ => progress cbn [and_then]
           end;
      intros Hfinal; inversion Hfinal; reflexivity.
Qed.

Lemma non_string_root_path_is_refused_witness :
  @defaultPaths posix_externals "/srv/gw/tree-gateway"
    (JRec [("rootPath", JNum 42)]) = Throw TypeError.
Proof.
  destruct (@non_string_root_path_is_refused posix_externals
              "/srv/gw/tree-gateway" (JRec [("rootPath", JNum 42)]))
    as [Hrefuse _].
  exact (Hrefuse (JNum 42) eq_refl eq_refl).
Defined.

(** ** What the Array Normalizer leaves alone *)

Lemma keys_cast_all Q : forall server,
  (forall q, In q Q -> q <> []) ->
  keys (fold_left cast_at Q server) = keys server.
Proof.
  induction Q as [ | q Q IH ]; intros server HQ; simpl; auto.
  rewrite IH by (intros q' Hq'; apply HQ; right; exact Hq').
  unfold cast_at. apply keys_update. apply HQ. left; reflexivity.
Qed.

(** X14. However it ends, the Array Normalizer has changed nothing but
    values that it goes through: a value at a path that parts from every
    one of its targets is what it was, which holds for everything outside
    [database] and [gateway]; and the configuration keeps its own keys. *)
Theorem normalizer_leaves_the_rest (server : JValue) :
  (forall p,
      forallb (diverge p) (targets server) = true ->
      get p (snd (castArrays server)) = get p server)
  /\ (forall k rest,
         k <> "database"%string -> k <> "gateway"%string ->
         get (k :: rest) (snd (castArrays server)) = get (k :: rest) server)
  /\ keys (snd (castArrays server)) = keys server.
Proof.
  split; [ | split ].
  - intros p Hp. destruct (castArrays_some_fold server) as [Q [E HQ]].
    rewrite E. apply get_cast_diverge.
    rewrite forallb_forall in Hp. intros q Hq. apply Hp, HQ, Hq.
  - intros k rest. apply get_castArrays_elsewhere.
  - destruct (castArrays_heads server) as [Q [E HQ]].
    rewrite E. apply keys_cast_all.
    intros q Hq. destruct (HQ q Hq) as [h [r [Eq _]]]. subst q. discriminate.
Qed.

Lemma normalizer_leaves_the_rest_witness :
  get ["gateway"; "protocol"; "http"; "listenPort"]
    (snd (castArrays sample_base_with_gateway))
  = get ["gateway"; "protocol"; "http"; "listenPort"] sample_base_with_gateway.
Proof.
  destruct (normalizer_leaves_the_rest sample_base_with_gateway) as [Hrest _].
  apply Hrest. vm_compute. reflexivity.
Defined.

(** ** The interpolation of the variables *)

Lemma to_uint_not_nil n : Nat.to_uint n <> Decimal.Nil.
Proof.
  rewrite <- (DecimalNat.Unsigned.of_to n) at 1.
  rewrite DecimalNat.Unsigned.to_of.
  unfold Decimal.unorm. destruct (Decimal.nzhead (Nat.to_uint n)); discriminate.
Qed.

(** Two indices have the same key only when they are the same. *)
Lemma index_key_inj n m : index_key n = index_key m -> n = m.
Proof.
  unfold index_key. intros E.
  apply (f_equal NilZero.uint_of_string) in E.
  rewrite !NilZero.usu in E by apply to_uint_not_nil.
  inversion E as [E'].
  apply DecimalNat.Unsigned.to_uint_inj. exact E'.
Qed.

Lemma lookup_index_from l : forall m n,
  lookup (index_key (m + n)) (index_from m l) = nth_error l n.
Proof.
  induction l as [ | x r IH ]; intros m n; simpl.
  - destruct n; reflexivity.
  - destruct n as [ | n' ].
    + rewrite Nat.add_0_r, String.eqb_refl. reflexivity.
    + destruct (String.eqb (index_key (m + S n')) (index_key m)) eqn:E.
      * apply String.eqb_eq, index_key_inj in E. lia.
      * replace (m + S n') with (S m + n') by lia. apply IH.
Qed.

Lemma length_index_from l : forall n, List.length (index_from n l) = List.length l.
Proof. induction l as [ | x r IH ]; intros n; simpl; auto. Qed.

Lemma elements_from_index rest fuel : forall pre l,
  lookup (index_key (List.length (pre ++ l))) rest = None ->
  elements_from (List.length pre) fuel (index_from 0 (pre ++ l) ++ rest)
  = firstn fuel l.
Proof.
  induction fuel as [ | fuel IH ]; intros pre l Hrest; simpl; auto.
  rewrite lookup_app.
  pose proof (lookup_index_from (pre ++ l) 0 (List.length pre)) as L.
  change (0 + List.length pre) with (List.length pre) in L.
  rewrite L. clear L.
  rewrite nth_error_app2 by lia. rewrite Nat.sub_diag.
  destruct l as [ | x r ]; simpl.
  - rewrite app_nil_r in Hrest. rewrite Hrest. reflexivity.
  - f_equal.
    replace (pre ++ x :: r) with ((pre ++ [x]) ++ r) in *
      by (rewrite <- app_assoc; reflexivity).
    replace (S (List.length pre)) with (List.length (pre ++ [x]))
      by (rewrite length_app; simpl; lia).
    apply IH. exact Hrest.
Qed.

(** The elements of an array are its elements, whatever else it holds. *)
Lemma elements_with_rest l rest :
  lookup (index_key (List.length l)) rest = None ->
  elements (index_from 0 l ++ rest) = l.
Proof.
  intros Hrest. unfold elements.
  rewrite (elements_from_index rest _ [] l Hrest).
  rewrite length_app, length_index_from.
  rewrite firstn_all2 by lia. reflexivity.
Qed.

Lemma elements_index_from l : elements (index_from 0 l) = l.
Proof.
  rewrite <- (app_nil_r (index_from 0 l)).
  apply elements_with_rest. reflexivity.
Qed.

Lemma indexed_from_eq ps : forall n,
  indexed_from n ps = true -> ps = index_from n (map snd ps).
Proof.
  induction ps as [ | [k x] r IH ]; intros n Hi; simpl in *; auto.
  apply andb_true_iff in Hi. destruct Hi as [Hk Hr].
  apply String.eqb_eq in Hk. subst k. f_equal. apply IH. exact Hr.
Qed.

Lemma map_index_from (g : JValue -> JValue) l : forall n,
  map (fun kv : string * JValue => (fst kv, g (snd kv))) (index_from n l)
  = index_from n (map g l).
Proof. induction l as [ | x r IH ]; intros n; simpl; congruence. Qed.

(** On a proper value the interpolation keeps arrays and objects their
    keys. *)
Lemma deepMapValues_proper f a ps :
  proper (JObj a ps) = true ->
  deepMapValues f (JObj a ps)
  = JObj a (map (fun kv => (fst kv, deepMapValues f (snd kv))) ps).
Proof.
  intros Hp. cbn [deepMapValues]. destruct a; [ | reflexivity ].
  cbn [proper] in Hp. apply andb_true_iff in Hp. destruct Hp as [Hi _].
  rewrite (indexed_from_eq ps 0 Hi) at 1.
  rewrite map_index_from, elements_index_from.
  unfold JArr. rewrite <- map_index_from, <- (indexed_from_eq ps 0 Hi).
  reflexivity.
Qed.

Lemma proper_lookup k a ps y :
  proper (JObj a ps) = true -> lookup k ps = Some y -> proper y = true.
Proof.
  cbn [proper]. intros Hp. apply andb_true_iff in Hp. destruct Hp as [_ Hp].
  induction ps as [ | [k' x] r IH ]; simpl in *; [ discriminate | ].
  apply andb_true_iff in Hp. destruct Hp as [Hx Hr].
  destruct (String.eqb k k'); [ intros E; inversion E; subst; exact Hx | ].
  apply IH. exact Hr.
Qed.

Lemma get_deepMapValues f p : forall v x,
  proper v = true ->
  get p v = Some x ->
  get p (deepMapValues f v) = Some (deepMapValues f x).
Proof.
  induction p as [ | k p IH ]; intros v x Hp Hg; simpl in Hg.
  - inversion Hg; subst. reflexivity.
  - destruct v as [ | | | | | a ps ]; try discriminate.
    rewrite (deepMapValues_proper f a ps Hp).
    cbn [get]. rewrite lookup_map_values.
    destruct (lookup k ps) as [y | ] eqn:Ey; [ | discriminate ].
    simpl. apply IH; [ | exact Hg ].
    exact (proper_lookup k a ps y Hp Ey).
Qed.

Lemma deepMapValues_id f v :
  (forall x, f x = x) -> proper v = true -> deepMapValues f v = v.
Proof.
  intros Hf. induction v using JValue_induction; intros Hp;
    try (simpl; apply Hf).
  rewrite (deepMapValues_proper f a ps Hp). f_equal.
  cbn [proper] in Hp. apply andb_true_iff in Hp. destruct Hp as [_ Hp].
  induction ps as [ | [k y] r IHr ]; simpl; auto.
  inversion H; subst. simpl in *.
  apply andb_true_iff in Hp. destruct Hp as [Hy Hr].
  f_equal; [ f_equal; auto | ].
  apply IHr; assumption.
Qed.

(** X15. In a configuration as the parsers give it, where a sequence
    holds its elements and nothing else, the interpolation reaches every
    leaf, of whatever type and at whatever depth, inside sequences too: the
    value at a path is replaced by what [checkEnvVariable] makes of it when
    it is a leaf, and by its own interpolation when it is an object.  The
    keys stay as they are; and when [checkEnvVariable] changes no value,
    the configuration is unchanged.  A sequence, proper or not, becomes the
    sequence of the interpolations of its elements. *)
Theorem interpolation_reaches_every_leaf `{Externals} (v : JValue) :
  (proper v = true ->
   (forall p x,
       get p v = Some x -> is_object x = false ->
       get p (deepMapValues checkEnvVariable v) = Some (checkEnvVariable x))
   /\ (forall p x,
          get p v = Some x ->
          get p (deepMapValues checkEnvVariable v)
          = Some (deepMapValues checkEnvVariable x))
   /\ (forall p x,
          get p v = Some x -> is_object x = true ->
          keys (or_null (get p (deepMapValues checkEnvVariable v))) = keys x)
   /\ ((forall x, checkEnvVariable x = x) ->
       deepMapValues checkEnvVariable v = v))
  /\ (forall l rest,
         v = JObj true (index_from 0 l ++ rest) ->
         lookup (index_key (List.length l)) rest = None ->
         deepMapValues checkEnvVariable v
         = JArr (map (deepMapValues checkEnvVariable) l)).
Proof.
  split.
  - intros Hp. split; [ | split; [ | split ] ].
    + intros p x Hg Hx. rewrite (get_deepMapValues _ _ _ _ Hp Hg).
      destruct x; try discriminate; reflexivity.
    + intros p x. apply get_deepMapValues. exact Hp.
    + intros p x Hg Hx. rewrite (get_deepMapValues _ _ _ _ Hp Hg).
      assert (Hx' : proper x = true).
      { clear Hx. revert v x Hp Hg.
        induction p as [ | k p IH ]; intros v x Hp Hg; simpl in Hg.
        - inversion Hg; subst; exact Hp.
        - destruct v as [ | | | | | a ps ]; try discriminate.
          destruct (lookup k ps) as [y | ] eqn:Ey; [ | discriminate ].
          apply (IH y x); [ exact (proper_lookup k a ps y Hp Ey) | exact Hg ]. }
      destruct x as [ | | | | | a ps ]; try discriminate.
      rewrite (deepMapValues_proper _ a ps Hx'). simpl.
      rewrite map_map. reflexivity.
    + intros Hid. apply deepMapValues_id; assumption.
  - intros l rest E Hrest. subst v. cbn [deepMapValues]. f_equal.
    rewrite map_app, map_index_from.
    apply elements_with_rest. rewrite length_map, lookup_map_values, Hrest.
    reflexivity.
Qed.

Lemma interpolation_reaches_every_leaf_witness :
  get ["database"; "redis"; "standalone"; "port"]
    (deepMapValues (@checkEnvVariable posix_externals) sample_base)
  = Some (JNum 6379)
  /\ deepMapValues (@checkEnvVariable posix_externals) sample_base
     = sample_base
  /\ deepMapValues (@checkEnvVariable posix_externals)
       (JObj true [("0", JStr "a"); ("rootPath", JStr "/srv")])
     = JArr [JStr "a"].
Proof.
  destruct (@interpolation_reaches_every_leaf posix_externals sample_base)
    as [Hproper _].
  destruct (Hproper eq_refl) as [Hleaf [_ [_ Hid]]].
  destruct (@interpolation_reaches_every_leaf posix_externals
              (JObj true [("0", JStr "a"); ("rootPath", JStr "/srv")]))
    as [_ Harray].
  split.
  - exact (Hleaf ["database"; "redis"; "standalone"; "port"] (JNum 6379)
             eq_refl eq_refl).
  - split; [ apply Hid; intros x; reflexivity | ].
    exact (Harray [JStr "a"] [("rootPath", JStr "/srv")] eq_refl eq_refl).
Defined.

(** ** What each part of a resolution touches *)

#[export] Instance files_only_frame : Frame files_only.
Proof.
  split.
  - intros w. repeat split.
    exists []. split; [ symmetry; apply app_nil_r | reflexivity ].
  - intros a b c [T1 [S1 [U1 [G1 [l1 [E1 F1]]]]]] [T2 [S2 [U2 [G2 [l2 [E2 F2]]]]]].
    repeat split; try congruence.
    exists (l1 ++ l2). split.
    + rewrite E2, E1. symmetry; apply app_assoc.
    + rewrite forallb_app, F1, F2. reflexivity.
  - intros w. repeat split.
    exists []. split; [ symmetry; apply app_nil_r | reflexivity ].
Qed.

Lemma files_only_writeFile path content : keeps files_only (writeFile path content).
Proof.
  unfold writeFile. primitive. repeat split.
  exists [WriteFile path content]. split; reflexivity.
Qed.

Lemma files_only_askRedisOptions : keeps files_only askRedisOptions.
Proof.
  unfold askRedisOptions. primitive. repeat split.
  exists [Prompt]. split; reflexivity.
Qed.

#[export] Hint Resolve files_only_writeFile files_only_askRedisOptions : keeps.

Lemma files_only_loadServerConfig `{Externals} name :
  keeps files_only (loadServerConfig name).
Proof.
  unfold loadServerConfig, loadConfigObject, loadDefaultServerConfig.
  keeps_all.
Qed.

(** X16. The file layers, the Bootstrap Provider included, work on files
    only: the instance, the store and the generator of identifiers are left
    as they are, and the only things done outside are the prompt and the
    writing of the file.  Everything that follows them in a resolution
    leaves the files as they are and does not prompt. *)
Theorem file_layers_touch_files_only `{Externals} (file : string) (w : World) :
  (forall name,
      let w1 := snd (loadServerConfig name w) in
      this w1 = this w /\ store w1 = store w /\ uuidCalls w1 = uuidCalls w /\
      forall e, In e (effects w1) -> In e (effects w) \/ is_bootstrap e = true)
  /\ (let w1 :=
        snd (loadServerConfig (configFileNameOf (cwd (settings w)) file) w) in
      let w2 := snd (loadGatewayConfig file w) in
      files w2 = files w1 /\
      filter is_bootstrap (effects w2) = filter is_bootstrap (effects w1)).
Proof.
  split.
  - intros name w1.
    destruct (files_only_loadServerConfig name w)
      as [T [S [U [_ [l [E F]]]]]].
    fold w1 in T, S, U, E.
    repeat split; auto.
    intros e He. rewrite E in He. apply in_app_or in He.
    destruct He as [He | He]; [ left; exact He | right ].
    rewrite forallb_forall in F. apply F. exact He.
  - intros w1 w2.
    destruct (loadGatewayConfig_keeps_files file w) as [F [_ E]].
    split; [ exact F | exact E ].
Qed.

Lemma store_kept_by w w' l :
  store w' = store w -> uuidCalls w' = uuidCalls w ->
  settings w' = settings w ->
  effects w' = effects w ++ l -> filter is_store_write l = [] ->
  store_kept w w'.
Proof.
  intros S U G E F. repeat split; auto.
  rewrite E, filter_app, F. apply app_nil_r.
Qed.

#[export] Instance store_kept_frame : Frame store_kept.
Proof.
  split.
  - intros w. repeat split.
  - intros a b c [S1 [U1 [G1 E1]]] [S2 [U2 [G2 E2]]].
    repeat split; congruence.
  - intros w. repeat split.
Qed.

Lemma store_kept_writeFile path content : keeps store_kept (writeFile path content).
Proof.
  unfold writeFile. primitive.
  apply store_kept_by with (l := [WriteFile path content]); reflexivity.
Qed.

Lemma store_kept_askRedisOptions : keeps store_kept askRedisOptions.
Proof.
  unfold askRedisOptions. primitive.
  apply store_kept_by with (l := [Prompt]); reflexivity.
Qed.

Lemma store_kept_set_config c : keeps store_kept (set_config c).
Proof. intros w. repeat split. Qed.

Lemma store_kept_suspend : keeps store_kept (change suspend).
Proof. intros w. apply frame_suspend. Qed.

#[export] Hint Resolve store_kept_writeFile store_kept_askRedisOptions
  store_kept_set_config store_kept_suspend : keeps.

Lemma store_kept_mutate_config f : keeps store_kept (mutate_config f).
Proof. unfold mutate_config. keeps_all. Qed.

#[export] Hint Resolve store_kept_mutate_config : keeps.

Lemma store_kept_mutate_config_by m : keeps store_kept (mutate_config_by m).
Proof. unfold mutate_config_by. keeps_all. Qed.

#[export] Hint Resolve store_kept_mutate_config_by : keeps.

Lemma store_kept_loadServerConfig `{Externals} name :
  keeps store_kept (loadServerConfig name).
Proof.
  unfold loadServerConfig, loadConfigObject, loadDefaultServerConfig.
  keeps_all.
Qed.

Lemma store_kept_resolveHttpsPaths `{Externals} :
  keeps store_kept resolveHttpsPaths.
Proof. unfold resolveHttpsPaths, resolveHttpsPath. keeps_all. Qed.

(** With a gateway in the store and no reset, the Store Overlay only
    reads. *)
Lemma store_kept_loadDatabaseConfig `{Externals} w a ps stored :
  resetBeforeStart (settings w) = false ->
  savedGateway (store w) = Some stored ->
  truthy stored = true ->
  config (this w) = Some (JObj a ps) ->
  store_kept w (snd (loadDatabaseConfig w)).
Proof.
  intros Hr Hs Ht Hc.
  unfold loadDatabaseConfig.
  unfold bind at 1. unfold change at 1.
  unfold bind at 1. unfold read at 1.
  change (settings (suspend w)) with (settings w). rewrite Hr.
  destruct (online (store w)) eqn:Ho.
  - rewrite (getConfigFromDB_stored (suspend w) a ps stored Hc Ho Hs Ht).
    destruct (validateGatewayConfig _); repeat split.
  - unfold getConfigFromDB, bind, await, gatewayService_get. simpl.
    rewrite Ho. repeat split.
Qed.

(** X17. A resolution writes to the store only to reset it or to seed it:
    when the store holds a gateway and no reset is asked for, the store is
    what it was after the resolution, however the resolution ends; nothing
    was saved, registered or flushed, and no identifier was drawn. *)
Theorem store_is_only_read_when_it_holds_a_gateway `{Externals}
    (file : string) (w : World) (stored : JValue) :
  resetBeforeStart (settings w) = false ->
  savedGateway (store w) = Some stored ->
  truthy stored = true ->
  let w' := snd (loadGatewayConfig file w) in
  store w' = store w /\ uuidCalls w' = uuidCalls w /\
  filter is_store_write (effects w') = filter is_store_write (effects w).
Proof.
  intros Hr Hs Ht w'.
  assert (Hkept : store_kept w w').
  { subst w'. rewrite loadGatewayConfig_stages. cbv zeta.
    pose proof (store_kept_loadServerConfig
                  (configFileNameOf (cwd (settings w)) file) w) as K1.
    destruct (loadServerConfig _ w) as [[raw | e] w1]; simpl in K1;
      [ | eapply frame_trans; [ exact K1 | apply frame_suspend ] ].
    assert (K2 : store_kept w (suspend (suspend w1))).
    { eapply frame_trans; [ exact K1 | ].
      eapply frame_trans; apply frame_suspend. }
    destruct (validateServerConfig raw) as [validated | e]; [ | exact K2 ].
    destruct (defaultPaths _ validated) as [defaulted | e] eqn:Ed;
      [ | exact K2 ].
    pose proof (defaultPaths_object _ _ _ Ed) as Od.
    apply (deepMapValues_object checkEnvVariable) in Od.
    apply castArrays_object in Od.
    destruct (castArrays _) as [[[] | e] normalised]; [ | exact K2 ].
    simpl in Od.
    destruct normalised as [ | | | | | a ps ]; try discriminate.
    match goal with
    | |- context [ loadDatabaseConfig ?x ] =>
        assert (K3 : store_kept w x) by exact K2;
        pose proof (store_kept_loadDatabaseConfig x a ps stored) as K4;
        destruct K3 as [S3 [U3 [G3 E3]]];
        rewrite G3, S3 in K4; specialize (K4 Hr Hs Ht eq_refl);
        assert (K5 : store_kept w (snd (loadDatabaseConfig x)))
          by (eapply frame_trans; [ exact K2 | exact K4 ]);
        destruct (loadDatabaseConfig x) as [[[] | e] w2]
    end; simpl in K5.
    - eapply frame_trans; [ exact K5 | ].
      eapply frame_trans; [ apply frame_suspend | ].
      apply store_kept_resolveHttpsPaths.
    - eapply frame_trans; [ exact K5 | apply frame_suspend ]. }
  destruct Hkept as [S [U [_ E]]]. repeat split; assumption.
Qed.

Lemma store_is_only_read_when_it_holds_a_gateway_witness :
  store (snd (@loadGatewayConfig posix_externals "/srv/gw/tree-gateway.yml"
                stored_gateway_world))
  = store stored_gateway_world.
Proof.
  apply (@store_is_only_read_when_it_holds_a_gateway posix_externals
           "/srv/gw/tree-gateway.yml" stored_gateway_world
           sample_stored_gateway eq_refl eq_refl eq_refl).
Defined.

(** ** The Bootstrap Provider at its edges *)

(** X18. The Bootstrap Provider asks first and writes last, and how it
    ends does not depend on the write: it fails exactly when the prompt
    fails or the packaged template has no [database] object, and then
    nothing is written.  When it succeeds it returns the template with the
    store connection made from the answers; where the directory can be
    written to, the one file written is [tree-gateway.yaml] of the working
    directory and it parses to that configuration; where it cannot, the
    failure of the write is not noticed, and the files are what they
    were. *)
Theorem bootstrap_asks_first_and_writes_last `{Externals} (w : World) :
  let target := bootstrapFilePath (cwd (settings w)) in
  fst (loadDefaultServerConfig w)
  = and_then (answers (settings w))
      (createRedisConfiguration serverDefaultTemplate)
  /\ (forall e,
         fst (loadDefaultServerConfig w) = Throw e ->
         files (snd (loadDefaultServerConfig w)) = files w /\
         effects (snd (loadDefaultServerConfig w)) = effects w ++ [Prompt])
  /\ (forall c,
         fst (loadDefaultServerConfig w) = Ok c ->
         writable (settings w) = true ->
         files (snd (loadDefaultServerConfig w))
         = (target, Parsed c) :: files w /\
         effects (snd (loadDefaultServerConfig w))
         = effects w ++ [Prompt; WriteFile target c] /\
         fst (parse_file target (snd (loadDefaultServerConfig w))) = Ok c)
  /\ (forall c,
         fst (loadDefaultServerConfig w) = Ok c ->
         writable (settings w) = false ->
         files (snd (loadDefaultServerConfig w)) = files w /\
         effects (snd (loadDefaultServerConfig w)) = effects w ++ [Prompt]).
Proof.
  intros target.
  unfold loadDefaultServerConfig, bind, read, await, askRedisOptions, lift,
    writeFile, ret.
  fold target. simpl.
  destruct (answers (settings w)) as [a | e0] eqn:Ea; simpl.
  - destruct (createRedisConfiguration serverDefaultTemplate a) as [c0 | e1]
      eqn:Ec; simpl.
    + destruct (writable (settings w)); simpl.
      * split; [ reflexivity | ].
        split; [ intros e E; discriminate | ].
        split; [ | intros c _ E; discriminate ].
        intros c E _. inversion E; subst c.
        split; [ reflexivity | ].
        split; [ rewrite <- app_assoc; reflexivity | ].
        unfold parse_file. simpl. rewrite String.eqb_refl. reflexivity.
      * split; [ reflexivity | ].
        split; [ intros e E; discriminate | ].
        split; [ intros c _ E; discriminate | ].
        intros c _ _. split; reflexivity.
    + split; [ reflexivity | ].
      split; [ intros e E; split; reflexivity | ].
      split; intros c E; discriminate.
  - split; [ reflexivity | ].
    split; [ intros e E; split; reflexivity | ].
    split; intros c E; discriminate.
Qed.

Lemma bootstrap_asks_first_and_writes_last_witness :
  fst (@loadDefaultServerConfig posix_externals read_only_world)
  = Ok sample_generated
  /\ files (snd (@loadDefaultServerConfig posix_externals read_only_world))
     = []
  /\ effects (snd (@loadDefaultServerConfig posix_externals read_only_world))
     = [Prompt]
  /\ files (snd (@loadDefaultServerConfig posix_externals
                   empty_directory_world))
     = [("/app/tree-gateway.yaml", Parsed sample_generated)].
Proof.
  destruct (@bootstrap_asks_first_and_writes_last posix_externals
              read_only_world) as [Hends [_ [_ Hunnoticed]]].
  destruct (@bootstrap_asks_first_and_writes_last posix_externals
              empty_directory_world) as [_ [_ [Hwritten _]]].
  assert (Hok : fst (@loadDefaultServerConfig posix_externals read_only_world)
                = Ok sample_generated)
    by (rewrite Hends; vm_compute; reflexivity).
  assert (Hok' : fst (@loadDefaultServerConfig posix_externals
                        empty_directory_world) = Ok sample_generated)
    by (vm_compute; reflexivity).
  destruct (Hunnoticed sample_generated Hok eq_refl) as [Hfiles Heffects].
  destruct (Hwritten sample_generated Hok' eq_refl) as [Hfiles' _].
  split; [ exact Hok | ].
  split; [ exact Hfiles | ].
  split; [ exact Heffects | exact Hfiles' ].
Defined.

(** ** What a failure leaves behind *)

#[export] Instance paths_kept_frame : Frame paths_kept.
Proof.
  split.
  - intros w. split; auto. intros c Hc Ho. exists c. auto.
  - intros a b c [L1 P1] [L2 P2]. split; [ congruence | ].
    intros x Hx Ho.
    destruct (P1 x Hx Ho) as [y [Hy [Oy Ky]]].
    destruct (P2 y Hy Oy) as [z [Hz [Oz Kz]]].
    exists z. split; [ exact Hz | ]. split; [ exact Oz | ].
    intros k Hk. rewrite Kz, Ky; auto.
  - intros w. split; auto. intros c Hc Ho. exists c. auto.
Qed.

Lemma paths_kept_same w w' : this w' = this w -> paths_kept w w'.
Proof.
  intros E. split; [ rewrite E; reflexivity | ].
  intros c Hc Ho. exists c. rewrite E. auto.
Qed.

Lemma paths_kept_new_uuid : keeps paths_kept new_uuid.
Proof. unfold new_uuid. primitive. apply paths_kept_same; reflexivity. Qed.

Lemma paths_kept_save g : keeps paths_kept (gatewayService_save g).
Proof. unfold gatewayService_save. primitive. apply paths_kept_same; reflexivity. Qed.

Lemma paths_kept_register : keeps paths_kept gatewayService_registerGatewayVersion.
Proof.
  unfold gatewayService_registerGatewayVersion. primitive.
  apply paths_kept_same; reflexivity.
Qed.

Lemma paths_kept_flushdb : keeps paths_kept flushdb.
Proof. unfold flushdb. primitive. apply paths_kept_same; reflexivity. Qed.

Lemma paths_kept_suspend : keeps paths_kept (change suspend).
Proof. intros w. apply frame_suspend. Qed.

Lemma paths_kept_mutate f :
  (forall c, is_object c = true ->
             is_object (f c) = true /\
             forall k, k <> "gateway"%string -> field k (f c) = field k c) ->
  keeps paths_kept (mutate_config f).
Proof.
  intros Hf w. unfold mutate_config, bind, this_config, set_config, change.
  destruct (deref (config (this w))) as [c | e] eqn:Ed; simpl;
    [ | apply frame_refl ].
  split; [ reflexivity | ].
  intros x Hx Ho. rewrite Hx, (deref_object x Ho) in Ed.
  inversion Ed; subst c.
  destruct (Hf x Ho) as [O K].
  exists (f x). auto.
Qed.

Lemma paths_kept_assign_gateway g :
  keeps paths_kept (mutate_config (assign_field "gateway" g)).
Proof.
  apply paths_kept_mutate. intros c Ho. split.
  - rewrite assign_field_is_object. exact Ho.
  - intros k Hk. apply field_assign_field_other. exact Hk.
Qed.

Lemma paths_kept_update_gateway q F :
  q <> [] ->
  keeps paths_kept (mutate_config (update ("gateway" :: q) F)).
Proof.
  intros Hq. apply paths_kept_mutate. intros c Ho.
  destruct (update_gateway_kept q F c Hq) as [O [K _]].
  split; [ congruence | exact K ].
Qed.

#[export] Hint Resolve paths_kept_new_uuid paths_kept_save paths_kept_register
  paths_kept_flushdb paths_kept_suspend paths_kept_assign_gateway : keeps.

Lemma paths_kept_loadDatabaseConfig `{Externals} :
  keeps paths_kept loadDatabaseConfig.
Proof.
  unfold loadDatabaseConfig, getConfigFromDB, loadDefaultGatewayConfig.
  keeps_all.
Qed.

Lemma paths_kept_resolveHttpsPaths `{Externals} :
  keeps paths_kept resolveHttpsPaths.
Proof.
  unfold resolveHttpsPaths, resolveHttpsPath.
  repeat first [ keeps_step
               | solve [ auto with keeps ]
               | apply paths_kept_update_gateway; discriminate ].
Qed.

(** ** The paths of a resolved configuration *)

(** Once the file layers, the validation and the defaulting of the paths
    have succeeded, the instance holds a configuration, however the
    resolution ends, and every property of it but [database] and [gateway]
    is the interpolated one of the defaulted document. *)
Lemma loadGatewayConfig_fields `{Externals} file w raw validated defaulted :
  let name := configFileNameOf (cwd (settings w)) file in
  fst (loadServerConfig name w) = Ok raw ->
  validateServerConfig raw = Ok validated ->
  defaultPaths name validated = Ok defaulted ->
  exists c,
    config (this (snd (loadGatewayConfig file w))) = Some c /\
    is_object c = true /\
    forall k, k <> "gateway"%string -> k <> "database"%string ->
              field k c = field k (deepMapValues checkEnvVariable defaulted).
Proof.
  intros name Hraw Hv Hd.
  rewrite loadGatewayConfig_stages. cbv zeta. fold name.
  destruct (loadServerConfig name w) as [[raw' | e1] w1]; simpl in Hraw;
    [ | discriminate ].
  inversion Hraw; subst raw'; clear Hraw. rewrite Hv, Hd.
  pose proof (defaultPaths_object _ _ _ Hd) as Od.
  set (interpolated := deepMapValues checkEnvVariable defaulted) in *.
  assert (Oi : is_object interpolated = true)
    by (apply deepMapValues_object; exact Od).
  clearbody interpolated.
  pose proof (castArrays_object interpolated Oi) as On.
  assert (Kn : forall k, k <> "gateway"%string -> k <> "database"%string ->
                 field k (snd (castArrays interpolated)) = field k interpolated).
  { intros k Hg Hdb. rewrite <- !get_one.
    apply get_castArrays_elsewhere; assumption. }
  destruct (castArrays interpolated) as [r0 normalised].
  simpl in On, Kn.
  destruct r0 as [[] | e4]; [ | exists normalised; auto ].
  match goal with
  | |- context [ loadDatabaseConfig ?x ] =>
      pose proof (paths_kept_loadDatabaseConfig x) as [_ P2];
      specialize (P2 normalised eq_refl On);
      destruct (loadDatabaseConfig x) as [[[] | e4] w2]
  end; simpl in P2; destruct P2 as [c2 [Hc2 [O2 K2]]].
  - pose proof (paths_kept_resolveHttpsPaths (suspend w2)) as [_ P3].
    destruct (P3 c2 Hc2 O2) as [c3 [Hc3 [O3 K3]]].
    exists c3. split; [ exact Hc3 | ]. split; [ exact O3 | ].
    intros k Hg Hdb. rewrite K3, K2, Kn; auto.
  - exists c2. split; [ exact Hc2 | ]. split; [ exact O2 | ].
    intros k Hg Hdb. rewrite K2, Kn; auto.
Qed.

(** C6, as the code has it, for a document that is neither a string nor
    an array and whose [rootPath] and [middlewarePath] are strings where
    they are there.  The
    defaults of the paths, step by step: a missing [rootPath] is the
    directory of the configuration file; a [rootPath], given or defaulted,
    that starts with a dot is joined to that directory; a missing
    [middlewarePath] is [rootPath] joined with ["middleware"]; a
    [middlewarePath], given or defaulted, that starts with a dot is joined
    to [rootPath], not to the directory of the file; a value that does not
    start with a dot stays as it is in these steps, and so does every other
    property.  The two paths of the resolved configuration are what the
    interpolation of the variables makes of these values. *)
Theorem paths_default_and_resolve `{Externals} (name : string) (sc : JValue) :
  is_string sc = false ->
  string_or_absent (field "rootPath" sc) = true ->
  string_or_absent (field "middlewarePath" sc) = true ->
  let dir := path_dirname name in
  let root0 :=
    match field "rootPath" sc with Some (JStr r) => r | _ => dir end in
  let root := if startsWith root0 "." then path_join dir root0 else root0 in
  let middleware0 :=
    match field "middlewarePath" sc with
    | Some (JStr m) => m
    | _ => path_join root "middleware"
    end in
  let middleware :=
    if startsWith middleware0 "." then path_join root middleware0
    else middleware0 in
  exists out,
    defaultPaths name sc = Ok out /\
    field "rootPath" out = Some (JStr root) /\
    field "middlewarePath" out = Some (JStr middleware) /\
    (forall k, k <> "rootPath" -> k <> "middlewarePath" ->
               field k out = field k sc) /\
    (forall file w raw,
        name = configFileNameOf (cwd (settings w)) file ->
        fst (loadServerConfig name w) = Ok raw ->
        validateServerConfig raw = Ok sc ->
        is_array sc = false ->
        rootPath (this (snd (loadGatewayConfig file w)))
        = Ok (Some (checkEnvVariable (JStr root))) /\
        middlewarePath (this (snd (loadGatewayConfig file w)))
        = Ok (Some (checkEnvVariable (JStr middleware)))).
Proof.
  intros _ Hr Hm dir root0 root middleware0 middleware.
  assert (Hsteps : exists out,
             defaultPaths name sc = Ok out /\
             field "rootPath" out = Some (JStr root) /\
             field "middlewarePath" out = Some (JStr middleware) /\
             (forall k, k <> "rootPath"%string -> k <> "middlewarePath"%string ->
                        field k out = field k sc)).
  { unfold defaultPaths. fold dir.
    set (sc1 := defaults sc "rootPath" (JStr dir)).
    assert (O1 : is_object sc1 = true) by apply defaults_is_object.
    assert (R1 : field "rootPath" sc1 = Some (JStr root0)).
    { unfold sc1, root0. rewrite field_defaults_same.
      destruct (field "rootPath" sc) as [[ | | | | r | ] | ];
        try discriminate; reflexivity. }
    assert (K1 : forall k, k <> "rootPath"%string -> field k sc1 = field k sc)
      by (intros k Hk; apply field_defaults_other; exact Hk).
    clearbody sc1. rewrite R1. simpl. fold root.
    set (sc2 := if startsWith root0 "."
                then assign_field "rootPath" (JStr root) sc1 else sc1).
    assert (E2 : (if startsWith root0 "."
                  then Ok (assign_field "rootPath"
                             (JStr (path_join dir root0)) sc1)
                  else Ok sc1) = Ok sc2).
    { unfold sc2, root. destruct (startsWith root0 "."); reflexivity. }
    assert (O2 : is_object sc2 = true).
    { unfold sc2. destruct (startsWith root0 ".");
        [ rewrite assign_field_is_object | ]; exact O1. }
    assert (R2 : field "rootPath" sc2 = Some (JStr root)).
    { unfold sc2, root. destruct (startsWith root0 ".");
        [ apply field_assign_field_same; exact O1 | exact R1 ]. }
    assert (K2 : forall k, k <> "rootPath"%string -> field k sc2 = field k sc).
    { intros k Hk. unfold sc2. destruct (startsWith root0 ".");
        [ rewrite field_assign_field_other | ]; auto. }
    clearbody sc2. rewrite E2. simpl. rewrite R2. simpl.
    set (sc3 := defaults sc2 "middlewarePath"
                  (JStr (path_join root "middleware"))).
    assert (O3 : is_object sc3 = true) by apply defaults_is_object.
    assert (M3 : field "middlewarePath" sc3 = Some (JStr middleware0)).
    { unfold sc3, middleware0.
      rewrite field_defaults_same, K2; [ | discriminate ].
      destruct (field "middlewarePath" sc) as [[ | | | | m | ] | ];
        try discriminate; reflexivity. }
    assert (R3 : field "rootPath" sc3 = Some (JStr root)).
    { unfold sc3. rewrite field_defaults_other; [ exact R2 | discriminate ]. }
    assert (K3 : forall k, k <> "rootPath"%string ->
                           k <> "middlewarePath"%string ->
                           field k sc3 = field k sc).
    { intros k Hk1 Hk2. unfold sc3. rewrite field_defaults_other; auto. }
    clearbody sc3. rewrite M3, R3. simpl. fold middleware.
    unfold middleware.
    destruct (startsWith middleware0 ".").
    - eexists. split; [ reflexivity | ].
      split; [ rewrite field_assign_field_other; [ exact R3 | discriminate ] | ].
      split; [ apply field_assign_field_same; exact O3 | ].
      intros k Hk1 Hk2. rewrite field_assign_field_other; auto.
    - exists sc3. repeat split; auto. }
  destruct Hsteps as [out [Hout [Hroot [Hmiddle Hother]]]].
  exists out. split; [ exact Hout | ]. split; [ exact Hroot | ].
  split; [ exact Hmiddle | ]. split; [ exact Hother | ].
  intros file w raw Hname Hraw Hv Ha.
  pose proof (defaultPaths_object _ _ _ Hout) as Oo.
  pose proof (defaultPaths_array _ _ _ Hout) as Ao. rewrite Ha in Ao.
  subst name.
  destruct (loadGatewayConfig_fields file w raw sc out Hraw Hv Hout)
    as [c [Hc [Oc Kc]]].
  unfold rootPath, middlewarePath. rewrite Hc, (deref_object c Oc). simpl.
  rewrite !Kc by discriminate.
  rewrite !field_deepMapValues by assumption.
  rewrite Hroot, Hmiddle. split; reflexivity.
Qed.

Lemma paths_default_and_resolve_witness :
  (exists out,
      @defaultPaths posix_externals "/srv/gw/tree-gateway"
        sample_relative_paths = Ok out /\
      field "rootPath" out = Some (JStr "/srv/gw/root") /\
      field "middlewarePath" out = Some (JStr "/srv/gw/root/mw"))
  /\ rootPath (this (snd (@loadGatewayConfig posix_externals "gw.yml"
                           relative_root_world)))
     = Ok (Some (JStr ".."))
  /\ middlewarePath (this (snd (@loadGatewayConfig posix_externals "gw.yml"
                                 relative_root_world)))
     = Ok (Some (JStr "../../middleware")).
Proof.
  destruct (@paths_default_and_resolve posix_externals
              "/srv/gw/tree-gateway" sample_relative_paths
              eq_refl eq_refl eq_refl)
    as [out [H1 [H2 [H3 _]]]].
  destruct (@paths_default_and_resolve posix_externals
              "gw" sample_relative_root eq_refl eq_refl eq_refl)
    as [out' [_ [_ [_ [_ Hresolved]]]]].
  split; [ exists out; split; [ exact H1 | split; [ exact H2 | exact H3 ] ] | ].
  exact (Hresolved "gw.yml" relative_root_world sample_relative_root
           eq_refl eq_refl eq_refl eq_refl).
Defined.

(** C6, as it is stated, fails.  With the configuration file [gw.yml],
    named without a directory, and the root path [..], the middleware path
    is absent; it is not the root path followed by [/middleware], which is
    [../middleware]: that default starts with a dot and is joined to the
    root path once more. *)
Lemma default_middleware_path_is_resolved_again :
  field "middlewarePath" sample_relative_root = None
  /\ fst (@load posix_externals relative_root_world) = Ok tt
  /\ rootPath (this (snd (@load posix_externals relative_root_world)))
     = Ok (Some (JStr ".."))
  /\ middlewarePath (this (snd (@load posix_externals relative_root_world)))
     = Ok (Some (JStr "../../middleware"))
  /\ @path_join posix_externals ".." "middleware" = "../middleware"%string.
Proof. vm_compute. repeat split. Qed.

(** X19. A resolution that fails is not rolled back, and the flag is
    what it was.  When the file layers, the validation or the defaulting of
    the paths fail, the instance is what it was.  When these three have
    succeeded, on a document that is not an array, and the resolution fails
    later, in the normalisation of the arrays, in the overlay of the store
    or in the TLS paths, the configuration of the files is already in place
    and stays there: the root path and the middleware path of the instance
    are the interpolated ones of the defaulted document. *)
Theorem failed_resolution_is_not_rolled_back `{Externals} (file : string)
    (w w' : World) (e : Error) :
  let name := configFileNameOf (cwd (settings w)) file in
  loadGatewayConfig file w = (Throw e, w') ->
  isLoaded (this w') = isLoaded (this w)
  /\ (forall e0, fst (loadServerConfig name w) = Throw e0 -> this w' = this w)
  /\ (forall raw,
         fst (loadServerConfig name w) = Ok raw ->
         (forall e0, validateServerConfig raw = Throw e0 -> this w' = this w)
         /\ (forall validated,
                validateServerConfig raw = Ok validated ->
                (forall e0, defaultPaths name validated = Throw e0 ->
                            this w' = this w)
                /\ (forall defaulted,
                       defaultPaths name validated = Ok defaulted ->
                       is_array validated = false ->
                       exists r m,
                         field "rootPath" defaulted = Some r /\
                         field "middlewarePath" defaulted = Some m /\
                         rootPath (this w')
                         = Ok (Some (deepMapValues checkEnvVariable r)) /\
                         middlewarePath (this w')
                         = Ok (Some (deepMapValues checkEnvVariable m))))).
Proof.
  intros name Hrun.
  split.
  { pose proof (flag_kept_loadGatewayConfig file w) as [F _].
    rewrite Hrun in F. exact F. }
  revert Hrun. rewrite loadGatewayConfig_stages. cbv zeta. fold name.
  pose proof (instance_kept_loadServerConfig name w) as [T1 _].
  destruct (loadServerConfig name w) as [[raw | e1] w1]; simpl in T1;
    simpl fst;
    [ | intros E; inversion E; subst;
        split; [ intros e0 _; exact T1 | intros raw E'; discriminate ] ].
  intros Hrun. split; [ intros e0 E; discriminate | ].
  intros raw' Eraw. inversion Eraw; subst raw'; clear Eraw.
  destruct (validateServerConfig raw) as [validated | e2];
    [ | inversion Hrun; subst;
        split; [ intros e0 _; exact T1 | intros v E'; discriminate ] ].
  split; [ intros e0 E; discriminate | ].
  intros validated' Ev. inversion Ev; subst validated'; clear Ev.
  destruct (defaultPaths name validated) as [defaulted | e3] eqn:Ed;
    [ | inversion Hrun; subst;
        split; [ intros e0 _; exact T1 | intros d E'; discriminate ] ].
  split; [ intros e0 E; discriminate | ].
  intros defaulted' Ed' Ha. inversion Ed'; subst defaulted'; clear Ed'.
  pose proof (defaultPaths_object _ _ _ Ed) as Od.
  pose proof (defaultPaths_array _ _ _ Ed) as Ad. rewrite Ha in Ad.
  destruct (defaultPaths_fields _ _ _ Ed) as [[r Hr] [m Hm]].
  exists r, m. split; [ exact Hr | ]. split; [ exact Hm | ].
  set (interpolated := deepMapValues checkEnvVariable defaulted) in *.
  assert (Oi : is_object interpolated = true)
    by (apply deepMapValues_object; exact Od).
  assert (Ri : field "rootPath" interpolated
               = Some (deepMapValues checkEnvVariable r))
    by (unfold interpolated;
        rewrite field_deepMapValues, Hr by assumption; reflexivity).
  assert (Mi : field "middlewarePath" interpolated
               = Some (deepMapValues checkEnvVariable m))
    by (unfold interpolated;
        rewrite field_deepMapValues, Hm by assumption; reflexivity).
  clearbody interpolated.
  pose proof (castArrays_object interpolated Oi) as On.
  assert (Rn : field "rootPath" (snd (castArrays interpolated))
               = field "rootPath" interpolated).
  { rewrite <- !get_one. apply get_castArrays_elsewhere; discriminate. }
  assert (Mn : field "middlewarePath" (snd (castArrays interpolated))
               = field "middlewarePath" interpolated).
  { rewrite <- !get_one. apply get_castArrays_elsewhere; discriminate. }
  destruct (castArrays interpolated) as [r0 normalised].
  simpl in On, Rn, Mn. rewrite Ri in Rn. rewrite Mi in Mn.
  assert (Hleft : exists c,
             config (this w') = Some c /\ is_object c = true /\
             forall k, k <> "gateway"%string -> field k c = field k normalised).
  { destruct r0 as [[] | e4];
      [ | inversion Hrun; subst; exists normalised; auto ].
    match type of Hrun with
    | context [ loadDatabaseConfig ?x ] =>
        pose proof (paths_kept_loadDatabaseConfig x) as [_ P2];
        specialize (P2 normalised eq_refl On);
        destruct (loadDatabaseConfig x) as [[[] | e4] w2]
    end; simpl in P2; destruct P2 as [c2 [Hc2 [O2 K2]]].
    - pose proof (paths_kept_resolveHttpsPaths (suspend w2)) as [_ P3].
      rewrite Hrun in P3. simpl in P3.
      destruct (P3 c2 Hc2 O2) as [c3 [Hc3 [O3 K3]]].
      exists c3. split; [ exact Hc3 | ]. split; [ exact O3 | ].
      intros k Hk. rewrite K3, K2; auto.
    - inversion Hrun; subst. exists c2. auto. }
  destruct Hleft as [c [Hc [Oc Kc]]].
  unfold rootPath, middlewarePath. rewrite Hc, (deref_object c Oc). simpl.
  rewrite !Kc by discriminate. rewrite Rn, Mn. split; reflexivity.
Qed.

Lemma failed_resolution_is_not_rolled_back_witness :
  let w' := snd (@loadGatewayConfig posix_externals "/srv/gw/tree-gateway.yml"
                   offline_world) in
  isLoaded (this w') = false
  /\ rootPath (this w') = Ok (Some (JStr "/srv/gw"))
  /\ middlewarePath (this w') = Ok (Some (JStr "/srv/gw/middleware")).
Proof.
  intros w'.
  assert (Hrun : @loadGatewayConfig posix_externals "/srv/gw/tree-gateway.yml"
                   offline_world = (Throw StoreError, w'))
    by (vm_compute; reflexivity).
  destruct (@failed_resolution_is_not_rolled_back posix_externals _ _ _ _ Hrun)
    as [Hflag [_ Hlate]].
  assert (Hraw : fst (@loadServerConfig posix_externals
                        (@configFileNameOf posix_externals
                           (cwd (settings offline_world))
                           "/srv/gw/tree-gateway.yml") offline_world)
                 = Ok sample_base)
    by (vm_compute; reflexivity).
  destruct (Hlate _ Hraw) as [_ Hvalid].
  destruct (Hvalid sample_base eq_refl) as [_ Hdefault].
  assert (Hd : @defaultPaths posix_externals
                 (@configFileNameOf posix_externals
                           (cwd (settings offline_world))
                    "/srv/gw/tree-gateway.yml") sample_base
               = Ok (assign_field "middlewarePath" (JStr "/srv/gw/middleware")
                       sample_base))
    by (vm_compute; reflexivity).
  destruct (Hdefault _ Hd eq_refl) as [r [m [Hr [Hm [Hroot Hmiddle]]]]].
  inversion Hr; subst r. inversion Hm; subst m.
  split; [ exact Hflag | ]. split; [ exact Hroot | exact Hmiddle ].
Defined.

(** X20. A [reload] that fails in the file layers or in the validation
    leaves the instance without configuration: the previous one was cleared
    at the start and nothing replaces it.  The flag stays set on a loaded
    instance, so that the getter of [gateway] no longer raises the
    not-loaded error but fails on the absent configuration, as the other
    getters do. *)
Theorem failed_reload_loses_the_configuration `{Externals} (w : World)
    (e : Error) :
  let cleared := snd (set_config None w) in
  let name :=
    configFileNameOf (cwd (settings w))
      (gatewayConfigFileOrDefault (settings w)) in
  (fst (loadServerConfig name cleared) = Throw e \/
   exists raw, fst (loadServerConfig name cleared) = Ok raw /\
               validateServerConfig raw = Throw e) ->
  fst (reload w) = Throw e /\
  config (this (snd (reload w))) = None /\
  isLoaded (this (snd (reload w))) = isLoaded (this w) /\
  rootPath (this (snd (reload w))) = Throw TypeError /\
  (isLoaded (this w) = true ->
   gateway (this (snd (reload w))) = Throw TypeError).
Proof.
  intros cleared name Hfail.
  assert (Hrun : exists w1,
             loadGatewayConfig (gatewayConfigFileOrDefault (settings w)) cleared
             = (Throw e, w1) /\
             this w1 = this cleared).
  { rewrite loadGatewayConfig_stages. cbv zeta.
    change (settings cleared) with (settings w). fold name.
    pose proof (instance_kept_loadServerConfig name cleared) as [T1 _].
    destruct (loadServerConfig name cleared) as [[raw | e1] w1]; simpl in *.
    - destruct Hfail as [Hf | [raw' [Hr Hv]]]; [ discriminate | ].
      inversion Hr; subst raw'. rewrite Hv.
      eexists. split; [ reflexivity | exact T1 ].
    - destruct Hfail as [Hf | [raw' [Hr Hv]]]; [ | discriminate ].
      inversion Hf; subst e1.
      eexists. split; [ reflexivity | exact T1 ]. }
  destruct Hrun as [w1 [Hrun T1]].
  assert (Hreload : reload w = (Throw e, suspend w1)).
  { unfold reload.
    unfold bind at 1. unfold set_config at 1, change at 1.
    unfold bind at 1. unfold read at 1.
    unfold bind at 1. unfold await at 1.
    change (with_this {| config := None; isLoaded := isLoaded (this w) |} w)
      with cleared.
    change (settings cleared) with (settings w).
    rewrite Hrun. reflexivity. }
  rewrite Hreload. simpl. rewrite T1. simpl.
  split; [ reflexivity | ]. split; [ reflexivity | ].
  split; [ reflexivity | ]. split; [ reflexivity | ].
  intros Hl. unfold gateway, ensureLoaded. simpl. rewrite Hl. reflexivity.
Qed.

Lemma failed_reload_loses_the_configuration_witness :
  gateway (this broken_reload_world) = Ok (Some sample_local_gateway) /\
  fst (@reload posix_externals broken_reload_world) = Throw ParseError /\
  gateway (this (snd (@reload posix_externals broken_reload_world)))
  = Throw TypeError.
Proof.
  split; [ reflexivity | ].
  destruct (@failed_reload_loses_the_configuration posix_externals
              broken_reload_world ParseError (or_introl eq_refl))
    as [H1 [_ [_ [_ H5]]]].
  split; [ exact H1 | exact (H5 eq_refl) ].
Defined.

(** ** The conditions of the Store Overlay *)

(** X21. When the store holds a gateway, the Store Overlay succeeds
    exactly when the merged gateway passes the validation and has a
    [protocol]; a failure of the validation is the failure of the stage,
    before the protocol is looked at.  The protocol is required of the
    merge, not of what the store holds: a stored gateway without protocol
    is completed by a copy of the protocol of the local one, which is as
    truthy as the original, and is the original when that has no key named
    like a member that every object inherits.  In all of this the store is
    only read. *)
Theorem stored_gateway_is_checked_after_the_merge `{Externals} (w : World)
    (a : bool) (ps : Props) (stored : JValue) :
  config (this w) = Some (JObj a ps) ->
  online (store w) = true ->
  savedGateway (store w) = Some stored ->
  truthy stored = true ->
  let local := or_null (lookup "gateway" ps) in
  let merged := defaultsDeep stored local in
  (fst (getConfigFromDB w) = Ok tt <->
   validateGatewayConfig merged = Ok tt /\
   truthy (or_null (field "protocol" merged)) = true)
  /\ (forall e, validateGatewayConfig merged = Throw e ->
                fst (getConfigFromDB w) = Throw e)
  /\ (forall p,
         is_object stored = true -> field "protocol" stored = None ->
         field "protocol" local = Some p ->
         field "protocol" merged = Some (clone p)
         /\ truthy (clone p) = truthy p
         /\ (plain p = true -> field "protocol" merged = Some p))
  /\ store (snd (getConfigFromDB w)) = store w
  /\ effects (snd (getConfigFromDB w)) = effects w.
Proof.
  intros Hc Ho Hs Ht local merged.
  rewrite (getConfigFromDB_stored w a ps stored Hc Ho Hs Ht).
  fold local. fold merged.
  split; [ | split; [ | split ] ].
  - destruct (validateGatewayConfig merged) as [[] | e]; simpl.
    + destruct (truthy (or_null (field "protocol" merged))); simpl; split;
        try discriminate; auto.
      intros [_ E]; discriminate.
    + split; [ discriminate | intros [E _]; discriminate ].
  - intros e He. rewrite He. reflexivity.
  - intros p Hobj Hp Hl. unfold merged.
    destruct stored as [ | | | | | b own ]; try discriminate.
    destruct local as [ | | | | | c src ]; try discriminate.
    rewrite lookup_defaultsDeep. simpl in Hp, Hl. rewrite Hp.
    replace (inherited b "protocol") with false
      by (destruct b; reflexivity).
    rewrite Hl. simpl option_map.
    split; [ reflexivity | ].
    split; [ destruct p; reflexivity | ].
    intros Hplain. rewrite (clone_plain p Hplain). reflexivity.
  - destruct (validateGatewayConfig merged); split; reflexivity.
Qed.

Lemma stored_gateway_is_checked_after_the_merge_witness :
  fst (@getConfigFromDB posix_externals
         (store_entry_world sample_base_with_gateway
            (Some sample_stored_filters))) = Ok tt.
Proof.
  destruct (@stored_gateway_is_checked_after_the_merge posix_externals
              (store_entry_world sample_base_with_gateway
                 (Some sample_stored_filters))
              false
              [("rootPath", JStr "/srv/gw"); ("database", sample_database);
               ("gateway", sample_local_gateway)]
              sample_stored_filters eq_refl eq_refl eq_refl eq_refl)
    as [[_ Hok] _].
  apply Hok. split; reflexivity.
Defined.

(** ** The configured name *)

Lemma list_ascii_of_string_app (a b : string) :
  list_ascii_of_string (a ++ b)%string
  = list_ascii_of_string a ++ list_ascii_of_string b.
Proof. induction a as [ | c a IH ]; simpl; congruence. Qed.

Lemma drop_spaces_app_spaces l1 l :
  forallb is_space l1 = true -> drop_spaces (l1 ++ l) = drop_spaces l.
Proof.
  induction l1 as [ | c l1 IH ]; simpl; auto.
  destruct (is_space c); simpl; [ exact IH | discriminate ].
Qed.

Lemma drop_spaces_clean c l :
  is_space c = false -> drop_spaces (c :: l) = c :: l.
Proof. intros E. simpl. rewrite E. reflexivity. Qed.

Lemma forallb_rev {A} (f : A -> bool) l :
  forallb f (rev l) = forallb f l.
Proof.
  induction l as [ | x l IH ]; simpl; auto.
  rewrite forallb_app, IH. simpl. rewrite andb_true_r. apply andb_comm.
Qed.

Lemma is_space_lower_char c : is_space (lower_char c) = is_space c.
Proof. destruct c as [[] [] [] [] [] [] [] []]; reflexivity. Qed.

(** An ending of a configuration file begins and ends with a character
    that is not white space. *)
Lemma config_extension_edges ext :
  is_config_extension ext = true ->
  exists c l d l',
    list_ascii_of_string ext = c :: l /\ is_space c = false /\
    rev (list_ascii_of_string ext) = d :: l' /\ is_space d = false.
Proof.
  intros Hext. apply config_extension_cases in Hext.
  assert (Hsp : forall c x, lower_char c = x -> is_space x = false ->
                            is_space c = false)
    by (intros c x E Hx; rewrite <- is_space_lower_char, E; exact Hx).
  destruct Hext as [E | [E | E]];
    repeat (destruct ext as [ | ? ext ]; try discriminate);
    simpl in E; inversion E;
    do 4 eexists; (split; [ reflexivity | ]);
    (split; [ eapply Hsp; [ eassumption | reflexivity ] | ]);
    (split; [ reflexivity | ]);
    (eapply Hsp; [ eassumption | reflexivity ]).
Qed.

Lemma trim_around (ws1 s ext ws2 : string) :
  all_spaces ws1 = true -> all_spaces ws2 = true ->
  starts_clean s = true -> is_config_extension ext = true ->
  trim (ws1 ++ s ++ ext ++ ws2)%string = (s ++ ext)%string.
Proof.
  unfold all_spaces. intros H1 H2 Hs Hext.
  destruct (config_extension_edges ext Hext)
    as [c [l [d [l' [Ec [Sc [Ed Sd]]]]]]].
  unfold trim. rewrite !list_ascii_of_string_app.
  rewrite drop_spaces_app_spaces by exact H1.
  set (ls := list_ascii_of_string s) in *.
  set (le := list_ascii_of_string ext) in *.
  set (l2 := list_ascii_of_string ws2) in *.
  assert (Hfirst : drop_spaces (ls ++ le ++ l2) = ls ++ le ++ l2).
  { destruct s as [ | c0 s ].
    - subst ls. simpl. rewrite Ec. simpl. rewrite Sc. reflexivity.
    - subst ls. simpl in *.
      destruct (is_space c0); [ discriminate | reflexivity ]. }
  rewrite Hfirst, !rev_app_distr, <- app_assoc.
  rewrite drop_spaces_app_spaces by (rewrite forallb_rev; exact H2).
  rewrite Ed. simpl app. rewrite drop_spaces_clean by exact Sd.
  change (d :: l' ++ rev ls) with ((d :: l') ++ rev ls).
  rewrite <- Ed, <- rev_app_distr, rev_involutive.
  unfold ls, le. rewrite <- list_ascii_of_string_app.
  apply string_of_list_ascii_of_string.
Qed.

(** X22. For a configured path of ASCII characters, the name under which
    the files are looked for does not depend on white space around the path
    nor on its ending: with white space before and after, and any of the
    endings [.yaml], [.yml], [.json] in any letter case, it is the path
    without them, joined to the working directory when it starts with a dot
    and as it is otherwise. *)
Theorem configured_name_is_trimmed_and_stripped `{Externals}
    (dir ws1 s ext ws2 : string) :
  is_ascii s = true ->
  all_spaces ws1 = true -> all_spaces ws2 = true ->
  starts_clean s = true -> is_config_extension ext = true ->
  configFileNameOf dir (ws1 ++ s ++ ext ++ ws2)%string
  = if startsWith s "." then path_join dir s else s.
Proof.
  intros _ H1 H2 Hs Hext. unfold configFileNameOf.
  rewrite (trim_around ws1 s ext ws2 H1 H2 Hs Hext).
  rewrite (removeExtension_app s ext Hext). reflexivity.
Qed.

Lemma configured_name_is_trimmed_and_stripped_witness :
  @configFileNameOf posix_externals "/app" "  ./conf/gateway.JSON "
  = "/app/conf/gateway".
Proof.
  exact (@configured_name_is_trimmed_and_stripped posix_externals
           "/app" "  " "./conf/gateway" ".JSON" " "
           eq_refl eq_refl eq_refl eq_refl eq_refl).
Defined.
